(* ===== verification/_CoqProject ===== *)
-Q . S2P
Prelude.v
JsValue.v
Json.v
JsonParse.v
JsonValid.v
Loader.v
Ring.v
Config.v
Topology.v
Document.v
Console.v
Loop.v
Embedding.v
Decode.v
Process.v
