(* ===== verification/Prelude.v ===== *)
(** * A verification development for [generate-docker-compose.js]

    The program ([src/generate-docker-compose.js], 165 lines of Node.js)
    loads a JSON list of ledgers with [require] and prints a
    docker-compose manifest.  The
    manifest has one service [ilp-kit<i>] per ledger.  The ledgers form a
    ring, and service [i] connects ledger [i] with ledger [(i+1) mod N]:
    its [CONNECTOR_LEDGERS] and [CONNECTOR_ROUTES] variables hold JSON
    texts built from both ledgers.

    ** Parts of the program and the files that model them

    - [Prelude] (this file): JS strings as [list ascii] ([jstring], with
      [lit] for literals), the decimal printing of JS integers ([show_N],
      [show_Z]: [Number::toString], used by every template literal
      [${...}]) and its reader [read_N], and the writer/exception monad
      [WE] with [throw] and [tell].  The monad models the program's two
      effects: [console.error] diagnostics and thrown exceptions.  The
      scope [js_scope] has the notations [m ⇓ a logging l] (returns [a])
      and [m ↯ e logging l] (throws [e]).  The hint databases [js] and
      [js_rw] and the tactics [we_simp], [lit_neq], [decide_closed] and
      [list_norm] carry the common proof steps.
    - [JsValue]: the JS values the program handles ([jsval]).  Ledgers come
      from [require(<json file>)], and the program builds its own objects.
      The file models property reads ([get]: a [TypeError] on [null] and
      [undefined]), [ToBoolean] ([truthy]), [ToString] for computed keys
      ([to_js_string]) and ordinary objects as ordered property lists.
      [set_prop] is CreateDataProperty: it replaces a key in place or
      appends it.  [put] is [[Set]]: the key [__proto__] reaches the
      inherited accessor.  [own_keys_order] is [[OwnPropertyKeys]]: array
      indices first, ascending.  [object_assign] is [Object.assign] and
      [object_keys] is [Object.keys].
    - [Json]: [JSON.stringify] ([serialize]: SerializeJSONProperty,
      QuoteJSONString, SerializeJSONObject, SerializeJSONArray).
    - [Ring]: [peerToSide] (lines 46-48) and the [next] index of lines 79
      and 99 ([next_index]), with JS [%] as [Z.rem].  The class
      [RingNeighbours] states what a ring of neighbours promises.
    - [Config]: [createConfig] (lines 50-76): every property read in source
      order, the option merge, the [rpcUri]/[rpcUris] branches and their
      diagnostics.
    - [Topology]: [generateConnectorLedgers] (lines 78-96), with its object
      literal of computed keys evaluated left to right ([connectorLedgers]),
      and [generateConnectorRoutes] (lines 98-109).
    - [Document]: the default header (lines 23-44), the service template of
      lines 114-162 as its 48 lines ([service_lines]), the loop of lines
      111-163 ([render_node], [render_loop], [generate]).
      [yaml_sq_scalar] reads a YAML single-quoted scalar; it models the
      consumer of the manifest, not code of the program.
    - [JsonParse]: [JSON.parse] ([json_parse], with white space, integers
      and 8-bit [\u] escapes, and fuel the length of the text).  It reads
      the ledgers file for [require], and the texts the program writes for
      their consumer.
    - [JsonValid]: the JSON grammar in full ([json_valid]: fractions,
      exponents, every [\uXXXX]), which decides when [JSON.parse] throws
      a [SyntaxError].
    - [Loader]: Node's [require] of the ledgers file (line 22): path
      resolution with the extensions [.js], [.json], [.node]
      ([resolve]), the choice of loader by extension ([module_loader]),
      and the JSON loader ([node_require]).  Then [ledgers_of]: the
      entries the script's reads [ledgers.length] and [ledgers[i]] see on
      the value [require] returned, whether an array, a string, an
      object with a numeric [length], a scalar or [null].  Node's loader
      is not code of this repository; it is modelled from its
      behaviour.
    - [Loop]: the [for] loop of lines 111-163 as a transition system: a
      configuration ([config]) holds [i], [file] and the diagnostics;
      [step] is one evaluation of the test [i < ledgers.length] and, when
      it holds, of the body and [++i]; [step_fn] computes it.
    - [Embedding]: which values keep the single quote out of the embedded
      JSON texts, from the ledger's fields to the service block.
    - [Decode]: which values keep their keys distinct through
      [createConfig] and the object literals, so that [JSON.parse] gives
      the connector objects back.
    - [Console]: the text [console.error(n, v)] writes ([diagnostic_line]):
      [util.format] joins [n] and [v] by a space, printing a string as
      it is and any other value by [util.inspect] ([inspect]), which is
      Node's and is modelled from its behaviour with [console]'s options
      (no colours, depth 2, [breakLength] 128, [compact] 3): [strEscape]
      ([str_escape]), [formatPrimitive] on strings ([format_string]), the
      keys of [formatProperty] ([key_name]) and [reduceToSingleString]
      ([reduce_to_single]), with [currentDepth] returned by [inspect_go].
    - [Process]: the script as a whole ([main]: lines 5-23, 111-165): the
      [--help] and [--ledgers] checks, [require] ([Loader]),
      [loadHeaderFile], the loop on the entries [ledgers_of] gives
      ([run], [Document.generate]), the final [console.log] ([finish])
      and the exit codes.

    Each file requires the files of the parts it calls, in the order the
    program's functions call each other: JSON, loader, ring,
    configuration, topology, document, process.

    ** How state and effects are modelled

    The module-level constant [ledgers] is a [Section] variable of the
    files that read it; when the section closes it becomes an explicit
    argument.  A computation that may log or throw has the type
    [WE event exn A].  Its value is the result (an exception or a value)
    paired with the [console.error] lines written before the result.  A
    [TypeError] thus keeps the diagnostics printed before it, as stderr
    does.  The [let file = ...; file += ...] string accumulation is the
    accumulator of [render_loop].  The process is a function from the
    parsed arguments ([argv]) and the environment ([env]: working
    directory, [path.join], the file system that [require] and
    [fs.readFileSync] read, and the exports of modules run as code) to an
    [outcome]: stdout text, stderr items and an exit code.  It is [None]
    on an input outside the model: a JSON number with a fraction, a
    [\u] escape past 255, or a [length] that is a string, array or
    object.

    ** What is proved

    - Ring: [peerToSide] equals the spec's formula and stays in [0, N); its
      two sides implement [RingNeighbours] (refinement of the reference
      ring [ring_succ]/[ring_pred]).
    - Config: the option merge gives the side's options precedence.  The
      [rpcUri] and [rpcUris] branches set the templated address (and the
      other side's account as key) and log it.  A plain ledger logs
      nothing, and a nullish ledger throws before anything is logged.
    - Topology: the keys of [CONNECTOR_LEDGERS], their order and values.
      The three-entry object collapses to two entries in a one-ledger ring.
      An array-index name is listed first.  The exact [CONNECTOR_ROUTES]
      text, and the [TypeError] of a nullish neighbour.
    - Document: the run succeeds exactly when no ledger is nullish, and the
      output is the header plus one block per ledger, in order, with the
      diagnostics in node order.  The published port is 1000*(i+2)+10.  It
      reads back as a number, is valid only up to [i = 63], and is
      injective and apart from the API ports.  The RPC address names the
      next node.  Across components, node [i] is
      consistent: the account its [CONNECTOR_LEDGERS] entry under
      [test.dev.kit<i>.] names is the container and published port that
      its service block sets as [API_HOSTNAME] and [API_PUBLIC_PORT].
    - Config also: [createConfig] returns a ServiceConfig (the keys
      [currency], [plugin], [store], [options], with [options] an object)
      for every non-nullish ledger, object or not.
    - JsonParse: [JSON.parse(JSON.stringify(v))] is [v] up to what JSON
      cannot hold, for every value whose objects have distinct keys; the
      escapes are checked over all 256 characters by one case split.
    - Loop: the step relation is deterministic; every reachable
      configuration satisfies the loop invariant (rule induction on
      [rtc]); it is strongly normalizing ([sn]) from every configuration;
      every run reaches a final configuration within [N + 1] steps; and the
      final configuration holds what [generate] returns, so the fold of
      [Document] and the loop are equivalent.
    - Embedding: when no string of the ledgers holds a single quote, both
      CONNECTOR lines of every block read back through YAML as the exact
      JSON texts.  A name with a quote breaks the line (Document).
    - Decode: when the ledgers' objects have distinct keys (as every file
      [require] parses has), [JSON.parse] of both CONNECTOR texts gives back
      the connector-ledgers object and the route the program built.
    - JsonValid: the recogniser's fuel is always enough
      ([json_valid_iff]), and every text [json_parse] reads is valid
      ([json_parse_valid]).
    - Loader: a [.json] file holding [JSON.stringify(v)] loads as [v] (up
      to what JSON cannot hold); [--ledgers ledgers] loads [ledgers.json]
      when there is no [ledgers] or [ledgers.js].
    - Console: every diagnostic line of node [i] starts with [i] and a
      space and ends with a newline (the [WE] computations log only events
      of their own node, by the [logs] hints); the [Object.keys] line of
      at most 6 plain keys is [[ 'k1', 'k2' ]] when it fits in 128
      columns and one key per line otherwise.
    - Process: [--help], a missing [--ledgers], the success run on every
      value whose entries are a list with no nullish entry, an empty
      ledgers array and a value without [length] (header only, exit 0), a
      null entry or a [null] file (exit 1, no stdout), a file that is not
      JSON (a [SyntaxError] before the header is read), and exit codes 0
      or 1 with an empty stdout on every failure.

    ** Bounds and fuel

    [show_N] prints with fuel [S (N.size n)]: a number below [2^k] has at
    most [k] decimal digits, and [show_N_go_fuel] proves that any larger
    fuel gives the same string, so the fuel never runs out ([show_N_unfold]
    is the unbounded recursion).  [json_parse] runs [parse_value] with
    fuel [S (length s)]: each nested value and each element or member
    costs one unit and at least one character, and [roundtrip_all] proves
    that any fuel above the length of the text is enough.  [json_valid]
    runs its recogniser with the same fuel, and [valid_fuel_all] proves
    that a derivation consuming [n] characters runs with any fuel above
    [n].  [run_steps] is
    only used to build witness runs.  The fold of [Document] is structural
    on the list of node indices; the step relation of [Loop] decreases
    [N - i].  [inspect_go] is structural on the value; past [depth] 2
    it prints [[Array]] or [[Object]] without recursing.  JS numbers are [Z].  The
    program only forms small non-negative integers (indices and ports),
    which JS doubles represent exactly.

    ** What is not modelled

    yargs' parsing of the command line: the model starts from the parsed
    [argv] fields.  In [util.inspect]: the colours of a terminal (stderr
    is taken not to be one), the grouping into columns of an array of more
    than 6 entries (outside the model, [None]: the script logs arrays of at
    most 3), and the format of Node's report of an uncaught exception,
    which is kept as the exception.  [path.join] is a
    field of the environment record, and the file system holds regular
    files only: resolution through a directory ([package.json], [index.js])
    is not modelled.  A module run as code ([.js], [.node], or a name
    without a registered extension) gives its exports through the
    environment; running JavaScript is not modelled.  A ledgers value
    whose [length] is a string, an array or an object is not modelled:
    the loop test compares it as a number while [peerToSide]'s [+]
    concatenates it as a string, which the integer model of indices does
    not express.  JSON numbers are integers: a fraction or exponent is
    valid JSON ([JsonValid]) outside the model.  A byte-order mark, which
    Node's JSON loader strips, is not an 8-bit character.  Strings are 8-bit characters, not UTF-16 code units, so
    the [\u] escapes of lone surrogates are not modelled.  Prototype
    chains, getters and setters of the ledger objects are not modelled:
    JSON data has none. *)

From stdpp Require Export base list strings sets.
From Stdlib Require Export Ascii ZArith NArith Lia.

Declare Scope js_scope.
Delimit Scope js_scope with js.
Open Scope js_scope.

(** ** JS strings *)

(** A JS string is a list of characters, so list lemmas apply to it. *)
Abbreviation jstring := (list ascii).

(** A string literal of the source. *)
Definition lit (s : string) : jstring := String.list_ascii_of_string s.
Arguments lit : simpl never.

Definition dq : ascii := "034"%char.
Definition sq : ascii := "039"%char.
Definition bslash : ascii := "092"%char.
Definition newline : ascii := "010"%char.

(** ** Decimal printing of integers (template literals [${n}]) *)

Definition digit (d : N) : ascii := ascii_of_N (48 + d).

Fixpoint show_N_go (fuel : nat) (n : N) (acc : jstring) : jstring :=
  match fuel with
  | O => acc
  | S f =>
      if (n <? 10)%N then digit n :: acc
      else show_N_go f (n / 10) (digit (n mod 10) :: acc)
  end.

Definition show_N (n : N) : jstring := show_N_go (S (N.to_nat (N.size n))) n [].

(** [String(z)] for an integral JS number [z]. *)
Definition show_Z (z : Z) : jstring :=
  match z with
  | Z0 => show_N 0
  | Zpos p => show_N (Npos p)
  | Zneg p => "-"%char :: show_N (Npos p)
  end.

Definition is_digit (c : ascii) : bool :=
  (48 <=? N_of_ascii c)%N && (N_of_ascii c <=? 57)%N.

Definition digit_value (c : ascii) : N := (N_of_ascii c - 48)%N.

(** A decimal reader, the inverse of [show_N] on its image. *)
Fixpoint read_N_go (s : jstring) (acc : N) : option N :=
  match s with
  | [] => Some acc
  | c :: s' => if is_digit c then read_N_go s' (10 * acc + digit_value c)%N else None
  end.

Definition read_N (s : jstring) : option N :=
  match s with [] => None | _ => read_N_go s 0 end.

(** ** A writer/exception monad: [console.error] lines and [throw] *)

(** A computation yields a result (an exception or a value) and the lines
    it logged, in order.  Lines logged before a [throw] are kept. *)
Definition WE (L E A : Type) : Type := ((E + A) * list L)%type.

Section WE.
Context {L E : Type}.

#[export] Instance WE_ret : MRet (WE L E) := fun A a => (inr a, []).
#[export] Instance WE_bind : MBind (WE L E) := fun A B k m =>
    match m with
    | (inl e, l) => (inl e, l)
    | (inr a, l) => let '(r, l') := k a in (r, l ++ l')
    end.

Definition throw {A} (e : E) : WE L E A := (inl e, []).
Definition tell (x : L) : WE L E unit := (inr tt, [x]).
End WE.

Arguments throw {L E A} e : simpl never.

(** [m ⇓ a logging l]: [m] returns [a] after logging [l].
    [m ↯ e logging l]: [m] throws [e] after logging [l]. *)
Notation "m ⇓ a 'logging' l" := (m = (inr a, l)) (at level 70, a at next level, l at next level) : js_scope.
Notation "m ↯ e 'logging' l" := (m = (inl e, l)) (at level 70, e at next level, l at next level) : js_scope.

(** ** Lemmas on decimal printing *)

Lemma show_N_go_acc f n acc : show_N_go f n acc = show_N_go f n [] ++ acc.
Proof.
  revert n acc. induction f as [|f IH]; intros n acc; [done|]. cbn.
  destruct (n <? 10)%N; [done|]. rewrite IH, (IH _ [_]), <- app_assoc. done.
Qed.

(** Any fuel above the number of digits gives the same string. *)
Lemma show_N_go_fuel f g n acc :
  (n < 10 ^ N.of_nat f)%N -> (f < g)%nat -> show_N_go g n acc = show_N_go (S f) n acc.
Proof.
  revert g n acc. induction f as [|f IH]; intros g n acc Hn Hg.
  - destruct g as [|g]; [lia|]. cbn in Hn |- *.
    assert (n = 0%N) as -> by lia. done.
  - destruct g as [|g]; [lia|]. cbn -[N.pow N.of_nat].
    destruct (N.ltb_spec n 10); [done|].
    apply IH; [|lia]. rewrite Nat2N.inj_succ, N.pow_succ_r' in Hn.
    apply N.Div0.div_lt_upper_bound. lia.
Qed.

Lemma size_bound n : (n < 10 ^ N.of_nat (N.to_nat (N.size n)))%N.
Proof.
  rewrite N2Nat.id. eapply N.lt_le_trans; [apply N.size_gt|].
  apply N.pow_le_mono_l. lia.
Qed.

Lemma show_N_go_fuel2 f1 f2 g1 g2 n acc :
  (n < 10 ^ N.of_nat f1)%N -> (n < 10 ^ N.of_nat f2)%N -> (f1 < g1)%nat -> (f2 < g2)%nat ->
  show_N_go g1 n acc = show_N_go g2 n acc.
Proof.
  intros H1 H2 Hg1 Hg2.
  rewrite (show_N_go_fuel (Nat.min f1 f2) g1), (show_N_go_fuel (Nat.min f1 f2) g2); try lia;
    destruct (Nat.min_spec f1 f2) as [[_ ->]|[_ ->]]; done.
Qed.

Lemma show_N_unfold n :
  show_N n = if (n <? 10)%N then [digit n] else show_N (n / 10) ++ [digit (n mod 10)].
Proof.
  unfold show_N at 1. cbn [show_N_go]. destruct (N.ltb_spec n 10); [done|].
  rewrite show_N_go_acc. f_equal. unfold show_N.
  pose proof (size_bound n) as Hb.
  destruct (N.to_nat (N.size n)) as [|k] eqn:E; [destruct n; cbn in E; lia|].
  apply (show_N_go_fuel2 k (N.to_nat (N.size (n / 10)))); [|apply size_bound|lia|lia].
  rewrite Nat2N.inj_succ, N.pow_succ_r' in Hb.
  apply N.Div0.div_lt_upper_bound. lia.
Qed.

(** Appending a digit multiplies by ten and adds it. *)
Lemma show_N_app_digit n d :
  n <> 0%N -> (d < 10)%N -> show_N (10 * n + d) = show_N n ++ [digit d].
Proof.
  intros Hn Hd. rewrite show_N_unfold.
  destruct (N.ltb_spec (10 * n + d) 10); [lia|].
  assert ((10 * n + d) / 10 = n)%N as ->.
  { rewrite N.mul_comm, N.div_add_l, N.div_small by lia. lia. }
  assert ((10 * n + d) mod 10 = d)%N as ->.
  { rewrite N.mul_comm, N.add_comm, N.Div0.mod_add. apply N.mod_small; lia. }
  done.
Qed.

Lemma is_digit_digit d : (d < 10)%N -> is_digit (digit d) = true.
Proof.
  intros Hd. unfold is_digit, digit. rewrite N_ascii_embedding by lia.
  apply andb_true_intro; split; apply N.leb_le; lia.
Qed.

Lemma digit_value_digit d : (d < 10)%N -> digit_value (digit d) = d.
Proof. intros Hd. unfold digit_value, digit. rewrite N_ascii_embedding; lia. Qed.

Lemma show_N_digits n : Forall (fun c => is_digit c = true) (show_N n).
Proof.
  induction n as [n IH] using (well_founded_induction N.lt_wf_0).
  rewrite show_N_unfold. destruct (N.ltb_spec n 10).
  - repeat constructor. by apply is_digit_digit.
  - apply Forall_app; split.
    + apply IH. apply N.div_lt; lia.
    + repeat constructor. apply is_digit_digit, N.mod_lt. lia.
Qed.

Lemma read_N_go_app s c acc :
  is_digit c = true ->
  read_N_go (s ++ [c]) acc = (v ← read_N_go s acc; Some (10 * v + digit_value c)%N).
Proof.
  revert acc. induction s as [|c' s IH]; intros acc Hc; cbn; [by rewrite Hc|].
  destruct (is_digit c'); [apply IH, Hc|done].
Qed.

Lemma show_N_nonempty n : show_N n <> [].
Proof. rewrite show_N_unfold. destruct (n <? 10)%N; [done|]. by destruct (show_N (n / 10)). Qed.

(** Reading a printed number gives the number back. *)
Lemma read_N_show_N n : read_N (show_N n) = Some n.
Proof.
  assert (read_N_go (show_N n) 0 = Some n) as H.
  { induction n as [n IH] using (well_founded_induction N.lt_wf_0).
    rewrite show_N_unfold. destruct (N.ltb_spec n 10).
    - cbn. rewrite is_digit_digit, digit_value_digit by lia. done.
    - rewrite read_N_go_app by (apply is_digit_digit, N.mod_lt; lia).
      rewrite IH by (apply N.div_lt; lia). cbn.
      rewrite digit_value_digit by (apply N.mod_lt; lia).
      f_equal. symmetry. apply N.Div0.div_mod. }
  unfold read_N. destruct (show_N n) eqn:E; [by destruct (show_N_nonempty n)|]. done.
Qed.

Lemma show_N_inj n m : show_N n = show_N m -> n = m.
Proof. intros H. apply (f_equal read_N) in H. rewrite !read_N_show_N in H. congruence. Qed.

(** ** Laws of the writer/exception monad *)

Section WE_laws.
Context {L E : Type}.
  Implicit Types (A B C : Type).

Lemma bind_ret_l {A B} (a : A) (k : A -> WE L E B) : (mret a ≫= k) = k a.
  Proof. cbn. by destruct (k a). Qed.

Lemma bind_ret_r {A} (m : WE L E A) : (m ≫= mret) = m.
  Proof. destruct m as [[e|a] l]; cbn; by rewrite ?app_nil_r. Qed.

Lemma bind_assoc {A B C} (m : WE L E A) (k : A -> WE L E B) (h : B -> WE L E C) :
    ((m ≫= k) ≫= h) = (m ≫= fun a => k a ≫= h).
  Proof.
    destruct m as [[e|a] l]; cbn; [done|].
    destruct (k a) as [[e|b] l']; cbn; [done|].
    destruct (h b) as [r l'']. by rewrite app_assoc.
  Qed.

Lemma bind_throw {A B} (e : E) (k : A -> WE L E B) : (throw e ≫= k) = throw e.
  Proof. done. Qed.

  (** The two projections of a bind. *)
Lemma bind_fst {A B} (m : WE L E A) (k : A -> WE L E B) :
    fst (m ≫= k) = match fst m with inl e => inl e | inr a => fst (k a) end.
  Proof. destruct m as [[e|a] l]; cbn; [done|]. by destruct (k a). Qed.

Lemma bind_snd {A B} (m : WE L E A) (k : A -> WE L E B) :
    snd (m ≫= k) = snd m ++ match fst m with inl _ => [] | inr a => snd (k a) end.
  Proof. destruct m as [[e|a] l]; cbn; [by rewrite app_nil_r|]. by destruct (k a). Qed.

Lemma bind_inr {A B} (m : WE L E A) (k : A -> WE L E B) a l :
    m = (inr a, l) -> (m ≫= k) = (fst (k a), l ++ snd (k a)).
  Proof. intros ->. cbn. by destruct (k a). Qed.

Lemma bind_inl {A B} (m : WE L E A) (k : A -> WE L E B) e l :
    m = (inl e, l) -> (m ≫= k) = (inl e, l).
  Proof. by intros ->. Qed.
Lemma bind_pair_inr {A B} (a : A) (l : list L) (k : A -> WE L E B) :
    ((inr a, l) ≫= k) = (fst (k a), l ++ snd (k a)).
  Proof. cbn. by destruct (k a). Qed.

Lemma tell_bind {B} (x : L) (k : unit -> WE L E B) : (tell x ≫= k) = (fst (k tt), x :: snd (k tt)).
  Proof. cbn. by destruct (k tt). Qed.

Lemma mret_pair {A} (a : A) : (mret a : WE L E A) = (inr a, []).
  Proof. done. Qed.

  (** A property of every line a computation writes: [bind] writes the
      lines of both parts, [tell] one line, [mret] and [throw] none. *)
Lemma Forall_bind (P : L -> Prop) {A B} (m : WE L E A) (k : A -> WE L E B) :
    Forall P (snd m) -> (forall a, Forall P (snd (k a))) -> Forall P (snd (m ≫= k)).
  Proof. intros Hm Hk. rewrite bind_snd. apply Forall_app. split; [done|]. by destruct (fst m). Qed.

Lemma Forall_mret (P : L -> Prop) {A} (a : A) : Forall P (snd (mret a : WE L E A)).
  Proof. constructor. Qed.

Lemma Forall_throw (P : L -> Prop) {A} (e : E) : Forall P (snd (throw e : WE L E A)).
  Proof. constructor. Qed.

Lemma Forall_tell (P : L -> Prop) (x : L) : P x -> Forall P (snd (tell x : WE L E unit)).
  Proof. by repeat constructor. Qed.
End WE_laws.

Create HintDb logs.
#[export] Hint Resolve Forall_bind Forall_mret Forall_throw Forall_tell : logs.

(** ** Lemmas on strings *)

Lemma lit_app s1 s2 : lit (s1 +:+ s2) = lit s1 ++ lit s2.
Proof. unfold lit. induction s1 as [|c s1 IH]; [done|]. exact (f_equal (cons c) IH). Qed.

(** ** Lemmas on options *)

Lemma union_None_l {A} (o : option A) : None ∪ o = o.
Proof. by destruct o. Qed.

Lemma union_None_r {A} (o : option A) : o ∪ None = o.
Proof. by destruct o. Qed.

(** ** Automation *)

Create HintDb js.
Create Rewrite HintDb js_rw.
#[export] Hint Rewrite @bind_ret_l @bind_ret_r @bind_assoc @bind_throw : js_rw.
#[export] Hint Rewrite @union_None_l @union_None_r @union_Some_l : js_rw.
#[export] Hint Resolve show_N_nonempty is_digit_digit : js.

(** Normalise a monadic term: reassociate binds and run returns. *)
Ltac we_simp := repeat (autorewrite with js_rw; cbn [fst snd]).

(** Two different literals are different strings. *)
Ltac lit_neq := unfold lit; cbn; let H := fresh in intro H; discriminate H.

(** Close a decidable goal about closed terms by evaluation. *)
Ltac decide_closed := apply (bool_decide_unpack _); vm_compute; exact I.

(** ** Characters absent from strings *)

Lemma not_elem_of_app_iff {A} (x : A) l1 l2 : x ∉ l1 ++ l2 <-> x ∉ l1 /\ x ∉ l2.
Proof. rewrite elem_of_app. tauto. Qed.

Lemma elem_of_concat {A} (x : A) (ls : list (list A)) : x ∈ concat ls <-> exists l, l ∈ ls /\ x ∈ l.
Proof.
  rewrite list_elem_of_In, in_concat. setoid_rewrite list_elem_of_In. naive_solver.
Qed.

Lemma elem_of_map {A B} (f : A -> B) l y : y ∈ map f l <-> exists x, y = f x /\ x ∈ l.
Proof. rewrite list_elem_of_In, in_map_iff. setoid_rewrite list_elem_of_In. naive_solver. Qed.

Lemma forallb_elem {A} (f : A -> bool) l x : forallb f l = true -> x ∈ l -> f x = true.
Proof. rewrite forallb_forall, list_elem_of_In. auto. Qed.

Lemma show_N_not_digit c n : is_digit c = false -> c ∉ show_N n.
Proof.
  intros Hc Hin. pose proof (show_N_digits n) as Hd. rewrite Forall_forall in Hd.
  rewrite (Hd c Hin) in Hc. discriminate.
Qed.

(** Put list concatenations in right-nested form, with conses outermost. *)
Ltac list_norm :=
  repeat progress (rewrite <- ?app_assoc; rewrite <- ?app_comm_cons; rewrite ?app_nil_l, ?app_nil_r).

Lemma show_Z_nonneg z : (0 <= z)%Z -> show_Z z = show_N (Z.to_N z).
Proof. by destruct z. Qed.

(** [${m}010]: three appended digits make [1000 * m + 10]. *)
Lemma show_N_app_010 m : m <> 0%N -> show_N m ++ lit "010" = show_N (1000 * m + 10).
Proof.
  intros Hm. change (lit "010") with [digit 0; digit 1; digit 0].
  replace (1000 * m + 10)%N with (10 * (10 * (10 * m + 0) + 1) + 0)%N by lia.
  rewrite !show_N_app_digit by lia. by rewrite <- !app_assoc.
Qed.

Lemma show_N_app_100 m : m <> 0%N -> show_N m ++ lit "100" = show_N (1000 * m + 100).
Proof.
  intros Hm. change (lit "100") with [digit 1; digit 0; digit 0].
  replace (1000 * m + 100)%N with (10 * (10 * (10 * m + 1) + 0) + 0)%N by lia.
  rewrite !show_N_app_digit by lia. by rewrite <- !app_assoc.
Qed.

(** The same on a positive integer, as the template [${m}010] prints it. *)
Lemma show_Z_app_010 m : (0 < m)%Z -> show_Z m ++ lit "010" = show_N (Z.to_N (1000 * m + 10)).
Proof. intros Hm. rewrite show_Z_nonneg, show_N_app_010 by lia. f_equal. lia. Qed.

Lemma show_Z_app_100 m : (0 < m)%Z -> show_Z m ++ lit "100" = show_N (Z.to_N (1000 * m + 100)).
Proof. intros Hm. rewrite show_Z_nonneg, show_N_app_100 by lia. f_equal. lia. Qed.
