(* ===== verification/JsValue.v ===== *)
(** * JS values, property access and ordinary objects

    The values the program reads from the ledgers file ([require] of a JSON
    document) and the objects it builds.  An object is its list of own
    properties in creation order.  This is what [[OwnPropertyKeys]] needs: it
    lists the array-index keys first, in ascending numeric order, and then
    the other keys in creation order.  Prototypes are not modelled.  No key
    the program reads ([name], [currency], [plugin], [store], [optionsCommon],
    [optionsLeft], [optionsRight], [rpcUri], [rpcUris], [left_account],
    [right_account]) is a property of [Object.prototype], [Array.prototype]
    or [String.prototype].  The one place a prototype shows is the
    [__proto__] setter, which [[Set]] reaches in [Object.assign]. *)

From S2P Require Import Prelude.

Unset Elimination Schemes.
Inductive jsval : Type :=
| JUndefined
| JNull
| JBool (b : bool)
| JNumber (z : Z)
| JString (s : jstring)
| JArray (xs : list jsval)
| JObject (props : list (jstring * jsval)).
Set Elimination Schemes.

(** The induction principle, with hypotheses for the elements of arrays and
    the values of objects. *)
Definition jsval_ind (P : jsval -> Prop)
  (fu : P JUndefined) (fn : P JNull) (fb : forall b, P (JBool b))
  (fz : forall z, P (JNumber z)) (fs : forall s, P (JString s))
  (fa : forall xs, Forall P xs -> P (JArray xs))
  (fo : forall ps, Forall (fun kv => P kv.2) ps -> P (JObject ps)) :
  forall v, P v :=
  fix F v :=
    match v with
    | JUndefined => fu
    | JNull => fn
    | JBool b => fb b
    | JNumber z => fz z
    | JString s => fs s
    | JArray xs => fa xs ((fix G xs : Forall P xs :=
        match xs with [] => Forall_nil_2 _ | x :: xs' => Forall_cons_2 _ _ _ (F x) (G xs') end) xs)
    | JObject ps => fo ps ((fix G ps : Forall (fun kv => P kv.2) ps :=
        match ps with [] => Forall_nil_2 _ | kv :: ps' => Forall_cons_2 _ _ _ (F kv.2) (G ps') end) ps)
    end.

(** Exceptions the program can raise. *)
Inductive exn : Type :=
| TypeErrorRead (prop : jstring)   (** reading a property of [null]/[undefined] *)
| TypeErrorArg                     (** [path.join] given a non-string argument *)
| ModuleNotFound (path : jstring)  (** [require] of a path that resolves to no file *)
| SyntaxErrorJSON (file : jstring) (** [require] of a [.json] file that is not JSON *)
| FileNotFound (path : jstring).   (** [fs.readFileSync] of a missing file *)

(** A [console.error(n, v)] line, kept as its two arguments. *)
Inductive event : Type := ConsoleError (n : Z) (v : jsval).

Abbreviation js := (WE event exn).

Abbreviation props := (list (jstring * jsval)).

(** ** Conversions *)

Definition truthy (v : jsval) : bool :=
  match v with
  | JUndefined | JNull => false
  | JBool b => b
  | JNumber z => negb (Z.eqb z 0)
  | JString s => negb (bool_decide (s = []))
  | JArray _ | JObject _ => true
  end.

Definition nullish (v : jsval) : bool :=
  match v with JUndefined | JNull => true | _ => false end.

(** [xs.join(sep)] on strings. *)
Definition join (sep : jstring) (xs : list jstring) : jstring :=
  match xs with
  | [] => []
  | x :: xs' => x ++ concat (map (fun y => sep ++ y) xs')
  end.

(** [ToString], as used by a computed key [[k]: v] ([ToPropertyKey]). *)
Fixpoint to_js_string (v : jsval) : jstring :=
  match v with
  | JUndefined => lit "undefined"
  | JNull => lit "null"
  | JBool b => if b then lit "true" else lit "false"
  | JNumber z => show_Z z
  | JString s => s
  | JArray xs =>
      join (lit ",") ((fix go (xs : list jsval) : list jstring :=
        match xs with
        | [] => []
        | x :: xs' => (if nullish x then [] else to_js_string x) :: go xs'
        end) xs)
  | JObject _ => lit "[object Object]"
  end.

(** ** Array indices: canonical decimal strings below [2^32 - 1] *)

Definition array_index (k : jstring) : option N :=
  match read_N k with
  | Some n => if bool_decide (show_N n = k) && (n <? 4294967295)%N then Some n else None
  | None => None
  end.

Definition is_index_key (k : jstring) : bool := bool_decide (is_Some (array_index k)).

(** ** Own properties *)

Fixpoint lookup_prop (k : jstring) (ps : props) : option jsval :=
  match ps with
  | [] => None
  | (k', v) :: ps' => if decide (k = k') then Some v else lookup_prop k ps'
  end.

(** Defining a data property: an existing key keeps its position and gets
    the new value; a new key goes last. *)
Fixpoint set_prop (k : jstring) (v : jsval) (ps : props) : props :=
  match ps with
  | [] => [(k, v)]
  | (k', v') :: ps' => if decide (k = k') then (k, v) :: ps' else (k', v') :: set_prop k v ps'
  end.

Definition index_of_key {A} (kv : jstring * A) : N := default 0%N (array_index kv.1).

Fixpoint insert_by_index {A} (kv : jstring * A) (ps : list (jstring * A)) : list (jstring * A) :=
  match ps with
  | [] => [kv]
  | kv' :: ps' =>
      if (index_of_key kv <=? index_of_key kv')%N then kv :: kv' :: ps'
      else kv' :: insert_by_index kv ps'
  end.

(** A key/value list in [[OwnPropertyKeys]] order: array indices first, in
    ascending order, then the other keys in creation order. *)
Definition own_keys_order {A} (ps : list (jstring * A)) : list (jstring * A) :=
  foldr insert_by_index [] (filter (fun kv => is_index_key kv.1) ps)
  ++ filter (fun kv => ¬ is_index_key kv.1) ps.

(** The own properties in [[OwnPropertyKeys]] order. *)
Definition ordered_props (ps : props) : props := own_keys_order ps.

(** [Object.keys(o)]. *)
Definition object_keys (ps : props) : list jstring := map fst (ordered_props ps).

(** [v[k]]: reading an own property; [null] and [undefined] throw. *)
Definition get (v : jsval) (k : jstring) : js jsval :=
  match v with
  | JUndefined | JNull => throw (TypeErrorRead k)
  | JObject ps => mret (default JUndefined (lookup_prop k ps))
  | JArray xs =>
      mret (if decide (k = lit "length") then JNumber (Z.of_nat (length xs))
            else match array_index k with
                 | Some i => default JUndefined (xs !! N.to_nat i)
                 | None => JUndefined
                 end)
  | JString s =>
      mret (if decide (k = lit "length") then JNumber (Z.of_nat (length s))
            else match array_index k with
                 | Some i => default JUndefined (JString ∘ (fun c => [c]) <$> s !! N.to_nat i)
                 | None => JUndefined
                 end)
  | JBool _ | JNumber _ => mret JUndefined
  end.

(** The value [get] reads when it does not throw. *)
Definition read (v : jsval) (k : jstring) : jsval :=
  match fst (get v k) with inr x => x | inl _ => JUndefined end.

(** The own enumerable properties that [Object.assign] copies from a
    source: [null], [undefined], booleans and numbers have none. *)
Definition own_enum_props (v : jsval) : props :=
  match v with
  | JObject ps => ordered_props ps
  | JArray xs => imap (fun i x => (show_N (N.of_nat i), x)) xs
  | JString s => imap (fun i c => (show_N (N.of_nat i), JString [c])) s
  | _ => []
  end.

(** [[Set]] on an ordinary object whose prototype is [Object.prototype]:
    the key [__proto__], when it is not an own property, reaches the
    inherited [__proto__] accessor and creates no own property. *)
Definition put (k : jstring) (v : jsval) (ps : props) : props :=
  if bool_decide (k = lit "__proto__") && negb (bool_decide (is_Some (lookup_prop k ps)))
  then ps else set_prop k v ps.

(** [Object.assign(target, ...sources)]. *)
Definition object_assign (target : props) (sources : list jsval) : props :=
  foldl (fun t src => foldl (fun t kv => put kv.1 kv.2 t) t (own_enum_props src)) target sources.

(** What [Object.assign] copies from a source for a key: its last
    enumerable own property with that key. *)
Definition own_lookup (k : jstring) (src : jsval) : option jsval :=
  lookup_prop k (reverse (own_enum_props src)).

(** Every property of a list has a key satisfying [Pk] and a value
    satisfying [Pv]. *)
Definition props_all (Pk : jstring -> bool) (Pv : jsval -> bool) (ps : props) : bool :=
  forallb (fun kv => Pk kv.1 && Pv kv.2) ps.

(** ** Lemmas on own properties *)

Lemma lookup_set_prop k k' v ps :
  lookup_prop k' (set_prop k v ps) = if decide (k' = k) then Some v else lookup_prop k' ps.
Proof.
  induction ps as [|[k0 v0] ps IH]; cbn; [done|].
  repeat case_decide; subst; cbn; rewrite ?decide_True, ?decide_False by done; congruence.
Qed.

Lemma keys_set_prop k v ps :
  map fst (set_prop k v ps) = if decide (k ∈ map fst ps) then map fst ps else map fst ps ++ [k].
Proof.
  induction ps as [|[k0 v0] ps IH]; cbn; [done|].
  destruct (decide (k = k0)) as [->|Hne]; cbn.
  - rewrite decide_True by set_solver. done.
  - rewrite IH. destruct (decide (k ∈ map fst ps));
      [rewrite decide_True by set_solver | rewrite decide_False by set_solver]; done.
Qed.

Lemma set_prop_fresh k v ps : k ∉ map fst ps -> set_prop k v ps = ps ++ [(k, v)].
Proof.
  induction ps as [|[k0 v0] ps IH]; intros Hk; [done|]. cbn.
  rewrite decide_False by set_solver. rewrite IH by set_solver. done.
Qed.

Lemma set_prop_last k v v' ps : k ∉ map fst ps -> set_prop k v' (ps ++ [(k, v)]) = ps ++ [(k, v')].
Proof.
  induction ps as [|[k0 v0] ps IH]; intros Hk; cbn; [by rewrite decide_True|].
  rewrite decide_False by set_solver. rewrite IH by set_solver. done.
Qed.

Lemma NoDup_set_prop k v ps : NoDup (map fst ps) -> NoDup (map fst (set_prop k v ps)).
Proof.
  intros Hnd. rewrite keys_set_prop. case_decide; [done|].
  apply NoDup_app. split_and!; [done| |apply NoDup_singleton]. set_solver.
Qed.

(** With distinct keys, a lookup finds the only pair with that key. *)
Lemma lookup_prop_Some k v ps :
  NoDup (map fst ps) -> lookup_prop k ps = Some v <-> (k, v) ∈ ps.
Proof.
  induction ps as [|[k0 v0] ps IH]; cbn; intros Hnd; [split; [done|set_solver]|].
  apply NoDup_cons in Hnd as [Hk0 Hnd]. rewrite elem_of_cons.
  case_decide; subst; split.
  - intros [= ->]. by left.
  - intros [[= ->]|Hin]; [done|]. destruct Hk0. apply list_elem_of_fmap. by exists (k0, v).
  - intros Hl. right. by apply IH.
  - intros [[= -> ->]|Hin]; [done|]. by apply IH.
Qed.

(** A found property is one of the list's pairs. *)
Lemma lookup_prop_elem k v ps : lookup_prop k ps = Some v -> (k, v) ∈ ps.
Proof.
  induction ps as [|[k0 v0] ps IH]; cbn; [done|].
  case_decide; [intros [= <-]; subst; by left|]. intros ?. right. by apply IH.
Qed.

Lemma lookup_prop_None k ps : lookup_prop k ps = None <-> k ∉ map fst ps.
Proof.
  induction ps as [|[k0 v0] ps IH]; cbn; [set_solver|].
  case_decide; subst; [set_solver|]. rewrite IH. set_solver.
Qed.

Lemma lookup_prop_perm k ps qs :
  NoDup (map fst ps) -> ps ≡ₚ qs -> lookup_prop k ps = lookup_prop k qs.
Proof.
  intros Hnd Hp. assert (NoDup (map fst qs)) by (by rewrite <- Hp).
  destruct (lookup_prop k ps) as [v|] eqn:E.
  - symmetry. apply lookup_prop_Some; [done|]. rewrite <- Hp. by apply lookup_prop_Some.
  - symmetry. apply lookup_prop_None. rewrite <- Hp. by apply lookup_prop_None.
Qed.

Lemma insert_by_index_perm {A} (kv : jstring * A) ps : insert_by_index kv ps ≡ₚ kv :: ps.
Proof.
  induction ps as [|kv' ps IH]; cbn; [done|].
  destruct (index_of_key kv <=? index_of_key kv')%N; [done|]. rewrite IH. constructor.
Qed.

Lemma own_keys_order_perm {A} (ps : list (jstring * A)) : own_keys_order ps ≡ₚ ps.
Proof.
  unfold own_keys_order.
  etransitivity; [|apply (filter_app_complement (fun kv => is_index_key kv.1) ps)].
  apply Permutation_app_tail. induction (filter _ ps) as [|kv l IH]; cbn; [done|].
  by rewrite insert_by_index_perm, IH.
Qed.

Lemma elem_of_own_keys_order {A} kv (ps : list (jstring * A)) : kv ∈ own_keys_order ps <-> kv ∈ ps.
Proof. by rewrite own_keys_order_perm. Qed.

Lemma ordered_props_perm ps : ordered_props ps ≡ₚ ps.
Proof. apply own_keys_order_perm. Qed.

Lemma filter_index_map {A B} (f : A -> B) (ps : list (jstring * A)) :
  filter (fun kv => is_index_key kv.1) (prod_map id f <$> ps)
    = prod_map id f <$> filter (fun kv => is_index_key kv.1) ps /\
  filter (fun kv => ¬ is_index_key kv.1) (prod_map id f <$> ps)
    = prod_map id f <$> filter (fun kv => ¬ is_index_key kv.1) ps.
Proof.
  induction ps as [|[k v] ps [IH1 IH2]]; [done|]. rewrite fmap_cons, !filter_cons. cbn.
  destruct (is_index_key k); cbn; rewrite ?decide_True, ?decide_False by tauto; cbn; by rewrite ?IH1, ?IH2.
Qed.

Lemma insert_by_index_map {A B} (f : A -> B) kv (ps : list (jstring * A)) :
  insert_by_index (prod_map id f kv) (prod_map id f <$> ps) = prod_map id f <$> insert_by_index kv ps.
Proof.
  induction ps as [|kv' ps IH]; [done|]. cbn.
  unfold index_of_key. cbn. destruct (_ <=? _)%N; [done|]. by rewrite IH.
Qed.

(** The order depends on the keys only. *)
Lemma own_keys_order_map {A B} (f : A -> B) (ps : list (jstring * A)) :
  own_keys_order (prod_map id f <$> ps) = prod_map id f <$> own_keys_order ps.
Proof.
  unfold own_keys_order. destruct (filter_index_map f ps) as [-> ->]. rewrite fmap_app. f_equal. f_equal.
  induction (filter _ ps) as [|kv l IH]; [done|]. cbn. by rewrite IH, insert_by_index_map.
Qed.

(** Reordering by [[OwnPropertyKeys]] does not change what a key reads. *)
Lemma lookup_ordered_props k ps :
  NoDup (map fst ps) -> lookup_prop k (ordered_props ps) = lookup_prop k ps.
Proof. intros Hnd. symmetry. apply lookup_prop_perm; [done|]. by rewrite ordered_props_perm. Qed.

(** Objects whose keys all are not array indices keep their creation order. *)
Lemma own_keys_order_no_index {A} (ps : list (jstring * A)) :
  Forall (fun kv => is_index_key kv.1 = false) ps -> own_keys_order ps = ps.
Proof.
  intros Hf. unfold own_keys_order.
  assert (filter (fun kv => is_index_key kv.1) ps = [] /\
          filter (fun kv => ¬ is_index_key kv.1) ps = ps) as [-> ->]; [|done].
  induction Hf as [|[k v] ps Hk Hf [IH1 IH2]]; [done|]. cbn in Hk.
  rewrite !filter_cons, decide_False, decide_True, IH1, IH2 by (cbn; rewrite Hk; cbn; tauto).
  done.
Qed.

Lemma ordered_props_no_index ps :
  Forall (fun kv => is_index_key kv.1 = false) ps -> ordered_props ps = ps.
Proof. apply own_keys_order_no_index. Qed.

(** ** [[Set]] and [Object.assign] *)

Lemma put_not_proto k v ps : k <> lit "__proto__" -> put k v ps = set_prop k v ps.
Proof. intros Hk. unfold put. by rewrite bool_decide_false. Qed.

Lemma lookup_put k k' v ps :
  k' <> lit "__proto__" ->
  lookup_prop k' (put k v ps) = if decide (k' = k) then Some v else lookup_prop k' ps.
Proof.
  intros Hk'. unfold put. destruct (bool_decide _ && _) eqn:E; [|apply lookup_set_prop].
  apply andb_prop in E as [E _]. apply bool_decide_eq_true in E. subst.
  by rewrite decide_False.
Qed.

(** Every operation on objects keeps the keys distinct. *)
Lemma NoDup_put k v ps : NoDup (map fst ps) -> NoDup (map fst (put k v ps)).
Proof. intros Hnd. unfold put. destruct (_ && _); [done|]. by apply NoDup_set_prop. Qed.

Lemma NoDup_object_assign t srcs :
  NoDup (map fst t) -> NoDup (map fst (object_assign t srcs)).
Proof.
  unfold object_assign. revert t. induction srcs as [|src srcs IH]; intros t Ht; cbn; [done|].
  apply IH. generalize (own_enum_props src). clear IH.
  intros l. revert t Ht. induction l; intros t Ht; cbn; [done|]. by apply IHl, NoDup_put.
Qed.

Lemma lookup_prop_snoc k r k0 v0 o :
  lookup_prop k r ∪ (if decide (k = k0) then Some v0 else o) = lookup_prop k (r ++ [(k0, v0)]) ∪ o.
Proof.
  induction r as [|[k1 v1] r IH]; cbn.
  - rewrite union_None_l. case_decide; by rewrite ?union_Some_l, ?union_None_l.
  - destruct (decide (k = k1)); [by rewrite !union_Some_l|apply IH].
Qed.

Lemma lookup_foldl_put k t l :
  k <> lit "__proto__" ->
  lookup_prop k (foldl (fun t kv => put kv.1 kv.2 t) t l) = lookup_prop k (reverse l) ∪ lookup_prop k t.
Proof.
  intros Hk. revert t. induction l as [|[k0 v0] l IH]; intros t; [cbn; by destruct (lookup_prop k t)|].
  cbn [foldl fst snd]. rewrite IH, reverse_cons, lookup_put by done. apply lookup_prop_snoc.
Qed.

(** Object.assign: a later source wins over an earlier one and over the target. *)
Lemma lookup_object_assign k t srcs :
  k <> lit "__proto__" ->
  lookup_prop k (object_assign t srcs) = foldl (fun acc src => own_lookup k src ∪ acc) (lookup_prop k t) srcs.
Proof.
  intros Hk. unfold object_assign. revert t. induction srcs as [|src srcs IH]; intros t; cbn; [done|].
  rewrite IH. f_equal. by rewrite lookup_foldl_put.
Qed.

Lemma own_lookup_object k ps : NoDup (map fst ps) -> own_lookup k (JObject ps) = lookup_prop k ps.
Proof.
  intros Hnd. unfold own_lookup, own_enum_props. symmetry. apply lookup_prop_perm; [done|].
  by rewrite reverse_Permutation, ordered_props_perm.
Qed.

Lemma own_lookup_nullish k v : nullish v = true -> own_lookup k v = None.
Proof. by destruct v. Qed.

#[export] Hint Resolve NoDup_put NoDup_set_prop NoDup_object_assign : js.

(** ** Property reads *)

Lemma get_read v k : nullish v = false -> get v k = mret (read v k).
Proof. unfold read. by destruct v. Qed.

Lemma get_throw v k : nullish v = true -> get v k = throw (TypeErrorRead k).
Proof. by destruct v. Qed.

(** ** [join] *)

Lemma join1 (sep a : jstring) : join sep [a] = a.
Proof. cbn. by rewrite app_nil_r. Qed.

Lemma join_cons2 (sep a b : jstring) l : join sep (a :: b :: l) = a ++ sep ++ join sep (b :: l).
Proof. cbn. by rewrite <- app_assoc. Qed.

(** ** Property lists whose keys and values satisfy predicates

    What [set_prop], [[Set]], [Object.assign] and the enumeration of own
    properties keep, for any pair of predicates. *)

Section PropsAll.
Variables (Pk : jstring -> bool) (Pv : jsval -> bool).

Lemma props_all_spec ps :
  props_all Pk Pv ps = true <-> forall kv, kv ∈ ps -> Pk kv.1 = true /\ Pv kv.2 = true.
Proof.
  unfold props_all. rewrite forallb_forall. setoid_rewrite <- list_elem_of_In.
  by setoid_rewrite andb_true_iff.
Qed.

Lemma props_all_perm ps ps' : ps ≡ₚ ps' -> props_all Pk Pv ps = props_all Pk Pv ps'.
Proof. intros Hp. apply Bool.eq_iff_eq_true. rewrite !props_all_spec. by setoid_rewrite Hp. Qed.

Lemma props_all_lookup ps k v : props_all Pk Pv ps = true -> lookup_prop k ps = Some v -> Pv v = true.
Proof. rewrite props_all_spec. intros Hps Hin%lookup_prop_elem. by apply (Hps (k, v)). Qed.

Lemma props_all_set_prop k v ps :
  Pk k = true -> Pv v = true -> props_all Pk Pv ps = true -> props_all Pk Pv (set_prop k v ps) = true.
Proof.
  intros Hk Hv. unfold props_all.
  induction ps as [|[k' v'] ps IH]; cbn [set_prop forallb fst snd]; intros Hps; [by rewrite Hk, Hv|].
  apply andb_prop in Hps as [H1 H2]. case_decide; cbn [forallb fst snd]; [by rewrite Hk, Hv, H2|].
  by rewrite H1, IH.
Qed.

Lemma props_all_put k v ps :
  Pk k = true -> Pv v = true -> props_all Pk Pv ps = true -> props_all Pk Pv (put k v ps) = true.
Proof. intros. unfold put. case_match; [done|]. by apply props_all_set_prop. Qed.

Lemma props_all_object_assign t srcs :
  props_all Pk Pv t = true -> Forall (fun s => props_all Pk Pv (own_enum_props s) = true) srcs ->
  props_all Pk Pv (object_assign t srcs) = true.
Proof.
  unfold object_assign. intros Ht Hs. revert t Ht.
  induction Hs as [|s srcs Hs _ IH]; intros t Ht; cbn; [done|]. apply IH.
  revert t Ht. induction (own_enum_props s) as [|[k v] kvs IHk]; intros t Ht; cbn; [done|].
  apply andb_prop in Hs as [[Hk Hv]%andb_prop Hkvs]. apply IHk; [done|]. by apply props_all_put.
Qed.

Lemma props_all_imap {A} (f : nat -> A -> jstring * jsval) (l : list A) :
  (forall i x, x ∈ l -> Pk (f i x).1 && Pv (f i x).2 = true) -> props_all Pk Pv (imap f l) = true.
Proof.
  revert f. induction l as [|x l IH]; intros f Hf; [done|]. rewrite imap_cons.
  unfold props_all in *. cbn [forallb]. rewrite Hf by by left. apply IH.
  intros i y Hy. apply Hf. by right.
Qed.
End PropsAll.
