(* ===== verification/Json.v ===== *)
(** * [JSON.stringify]

    [JSON.stringify(value)] without a replacer or indentation, as the
    program calls it at source lines 95 and 108 (ECMA-262
    SerializeJSONProperty, QuoteJSONString, SerializeJSONObject and
    SerializeJSONArray).  [undefined] serializes to nothing: an object
    member with an [undefined] value is left out, and an array element
    that is [undefined] prints as [null].  Object members follow
    [[OwnPropertyKeys]] order ([JsValue.own_keys_order]).  Numbers are
    integers here, printed by [ToString]. *)

From S2P Require Import Prelude JsValue.

(** The lowercase hexadecimal digit of [n < 16]. *)
Definition hex_digit (n : N) : ascii :=
  if (n <? 10)%N then digit n else ascii_of_N (87 + n).

(** One code unit of QuoteJSONString. *)
Definition escape_char (c : ascii) : jstring :=
  let n := N_of_ascii c in
  if (n =? 8)%N then [bslash; "b"%char]
  else if (n =? 9)%N then [bslash; "t"%char]
  else if (n =? 10)%N then [bslash; "n"%char]
  else if (n =? 12)%N then [bslash; "f"%char]
  else if (n =? 13)%N then [bslash; "r"%char]
  else if (n =? 34)%N then [bslash; dq]
  else if (n =? 92)%N then [bslash; bslash]
  else if (n <? 32)%N then
    [bslash; "u"%char; "0"%char; "0"%char; hex_digit (n / 16); hex_digit (n mod 16)]
  else [c].

(** QuoteJSONString. *)
Definition quote (s : jstring) : jstring := dq :: concat (map escape_char s) ++ [dq].

(** One member of SerializeJSONObject, when its value serializes. *)
Definition member (kv : jstring * option jstring) : option jstring :=
  match kv.2 with
  | Some s => Some (quote kv.1 ++ [":"%char] ++ s)
  | None => None
  end.

(** SerializeJSONProperty: [None] is [undefined]. *)
Fixpoint serialize (v : jsval) : option jstring :=
  match v with
  | JUndefined => None
  | JNull => Some (lit "null")
  | JBool b => Some (if b then lit "true" else lit "false")
  | JNumber z => Some (show_Z z)
  | JString s => Some (quote s)
  | JArray xs =>
      Some (["["%char] ++ join [","%char] (map (fun x => default (lit "null") (serialize x)) xs)
            ++ ["]"%char])
  | JObject ps =>
      Some (["{"%char] ++ join [","%char]
              (omap member (own_keys_order (map (fun kv => (kv.1, serialize kv.2)) ps)))
            ++ ["}"%char])
  end.

(** [JSON.stringify(value)]. *)
Definition stringify (v : jsval) : option jstring := serialize v.

(** Every string and key of a value avoids the character [c]. *)
Fixpoint strings_avoid (c : ascii) (v : jsval) : bool :=
  match v with
  | JString s => bool_decide (c ∉ s)
  | JArray xs => forallb (strings_avoid c) xs
  | JObject ps => forallb (fun kv => bool_decide (c ∉ kv.1) && strings_avoid c kv.2) ps
  | _ => true
  end.

(** [xs.join(sep)] avoids a character when the separator and every part do. *)
Lemma join_avoid c sep xs : c ∉ sep -> (forall x, x ∈ xs -> c ∉ x) -> c ∉ join sep xs.
Proof.
  intros Hs Hx. destruct xs as [|x xs]; [set_solver|]. cbn.
  rewrite not_elem_of_app_iff, elem_of_concat. split; [set_solver|].
  intros (l & Hl & Hin). apply elem_of_map in Hl as (y & -> & Hy).
  apply elem_of_app in Hin as [?|?]; [done|]. by apply (Hx y); [set_solver|].
Qed.

(** QuoteJSONString escapes no single quote and introduces none: a
    single quote is in the quoted string exactly when it is in the
    string.  The check runs over all 256 characters. *)
Lemma escape_char_sq c : bool_decide (sq ∈ escape_char c) = bool_decide (c = sq).
Proof. destruct c as [[] [] [] [] [] [] [] []]; vm_compute; reflexivity. Qed.

Lemma quote_sq s : sq ∈ quote s <-> sq ∈ s.
Proof.
  unfold quote. rewrite elem_of_cons, elem_of_app, elem_of_concat, list_elem_of_singleton.
  assert (sq <> dq) by (unfold sq, dq; congruence).
  split.
  - intros [?|[(l & Hl & Hin)|?]]; try done.
    apply elem_of_map in Hl as (c & -> & Hc).
    apply (bool_decide_eq_true_2 (sq ∈ escape_char c)) in Hin.
    rewrite escape_char_sq in Hin. apply bool_decide_eq_true in Hin. by subst.
  - intros Hin. right; left. exists (escape_char sq). split; [apply elem_of_map; by eexists|].
    decide_closed.
Qed.

Lemma show_Z_no_sq z : sq ∉ show_Z z.
Proof.
  assert (forall n, sq ∉ show_N n) by (intros; apply show_N_not_digit; decide_closed).
  destruct z as [|p|p]; [exact (H 0%N)|exact (H (Npos p))|]. cbn [show_Z].
  rewrite elem_of_cons. intros [?|?]; [discriminate|by eapply H].
Qed.

Lemma serialize_array xs :
  serialize (JArray xs) =
  Some (["["%char] ++ join [","%char] (map (fun x => default (lit "null") (serialize x)) xs) ++ ["]"%char]).
Proof. done. Qed.

Lemma serialize_object ps :
  serialize (JObject ps) =
  Some (["{"%char] ++ join [","%char]
          (omap member (own_keys_order (map (fun kv => (kv.1, serialize kv.2)) ps))) ++ ["}"%char]).
Proof. done. Qed.

(** Safety of the YAML embedding: a value whose strings and keys hold no
    single quote serializes to text without one. *)
Lemma serialize_no_sq v s : strings_avoid sq v = true -> serialize v = Some s -> sq ∉ s.
Proof.
  revert s. induction v as [| |b|z|str|xs IH|ps IH]; intros s Hv Hs; cbn [strings_avoid] in Hv.
  - done.
  - injection Hs as <-. decide_closed.
  - injection Hs as <-. destruct b; decide_closed.
  - injection Hs as <-. apply show_Z_no_sq.
  - injection Hs as <-. rewrite quote_sq. by apply bool_decide_eq_true in Hv.
  - rewrite serialize_array in Hs. injection Hs as <-.
    rewrite ?not_elem_of_cons, ?not_elem_of_app_iff. split_and!; [decide_closed| |decide_closed..].
    apply join_avoid; [decide_closed|]. intros part (x & -> & Hx)%elem_of_map.
    rewrite Forall_forall in IH. destruct (serialize x) as [t|] eqn:Ht; cbn; [|decide_closed].
    apply (IH x Hx); [apply (forallb_elem _ _ _ Hv Hx)|done].
  - rewrite serialize_object in Hs. injection Hs as <-.
    rewrite ?not_elem_of_cons, ?not_elem_of_app_iff. split_and!; [decide_closed| |decide_closed..].
    apply join_avoid; [decide_closed|]. intros part (kv & Hkv & Hm)%list_elem_of_omap.
    apply elem_of_own_keys_order, elem_of_map in Hkv as ([k x] & -> & Hin).
    unfold member in Hm. cbn [fst snd] in Hm. destruct (serialize x) as [t|] eqn:Ht; [|done].
    assert (part = quote k ++ [":"%char] ++ t) as -> by congruence.
    pose proof (forallb_elem _ _ _ Hv Hin) as Hkx. cbn in Hkx.
    apply andb_prop in Hkx as [Hk Hx]. apply bool_decide_eq_true in Hk.
    rewrite Forall_forall in IH.
    rewrite not_elem_of_app_iff, quote_sq, not_elem_of_app_iff. split_and!; [done|decide_closed|].
    by apply (IH (k, x) Hin).
Qed.

(** [JSON.stringify] of an object or array always returns a string. *)
Lemma serialize_object_Some ps : is_Some (serialize (JObject ps)).
Proof. by eexists. Qed.
