(* ===== verification/JsonParse.v ===== *)
(** * Reading the JSON texts back: [JSON.parse]

    Node's [require] reads the ledgers file with [JSON.parse], and the
    connector that runs in each service reads [CONNECTOR_LEDGERS] and
    [CONNECTOR_ROUTES] with it.  This file models [JSON.parse]
    (ECMA-262 JSON.parse on the JSON grammar of RFC 8259).  The model has white space between tokens,
    the literals, strings with all escapes, integers and nested arrays and
    objects.  It has no fractions or exponents (JS numbers are modelled as
    integers) and no [\u] escape past 255 (characters are 8-bit); on such a
    text [json_parse] gives [None], and [JsonValid] tells it apart from a
    text that is not JSON.  An object is
    built by CreateDataProperty in text order, so a repeated key keeps its
    first position and its last value.  The parser is not code of the
    program: it models the runtime's [JSON.parse].  The main theorem is
    the round trip: parsing [JSON.stringify(v)] gives [v] back, up to what
    JSON cannot hold ([undefined] members and elements), with its members
    in [[OwnPropertyKeys]] order. *)

From S2P Require Import Prelude JsValue Json.

Local Open Scope N_scope.

(** ** The parser *)

(** The value of a hexadecimal digit. *)
Definition hex_value (c : ascii) : option N :=
  let n := N_of_ascii c in
  if (48 <=? n) && (n <=? 57) then Some (n - 48)
  else if (97 <=? n) && (n <=? 102) then Some (n - 87)
  else if (65 <=? n) && (n <=? 70) then Some (n - 55)
  else None.

(** The character of a one-letter escape: [b t n f r], the quote, the backslash or the slash. *)
Definition unescape (e : ascii) : option ascii :=
  let n := N_of_ascii e in
  if n =? 98 then Some (ascii_of_N 8)
  else if n =? 116 then Some (ascii_of_N 9)
  else if n =? 110 then Some (ascii_of_N 10)
  else if n =? 102 then Some (ascii_of_N 12)
  else if n =? 114 then Some (ascii_of_N 13)
  else if n =? 34 then Some dq
  else if n =? 92 then Some bslash
  else if n =? 47 then Some "/"%char
  else None.

(** A [\uXXXX] escape; code units past 255 are outside the 8-bit model. *)
Definition unicode_escape (h1 h2 h3 h4 : ascii) : option ascii :=
  match hex_value h1, hex_value h2, hex_value h3, hex_value h4 with
  | Some a, Some b, Some c, Some d =>
      let n := 4096 * a + 256 * b + 16 * c + d in
      if n <? 256 then Some (ascii_of_N n) else None
  | _, _, _, _ => None
  end.

(** The characters of a string literal after its opening quote, up to
    and without the closing quote; the rest of the text after it. *)
Fixpoint parse_string (s : jstring) : option (jstring * jstring) :=
  match s with
  | [] => None
  | c :: r =>
      if decide (c = dq) then Some ([], r)
      else if decide (c = bslash) then
        match r with
        | e :: r' =>
            if decide (e = "u"%char) then
              match r' with
              | h1 :: h2 :: h3 :: h4 :: r'' =>
                  match unicode_escape h1 h2 h3 h4 with
                  | Some c' => x ← parse_string r''; Some (c' :: x.1, x.2)
                  | None => None
                  end
              | _ => None
              end
            else
              match unescape e with
              | Some c' => x ← parse_string r'; Some (c' :: x.1, x.2)
              | None => None
              end
        | [] => None
        end
      else if (N_of_ascii c <? 32) then None
      else x ← parse_string r; Some (c :: x.1, x.2)
  end.

(** The longest run of digits, read into [acc]. *)
Fixpoint digits_go (s : jstring) (acc : N) : N * jstring :=
  match s with
  | c :: r => if is_digit c then digits_go r (10 * acc + digit_value c) else (acc, s)
  | [] => (acc, [])
  end.

(** A natural number: [0], or a non-zero digit followed by digits. *)
Definition parse_nat (s : jstring) : option (N * jstring) :=
  match s with
  | c :: r =>
      if is_digit c then
        if digit_value c =? 0 then Some (0, r) else Some (digits_go r (digit_value c))
      else None
  | [] => None
  end.

(** The text [lit w] at the front of [s]: what follows it. *)
Fixpoint expect (w s : jstring) : option jstring :=
  match w, s with
  | [], _ => Some s
  | c :: w', c' :: s' => if decide (c = c') then expect w' s' else None
  | _ :: _, [] => None
  end.

(** JSON white space (RFC 8259 [ws]): space, tab, line feed and carriage
    return. *)
Definition is_ws (c : ascii) : bool := bool_decide (N_of_ascii c ∈ [32; 9; 10; 13]).

Fixpoint skip_ws (s : jstring) : jstring :=
  match s with
  | c :: r => if is_ws c then skip_ws r else s
  | [] => []
  end.

(** The object that CreateDataProperty builds from members in text order. *)
Definition build_object (ms : props) : props := foldl (fun o kv => set_prop kv.1 kv.2 o) [] ms.

(** A value, the elements of an array after its [[], and the members of an
    object after its [{].  The first character decides the kind of value;
    the sets of first characters are disjoint.  The fuel bounds the nesting
    and the number of elements; the length of the text is always enough. *)
Fixpoint parse_value (fuel : nat) (s : jstring) : option (jsval * jstring) :=
  match fuel with
  | O => None
  | S f =>
      match skip_ws s with
      | [] => None
      | c :: r =>
          if is_digit c then x ← parse_nat (c :: r); Some (JNumber (Z.of_N x.1), x.2)
          else if decide (c = "-"%char) then x ← parse_nat r; Some (JNumber (- Z.of_N x.1)%Z, x.2)
          else if decide (c = "n"%char) then r' ← expect (lit "ull") r; Some (JNull, r')
          else if decide (c = "t"%char) then r' ← expect (lit "rue") r; Some (JBool true, r')
          else if decide (c = "f"%char) then r' ← expect (lit "alse") r; Some (JBool false, r')
          else if decide (c = dq) then x ← parse_string r; Some (JString x.1, x.2)
          else if decide (c = "["%char) then
            match skip_ws r with
            | c' :: r' => if decide (c' = "]"%char) then Some (JArray [], r')
                         else x ← parse_elems f r; Some (JArray x.1, x.2)
            | [] => None
            end
          else if decide (c = "{"%char) then
            match skip_ws r with
            | c' :: r' => if decide (c' = "}"%char) then Some (JObject [], r')
                         else x ← parse_members f r; Some (JObject (build_object x.1), x.2)
            | [] => None
            end
          else None
      end
  end
with parse_elems (fuel : nat) (s : jstring) : option (list jsval * jstring) :=
  match fuel with
  | O => None
  | S f =>
      x ← parse_value f s;
      match skip_ws x.2 with
      | c :: r =>
          if decide (c = "]"%char) then Some ([x.1], r)
          else if decide (c = ","%char) then y ← parse_elems f r; Some (x.1 :: y.1, y.2)
          else None
      | [] => None
      end
  end
with parse_members (fuel : nat) (s : jstring) : option (props * jstring) :=
  match fuel with
  | O => None
  | S f =>
      match skip_ws s with
      | c :: r =>
          if decide (c = dq) then
            k ← parse_string r;
            match skip_ws k.2 with
            | col :: r1 =>
                if decide (col = ":"%char) then
                  x ← parse_value f r1;
                  match skip_ws x.2 with
                  | c' :: r2 =>
                      if decide (c' = "}"%char) then Some ([(k.1, x.1)], r2)
                      else if decide (c' = ","%char) then
                        y ← parse_members f r2; Some ((k.1, x.1) :: y.1, y.2)
                      else None
                  | [] => None
                  end
                else None
            | [] => None
            end
          else None
      | [] => None
      end
  end.

(** [JSON.parse(text)]: one value and nothing but white space after it. *)
Definition json_parse (s : jstring) : option jsval :=
  match parse_value (S (length s)) s with
  | Some (v, rest) => if decide (skip_ws rest = []) then Some v else None
  | None => None
  end.

(** ** What survives a round trip *)

(** The value [JSON.parse(JSON.stringify(v))] gives back: [undefined]
    members are left out, [undefined] elements become [null], and members
    come in [[OwnPropertyKeys]] order. *)
Fixpoint json_norm (v : jsval) : jsval :=
  match v with
  | JArray xs => JArray (map (fun x => match x with JUndefined => JNull | _ => json_norm x end) xs)
  | JObject ps =>
      JObject (omap (fun kv => match kv.2 with Some x => Some (kv.1, x) | None => None end)
                 (own_keys_order (map (fun kv => (kv.1, match kv.2 with
                                                        | JUndefined => None
                                                        | _ => Some (json_norm kv.2)
                                                        end)) ps)))
  | _ => v
  end.

(** Every object of a value has distinct keys, as every object parsed from
    JSON or built by the program has. *)
Fixpoint keys_unique (v : jsval) : bool :=
  match v with
  | JArray xs => forallb keys_unique xs
  | JObject ps => bool_decide (NoDup (map fst ps)) && forallb (fun kv => keys_unique kv.2) ps
  | _ => true
  end.

(** A text that may follow a number: it does not go on with a digit. *)
Definition rest_ok (rest : jstring) : bool :=
  match rest with [] => true | c :: _ => negb (is_digit c) end.

(** ** Literals, strings and numbers *)

Lemma skip_ws_cons c r : is_ws c = false -> skip_ws (c :: r) = c :: r.
Proof. intros Hc. cbn. by rewrite Hc. Qed.

Lemma digit_not_ws c : is_digit c = true -> is_ws c = false.
Proof.
  unfold is_digit, is_ws. intros [?%N.leb_le ?%N.leb_le]%andb_prop.
  apply bool_decide_eq_false_2. intros Hin.
  repeat (apply elem_of_cons in Hin as [Hin|Hin]; [lia|]). by apply elem_of_nil in Hin.
Qed.

(** Skip the white space the parser looks for before a character of the
    JSON text [JSON.stringify] writes. *)
Ltac ws_simp := rewrite ?skip_ws_cons by (done || by apply digit_not_ws).

Lemma expect_app w rest : expect w (w ++ rest) = Some rest.
Proof. induction w as [|c w IH]; cbn; [done|]. by rewrite decide_True. Qed.

(** Each escape [JSON.stringify] writes reads back as its character.  The
    check runs over all 256 characters. *)
Lemma parse_string_escape c r :
  parse_string (escape_char c ++ r) = (x ← parse_string r; Some (c :: x.1, x.2)).
Proof. destruct c as [[] [] [] [] [] [] [] []]; reflexivity. Qed.

Lemma parse_string_quote s rest : parse_string (concat (map escape_char s) ++ dq :: rest) = Some (s, rest).
Proof.
  induction s as [|c s IH]; [reflexivity|]. cbn [map concat].
  by rewrite <- app_assoc, parse_string_escape, IH.
Qed.

Lemma digits_go_app s acc m rest :
  Forall (fun c => is_digit c = true) s -> rest_ok rest = true ->
  read_N_go s acc = Some m -> digits_go (s ++ rest) acc = (m, rest).
Proof.
  intros Hs Hr. revert acc. induction Hs as [|c s Hc _ IH]; intros acc Hm; cbn in *.
  - injection Hm as <-. destruct rest as [|c rest]; [done|]. cbn in *.
    by destruct (is_digit c).
  - rewrite Hc in Hm |- *. by apply IH.
Qed.

(** The first digit of a non-zero number is not [0]. *)
Lemma show_N_head n : n <> 0 -> exists d r, show_N n = digit d :: r /\ 0 < d < 10.
Proof.
  induction n as [n IH] using (well_founded_induction N.lt_wf_0). intros Hn.
  rewrite show_N_unfold. destruct (N.ltb_spec n 10); [exists n, []; split; [done|lia]|].
  destruct (IH (n / 10)) as (d & r & -> & Hd); [apply N.div_lt; lia|intros ?%N.div_small_iff; lia|].
  by exists d, (r ++ [digit (n mod 10)]).
Qed.

Lemma parse_nat_show_N n rest : rest_ok rest = true -> parse_nat (show_N n ++ rest) = Some (n, rest).
Proof.
  intros Hr. destruct (decide (n = 0)) as [->|Hn]; [reflexivity|].
  destruct (show_N_head n Hn) as (d & r & Hs & Hd).
  pose proof (read_N_show_N n) as Hread. pose proof (show_N_digits n) as Hdig.
  rewrite Hs in Hread, Hdig |- *. apply Forall_cons in Hdig as [_ Hdig].
  cbn. rewrite is_digit_digit, digit_value_digit by lia.
  destruct (N.eqb_spec d 0); [lia|]. f_equal. apply digits_go_app; [done|done|].
  cbn in Hread. rewrite is_digit_digit, digit_value_digit in Hread by lia. done.
Qed.

(** ** Arrays and objects *)


Lemma length_join_cons2 (sep a b : jstring) l :
  length (join sep (a :: b :: l)) = (length a + length sep + length (join sep (b :: l)))%nat.
Proof. rewrite join_cons2, !length_app. lia. Qed.

(** The text of an array element, and what it parses to. *)
Definition elem_text (x : jsval) : jstring := default (lit "null") (serialize x).
Definition norm_elem (x : jsval) : jsval := match x with JUndefined => JNull | _ => json_norm x end.

(** A member that [JSON.stringify] writes, and the members it writes. *)
Definition is_defined (x : jsval) : bool := match x with JUndefined => false | _ => true end.
Definition mem_text (kv : jstring * jsval) : jstring := quote kv.1 ++ [":"%char] ++ elem_text kv.2.
Definition norm_member (kv : jstring * jsval) : jstring * jsval := (kv.1, json_norm kv.2).

(** The round trip at one value, for any fuel above its length. *)
Definition roundtrip_at (v : jsval) : Prop :=
  keys_unique v = true -> forall t rest fuel, serialize v = Some t -> rest_ok rest = true ->
  (length t < fuel)%nat -> parse_value fuel (t ++ rest) = Some (json_norm v, rest).

Lemma serialize_defined x : is_defined x = true -> serialize x = Some (elem_text x).
Proof. destruct x; done. Qed.

Lemma parse_elem x f rest :
  roundtrip_at x -> keys_unique x = true -> rest_ok rest = true -> (length (elem_text x) < f)%nat ->
  parse_value f (elem_text x ++ rest) = Some (norm_elem x, rest).
Proof.
  intros Hx Hu Hr Hf. destruct x; try (apply Hx; [done|reflexivity|done|done]).
  destruct f as [|f]; [cbn in Hf; lia|]. reflexivity.
Qed.

Lemma parse_elems_join xs fuel rest :
  Forall roundtrip_at xs -> forallb keys_unique xs = true -> xs <> [] ->
  (length (join [","%char] (map elem_text xs)) + 1 < fuel)%nat ->
  parse_elems fuel (join [","%char] (map elem_text xs) ++ "]"%char :: rest) = Some (map norm_elem xs, rest).
Proof.
  revert fuel. induction xs as [|x xs IH]; intros fuel Hrt Hu Hne Hf; [done|].
  apply Forall_cons in Hrt as [Hx Hxs]. apply andb_prop in Hu as [Hux Hus].
  destruct fuel as [|f]; [lia|]. destruct xs as [|x' xs].
  - cbn [map] in *. rewrite join1 in *. cbn [parse_elems]. rewrite parse_elem by (done || lia).
    reflexivity.
  - cbn [map] in *. rewrite length_join_cons2 in Hf. rewrite join_cons2, <- app_assoc.
    cbn [parse_elems]. rewrite <- app_assoc, parse_elem by (done || cbn in *; lia). cbn [mbind option_bind fst snd].
    cbn [app]. ws_simp. rewrite decide_False by done. rewrite decide_True by done.
    rewrite IH by (done || cbn in *; lia). reflexivity.
Qed.

Lemma mem_text_app kv r :
  mem_text kv ++ r = dq :: concat (map escape_char kv.1) ++ dq :: ":"%char :: elem_text kv.2 ++ r.
Proof. unfold mem_text, quote. by list_norm. Qed.

Lemma parse_members_join L fuel rest :
  Forall (fun kv => roundtrip_at kv.2 /\ keys_unique kv.2 = true /\ is_defined kv.2 = true) L -> L <> [] ->
  (length (join [","%char] (map mem_text L)) + 1 < fuel)%nat ->
  parse_members fuel (join [","%char] (map mem_text L) ++ "}"%char :: rest) = Some (map norm_member L, rest).
Proof.
  revert fuel. induction L as [|kv L IH]; intros fuel HL Hne Hf; [done|].
  apply Forall_cons in HL as [(Hrt & Hu & Hd) HL]. destruct fuel as [|f]; [lia|].
  assert (forall r, rest_ok r = true -> (length (elem_text kv.2) < f)%nat ->
            parse_members (S f) (mem_text kv ++ r) =
            match skip_ws r with
            | c' :: r2 =>
                if decide (c' = "}"%char) then Some ([(kv.1, norm_elem kv.2)], r2)
                else if decide (c' = ","%char) then
                  y ← parse_members f r2; Some ((kv.1, norm_elem kv.2) :: y.1, y.2)
                else None
            | [] => None
            end) as Hone.
  { intros r Hr Hlen. rewrite mem_text_app. cbn [parse_members]. ws_simp. rewrite decide_True by done.
    rewrite parse_string_quote. cbn [mbind option_bind fst snd]. ws_simp.
    destruct (decide (":"%char = ":"%char)) as [_|]; [|done].
    rewrite parse_elem by done. reflexivity. }
  assert (norm_elem kv.2 = json_norm kv.2) as Hn by (destruct kv as [k []]; done).
  destruct L as [|kv' L].
  - cbn [map] in *. rewrite join1 in *. rewrite Hone; [|done|unfold mem_text in Hf; rewrite !length_app in Hf; lia].
    ws_simp. rewrite decide_True by done. by rewrite Hn.
  - cbn [map] in *. rewrite length_join_cons2 in Hf. rewrite join_cons2, <- app_assoc.
    rewrite Hone; [|done|unfold mem_text in Hf; rewrite !length_app in Hf; lia].
    cbn [app]. ws_simp. rewrite decide_False, decide_True by done.
    rewrite IH by (done || cbn in *; lia). cbn [mbind option_bind fst snd]. by rewrite Hn.
Qed.

(** The members [JSON.stringify] writes: the defined ones, in
    [[OwnPropertyKeys]] order. *)
Lemma serialize_members ps :
  omap member (own_keys_order (map (fun kv => (kv.1, serialize kv.2)) ps)) =
  map mem_text (filter (fun kv => is_defined kv.2 = true) (own_keys_order ps)).
Proof.
  change (map (fun kv => (kv.1, serialize kv.2)) ps) with (prod_map id serialize <$> ps).
  rewrite own_keys_order_map. induction (own_keys_order ps) as [|[k v] L IH]; [done|].
  rewrite filter_cons. cbn [fmap list_fmap omap list_omap prod_map id fst snd]. unfold member at 1.
  cbn [fst snd]. destruct v; cbn [is_defined]; rewrite ?decide_True, ?decide_False by done; by rewrite IH.
Qed.

Lemma norm_members ps :
  omap (fun kv => match kv.2 with Some x => Some (kv.1, x) | None => None end)
    (own_keys_order (map (fun kv => (kv.1, match kv.2 with JUndefined => None | _ => Some (json_norm kv.2) end)) ps)) =
  map norm_member (filter (fun kv => is_defined kv.2 = true) (own_keys_order ps)).
Proof.
  change (map (fun kv => (kv.1, match kv.2 with JUndefined => None | _ => Some (json_norm kv.2) end)) ps)
    with (prod_map id (fun v => match v with JUndefined => None | _ => Some (json_norm v) end) <$> ps).
  rewrite own_keys_order_map. induction (own_keys_order ps) as [|[k v] L IH]; [done|].
  rewrite filter_cons. cbn [fmap list_fmap omap list_omap prod_map id fst snd].
  destruct v; cbn [is_defined]; rewrite ?decide_True, ?decide_False by done; by rewrite IH.
Qed.

(** CreateDataProperty in text order, on distinct keys, keeps the list. *)
Lemma build_object_nodup ms : NoDup (map fst ms) -> build_object ms = ms.
Proof.
  unfold build_object. assert (forall acc, NoDup (map fst (acc ++ ms)) ->
    foldl (fun o kv => set_prop kv.1 kv.2 o) acc ms = acc ++ ms) as H.
  { induction ms as [|[k v] ms IH]; intros acc Hnd; cbn [foldl fst snd]; [by rewrite app_nil_r|].
    rewrite set_prop_fresh.
    - rewrite IH; [by rewrite <- app_assoc|by rewrite <- app_assoc].
    - rewrite map_app in Hnd. cbn in Hnd. apply NoDup_app in Hnd as (_ & Hd & _). intros Hk.
      apply (Hd k Hk). cbn. by left. }
  intros Hnd. exact (H [] Hnd).
Qed.

Lemma NoDup_keys_filter (P : jstring * jsval -> Prop) `{forall kv, Decision (P kv)} (ps : props) :
  NoDup (map fst ps) -> NoDup (map fst (filter P ps)).
Proof.
  induction ps as [|[k v] ps IH]; intros Hnd; [done|]. cbn in Hnd. apply NoDup_cons in Hnd as [Hk Hnd].
  rewrite filter_cons. case_decide; [|by apply IH]. cbn. constructor; [|by apply IH].
  intros Hin. apply Hk. apply elem_of_map in Hin as ([k' v'] & -> & Hin).
  apply list_elem_of_filter in Hin as [_ Hin]. apply elem_of_map. by exists (k', v').
Qed.

(** A text [JSON.stringify] writes starts with neither []] nor [}]. *)
Lemma serialize_head v t :
  serialize v = Some t -> exists c t', t = c :: t' /\ c <> "]"%char /\ c <> "}"%char /\ is_ws c = false.
Proof.
  destruct v as [| |[]|z|s|xs|ps]; cbn; intros Ht; try discriminate; injection Ht as <-; try by do 2 eexists.
  destruct z as [|p|p]; cbn [show_Z]; try by do 2 eexists.
  pose proof (show_N_digits (Npos p)) as Hd. destruct (show_N (Npos p)) as [|c t'] eqn:E.
  - by destruct (show_N_nonempty (Npos p)).
  - apply Forall_cons in Hd as [Hc _]. exists c, t'. split_and!; [done| | |by apply digit_not_ws];
      intros ->; discriminate Hc.
Qed.

Lemma elem_text_head x :
  exists c t', elem_text x = c :: t' /\ c <> "]"%char /\ c <> "}"%char /\ is_ws c = false.
Proof.
  destruct x as [|x|x|x|x|x|x]; [unfold elem_text; cbn; by do 2 eexists|..];
    match goal with |- context [elem_text ?v] => by apply (serialize_head v), serialize_defined end.
Qed.

Lemma join_elems_head xs :
  xs <> [] -> exists c r, join [","%char] (map elem_text xs) = c :: r /\ c <> "]"%char /\ is_ws c = false.
Proof.
  destruct xs as [|x xs]; [done|]. intros _. destruct (elem_text_head x) as (c & t' & E & Hc & _ & Hw).
  exists c, (t' ++ concat (map (fun y => [","%char] ++ y) (map elem_text xs))). cbn [map join]. by rewrite E.
Qed.

Lemma join_members_head L : L <> [] -> exists r, join [","%char] (map mem_text L) = dq :: r.
Proof. destruct L as [|kv L]; [done|]. intros _. eexists. cbn [map join]. by rewrite mem_text_app. Qed.

(** [parse_value] on an opening quote, bracket or brace. *)
Lemma parse_value_string f r :
  parse_value (S f) (dq :: r) = x ← parse_string r; Some (JString x.1, x.2).
Proof. reflexivity. Qed.

Lemma parse_value_array f c r :
  c <> "]"%char -> is_ws c = false ->
  parse_value (S f) ("["%char :: c :: r) = x ← parse_elems f (c :: r); Some (JArray x.1, x.2).
Proof. intros Hc Hw. cbn [parse_value]. ws_simp. destruct (decide (c = "]"%char)); [done|reflexivity]. Qed.

Lemma parse_value_object f c r :
  c <> "}"%char -> is_ws c = false ->
  parse_value (S f) ("{"%char :: c :: r) = x ← parse_members f (c :: r); Some (JObject (build_object x.1), x.2).
Proof. intros Hc Hw. cbn [parse_value]. ws_simp.
  destruct (decide (c = "}"%char)); [done|reflexivity]. Qed.

(** A number's text reads back as the number. *)
Lemma parse_number z rest f :
  rest_ok rest = true -> parse_value (S f) (show_Z z ++ rest) = Some (JNumber z, rest).
Proof.
  intros Hr. destruct z as [|p|p]; [reflexivity| |].
  - pose proof (show_N_digits (Npos p)) as Hd. pose proof (parse_nat_show_N (Npos p) rest Hr) as Hp.
    cbn [show_Z]. destruct (show_N (Npos p)) as [|c t] eqn:E; [by destruct (show_N_nonempty (Npos p))|].
    apply Forall_cons in Hd as [Hc _]. cbn [app parse_value]. ws_simp. rewrite Hc. cbn [app] in Hp.
    by rewrite Hp.
  - cbn [show_Z app parse_value]. ws_simp. cbn [is_digit decide]. by rewrite parse_nat_show_N.
Qed.

(** The members of an object that the round trip sees, with what it needs
    of each. *)
Lemma members_ok ps :
  Forall (fun kv => roundtrip_at kv.2) ps -> forallb (fun kv => keys_unique kv.2) ps = true ->
  Forall (fun kv => roundtrip_at kv.2 /\ keys_unique kv.2 = true /\ is_defined kv.2 = true)
    (filter (fun kv => is_defined kv.2 = true) (own_keys_order ps)).
Proof.
  rewrite Forall_forall. intros IH Hu. apply Forall_forall.
  intros kv (Hd & Hin)%list_elem_of_filter. rewrite elem_of_own_keys_order in Hin.
  split_and!; [exact (IH kv Hin)|exact (forallb_elem _ _ _ Hu Hin)|done].
Qed.

Lemma NoDup_norm_members ps :
  NoDup (map fst ps) ->
  NoDup (map fst (map norm_member (filter (fun kv => is_defined kv.2 = true) (own_keys_order ps)))).
Proof.
  intros Hnd. rewrite map_map. change (fun x => (norm_member x).1) with (@fst jstring jsval).
  apply NoDup_keys_filter.
  assert (map fst (own_keys_order ps) ≡ₚ map fst ps) as -> by apply Permutation_map, own_keys_order_perm.
  done.
Qed.

(** Parsing [JSON.stringify(v)], followed by any text that does not go on
    with a digit, gives [json_norm v] and that text, for any fuel above the
    length of the JSON text. *)
Theorem roundtrip_all v : roundtrip_at v.
Proof.
  induction v as [| |b|z|s|xs IH|ps IH]; intros Hu t rest fuel Ht Hr Hf;
    (destruct fuel as [|f]; [cbn in Hf; lia|]); cbn [serialize] in Ht; try discriminate;
    injection Ht as <-.
  - reflexivity.
  - destruct b; reflexivity.
  - by apply parse_number.
  - unfold quote. cbn [app]. rewrite <- app_assoc, parse_value_string. cbn [app].
    by rewrite parse_string_quote.
  - cbn [keys_unique] in Hu. destruct (decide (xs = [])) as [->|Hne]; [reflexivity|].
    change (map (fun x => default (lit "null") (serialize x)) xs) with (map elem_text xs) in *.
    cbn [length] in Hf. rewrite length_app in Hf. cbn [length] in Hf.
    destruct (join_elems_head xs Hne) as (c & r & Ej & Hc & Hw).
    cbn [app]. rewrite <- app_assoc, Ej. cbn [app]. rewrite parse_value_array by done.
    rewrite app_comm_cons, <- Ej, parse_elems_join by (done || lia). reflexivity.
  - cbn [keys_unique] in Hu. apply andb_prop in Hu as [Hnd%bool_decide_eq_true Hus].
    rewrite serialize_members in *. cbn [json_norm]. rewrite norm_members.
    set (L := filter (fun kv => is_defined kv.2 = true) (own_keys_order ps)) in *.
    destruct (decide (L = [])) as [HL|HL]; [rewrite HL; reflexivity|].
    cbn [length] in Hf. rewrite length_app in Hf. cbn [length] in Hf.
    destruct (join_members_head L HL) as (r & Ej).
    cbn [app]. rewrite <- app_assoc, Ej. cbn [app]. rewrite parse_value_object by (done || unfold dq; congruence).
    rewrite app_comm_cons, <- Ej, parse_members_join by (try apply members_ok; done || lia).
    cbn [mbind option_bind fst snd]. by rewrite build_object_nodup by (by apply NoDup_norm_members).
Qed.

(** ** The round trip *)


(** ** Witness *)

