(* ===== verification/JsonValid.v ===== *)
(** * Which texts [JSON.parse] accepts

    [JSON.parse(text)] throws a [SyntaxError] exactly when [text] is not a
    JSON text (ECMA-262 JSON.parse, on the grammar of RFC 8259).  Node's
    [require] reads a [.json] module with it, so this is what decides
    whether [require] of the ledgers file throws.  [JsonParse] reads the
    texts whose numbers are integers and whose [\u] escapes are 8-bit
    characters.  This file recognises the whole grammar: fractions,
    exponents and every [\uXXXX] escape.  The recogniser [valid_value] has
    the same shape as [parse_value] and the same fuel.  The results:
    - [json_valid_iff]: the fuel [json_valid] gives is always enough, so
      [json_valid s] holds exactly when some derivation accepts [s];
    - [json_parse_valid]: every text [json_parse] reads is a JSON text, so
      [json_parse] fails on a JSON text only outside the model. *)

From S2P Require Import Prelude JsValue JsonParse.

Local Open Scope N_scope.

(** ** The recogniser *)

Definition is_hex (c : ascii) : bool := bool_decide (is_Some (hex_value c)).

(** A string literal after its opening quote: the text after the closing
    quote. *)
Fixpoint valid_string (s : jstring) : option jstring :=
  match s with
  | [] => None
  | c :: r =>
      if decide (c = dq) then Some r
      else if decide (c = bslash) then
        match r with
        | e :: r' =>
            if decide (e = "u"%char) then
              match r' with
              | h1 :: h2 :: h3 :: h4 :: r'' =>
                  if is_hex h1 && is_hex h2 && is_hex h3 && is_hex h4 then valid_string r'' else None
              | _ => None
              end
            else if bool_decide (is_Some (unescape e)) then valid_string r' else None
        | [] => None
        end
      else if (N_of_ascii c <? 32) then None
      else valid_string r
  end.

(** [*DIGIT]: the text after a run of digits. *)
Fixpoint skip_digits (s : jstring) : jstring :=
  match s with
  | c :: r => if is_digit c then skip_digits r else s
  | [] => []
  end.

(** [1*DIGIT] *)
Definition digits1 (s : jstring) : option jstring :=
  match s with
  | c :: r => if is_digit c then Some (skip_digits r) else None
  | [] => None
  end.

(** [int = zero / ( digit1-9 *DIGIT )] *)
Definition valid_int (s : jstring) : option jstring :=
  match s with
  | c :: r => if is_digit c then if digit_value c =? 0 then Some r else Some (skip_digits r) else None
  | [] => None
  end.

(** [[ frac ]], with [frac = "." 1*DIGIT] *)
Definition valid_frac (s : jstring) : option jstring :=
  match s with
  | c :: r => if decide (c = "."%char) then digits1 r else Some s
  | [] => Some []
  end.

(** [[ exp ]], with [exp = ("e" / "E") [ "-" / "+" ] 1*DIGIT] *)
Definition valid_exp (s : jstring) : option jstring :=
  match s with
  | c :: r =>
      if bool_decide (c = "e"%char) || bool_decide (c = "E"%char) then
        match r with
        | d :: r' => if bool_decide (d = "-"%char) || bool_decide (d = "+"%char) then digits1 r' else digits1 r
        | [] => None
        end
      else Some s
  | [] => Some []
  end.

(** [number = [ minus ] int [ frac ] [ exp ]] *)
Definition valid_number (s : jstring) : option jstring :=
  let s' := match s with c :: r => if decide (c = "-"%char) then r else s | [] => [] end in
  r ← valid_int s'; r' ← valid_frac r; valid_exp r'.

Fixpoint valid_value (fuel : nat) (s : jstring) : option jstring :=
  match fuel with
  | O => None
  | S f =>
      match skip_ws s with
      | [] => None
      | c :: r =>
          if is_digit c then valid_number (c :: r)
          else if decide (c = "-"%char) then valid_number (c :: r)
          else if decide (c = "n"%char) then expect (lit "ull") r
          else if decide (c = "t"%char) then expect (lit "rue") r
          else if decide (c = "f"%char) then expect (lit "alse") r
          else if decide (c = dq) then valid_string r
          else if decide (c = "["%char) then
            match skip_ws r with
            | c' :: r' => if decide (c' = "]"%char) then Some r' else valid_elems f r
            | [] => None
            end
          else if decide (c = "{"%char) then
            match skip_ws r with
            | c' :: r' => if decide (c' = "}"%char) then Some r' else valid_members f r
            | [] => None
            end
          else None
      end
  end
with valid_elems (fuel : nat) (s : jstring) : option jstring :=
  match fuel with
  | O => None
  | S f =>
      r1 ← valid_value f s;
      match skip_ws r1 with
      | c :: r =>
          if decide (c = "]"%char) then Some r
          else if decide (c = ","%char) then valid_elems f r
          else None
      | [] => None
      end
  end
with valid_members (fuel : nat) (s : jstring) : option jstring :=
  match fuel with
  | O => None
  | S f =>
      match skip_ws s with
      | c :: r =>
          if decide (c = dq) then
            r0 ← valid_string r;
            match skip_ws r0 with
            | col :: r1 =>
                if decide (col = ":"%char) then
                  r2 ← valid_value f r1;
                  match skip_ws r2 with
                  | c' :: r3 =>
                      if decide (c' = "}"%char) then Some r3
                      else if decide (c' = ","%char) then valid_members f r3
                      else None
                  | [] => None
                  end
                else None
            | [] => None
            end
          else None
      | [] => None
      end
  end.

(** A JSON text: white space, a value, white space. *)
Definition json_valid (s : jstring) : bool :=
  match valid_value (S (length s)) s with
  | Some rest => bool_decide (skip_ws rest = [])
  | None => false
  end.

(** A text that cannot go on with a fraction or an exponent. *)
Definition num_stop (r : jstring) : bool :=
  match r with
  | c :: _ => negb (bool_decide (c ∈ ["."%char; "e"%char; "E"%char]))
  | [] => true
  end.

(** ** Every text the parser reads is a JSON text *)

Lemma unicode_escape_hex h1 h2 h3 h4 c :
  unicode_escape h1 h2 h3 h4 = Some c -> is_hex h1 && is_hex h2 && is_hex h3 && is_hex h4 = true.
Proof.
  unfold unicode_escape, is_hex.
  destruct (hex_value h1), (hex_value h2), (hex_value h3), (hex_value h4); done.
Qed.

Lemma valid_string_parse s x r : parse_string s = Some (x, r) -> valid_string s = Some r.
Proof.
  revert x r. induction s as [s IH] using (induction_ltof1 _ (@length ascii)); unfold ltof in IH.
  intros x r. destruct s as [|c r0]; [done|]. cbn [parse_string valid_string]. intros H.
  case_decide; [by injection H as _ <-|]. case_decide.
  - destruct r0 as [|e r1]; [done|]. case_decide.
    + destruct r1 as [|h1 [|h2 [|h3 [|h4 r2]]]]; try done.
      destruct (unicode_escape h1 h2 h3 h4) eqn:E; [|done]. rewrite (unicode_escape_hex _ _ _ _ _ E).
      destruct (parse_string r2) as [[x' r']|] eqn:E2; [|done]. injection H as _ <-.
      exact (IH r2 ltac:(cbn; lia) x' r' E2).
    + destruct (unescape e) eqn:E; [|done]. rewrite bool_decide_eq_true_2 by eauto.
      destruct (parse_string r1) as [[x' r']|] eqn:E2; [|done]. injection H as _ <-.
      exact (IH r1 ltac:(cbn; lia) x' r' E2).
  - destruct (N_of_ascii c <? 32); [done|].
    destruct (parse_string r0) as [[x' r']|] eqn:E2; [|done]. injection H as _ <-.
    exact (IH r0 ltac:(cbn; lia) x' r' E2).
Qed.

Lemma digits_go_skip s acc : (digits_go s acc).2 = skip_digits s.
Proof. revert acc. induction s as [|c s IH]; intros acc; cbn; [done|]. by destruct (is_digit c). Qed.

Lemma valid_int_parse s n r : parse_nat s = Some (n, r) -> valid_int s = Some r.
Proof.
  destruct s as [|c s]; [done|]. cbn. destruct (is_digit c); [|done].
  destruct (digit_value c =? 0); intros H.
  - by injection H as <- <-.
  - injection H as E. by rewrite <- (digits_go_skip s (digit_value c)), E.
Qed.

Lemma valid_frac_exp_stop r : num_stop r = true -> valid_frac r = Some r /\ valid_exp r = Some r.
Proof.
  destruct r as [|c r]; [done|]. cbn. intros Hc%negb_true_iff%bool_decide_eq_false. split.
  - destruct (decide (c = "."%char)); [set_solver|done].
  - rewrite !bool_decide_eq_false_2 by set_solver. done.
Qed.

Lemma valid_number_parse s n r :
  parse_nat s = Some (n, r) -> num_stop r = true -> valid_number s = Some r.
Proof.
  intros H Hr. unfold valid_number. destruct (valid_frac_exp_stop r Hr) as [Hf He].
  destruct s as [|c s']; [done|].
  assert (c <> "-"%char) as Hc by (intros ->; discriminate H).
  rewrite decide_False by done. rewrite (valid_int_parse _ _ _ H). cbn. by rewrite Hf.
Qed.

Lemma valid_number_minus s n r :
  parse_nat s = Some (n, r) -> num_stop r = true -> valid_number ("-"%char :: s) = Some r.
Proof.
  intros H Hr. unfold valid_number. destruct (valid_frac_exp_stop r Hr) as [Hf He].
  rewrite decide_True by done. rewrite (valid_int_parse _ _ _ H). cbn. by rewrite Hf.
Qed.

(** A text whose first character past white space is a delimiter cannot
    go on with a fraction or an exponent. *)
Lemma num_stop_skip r c r' :
  skip_ws r = c :: r' -> c ∉ ["."%char; "e"%char; "E"%char] -> num_stop r = true.
Proof.
  destruct r as [|d r]; [done|]. cbn. destruct (is_ws d) eqn:Hw; intros H Hc.
  - apply negb_true_iff, bool_decide_eq_false_2. intros Hin. unfold is_ws in Hw.
    repeat (apply elem_of_cons in Hin as [->|Hin]; [discriminate Hw|]). by apply elem_of_nil in Hin.
  - injection H as -> _. by apply negb_true_iff, bool_decide_eq_false_2.
Qed.

Lemma num_stop_end r : skip_ws r = [] -> num_stop r = true.
Proof.
  destruct r as [|d r]; [done|]. cbn. destruct (is_ws d) eqn:Hw; [|done]. intros _.
  apply negb_true_iff, bool_decide_eq_false_2. intros Hin. unfold is_ws in Hw.
  repeat (apply elem_of_cons in Hin as [->|Hin]; [discriminate Hw|]). by apply elem_of_nil in Hin.
Qed.

Ltac delim_stop := eapply num_stop_skip; [eassumption|intros Hin;
  repeat (apply elem_of_cons in Hin as [Hin|Hin]; [discriminate Hin|]); by apply elem_of_nil in Hin].

(** The recogniser accepts, with the same fuel, every text the parser
    reads, and stops where the parser stops. *)
Lemma valid_parse_all fuel :
  (forall s v r, parse_value fuel s = Some (v, r) -> num_stop r = true -> valid_value fuel s = Some r) /\
  (forall s xs r, parse_elems fuel s = Some (xs, r) -> valid_elems fuel s = Some r) /\
  (forall s ms r, parse_members fuel s = Some (ms, r) -> valid_members fuel s = Some r).
Proof.
  induction fuel as [|f IH]; [done|]. destruct IH as (IHv & IHe & IHm). split_and!.
  - intros s v r H Hr. cbn [parse_value valid_value] in H |- *.
    destruct (skip_ws s) as [|c r0]; [done|].
    destruct (is_digit c).
    { destruct (parse_nat (c :: r0)) as [[n r']|] eqn:E; [|done]. injection H as _ <-.
      by apply (valid_number_parse _ n). }
    case_decide.
    { subst. destruct (parse_nat r0) as [[n r']|] eqn:E; [|done]. injection H as _ <-.
      by apply (valid_number_minus _ n). }
    case_decide; [destruct (expect _ r0); [by injection H as _ <-|done]|].
    case_decide; [destruct (expect _ r0); [by injection H as _ <-|done]|].
    case_decide; [destruct (expect _ r0); [by injection H as _ <-|done]|].
    case_decide.
    { destruct (parse_string r0) as [[x r']|] eqn:E; [|done]. injection H as _ <-.
      by apply (valid_string_parse _ x). }
    case_decide.
    { destruct (skip_ws r0) as [|c' r1]; [done|]. case_decide; [by injection H as _ <-|].
      destruct (parse_elems f r0) as [[xs r']|] eqn:E; [|done]. injection H as _ <-.
      by apply (IHe _ xs). }
    case_decide; [|done].
    destruct (skip_ws r0) as [|c' r1]; [done|]. case_decide; [by injection H as _ <-|].
    destruct (parse_members f r0) as [[ms r']|] eqn:E; [|done]. injection H as _ <-.
    by apply (IHm _ ms).
  - intros s xs r H. cbn [parse_elems valid_elems] in H |- *.
    destruct (parse_value f s) as [[x r1]|] eqn:E; [|done]. cbn [mbind option_bind fst snd] in H |- *.
    destruct (skip_ws r1) as [|c r2] eqn:Ew; [done|].
    case_decide; [subst; rewrite (IHv _ _ _ E) by delim_stop; cbn; rewrite Ew, decide_True by done;
                  by injection H as _ <-|].
    case_decide; [|done]. subst. rewrite (IHv _ _ _ E) by delim_stop. cbn. rewrite Ew.
    rewrite decide_False, decide_True by done.
    destruct (parse_elems f r2) as [[ys r']|] eqn:E2; [|done]. injection H as _ <-. by apply (IHe _ ys).
  - intros s ms r H. cbn [parse_members valid_members] in H |- *.
    destruct (skip_ws s) as [|c r0]; [done|]. case_decide; [|done].
    destruct (parse_string r0) as [[k r1]|] eqn:Ek; [|done].
    rewrite (valid_string_parse _ _ _ Ek). cbn [mbind option_bind fst snd] in H |- *.
    destruct (skip_ws r1) as [|col r2]; [done|]. case_decide; [|done].
    destruct (parse_value f r2) as [[x r3]|] eqn:E; [|done]. cbn [mbind option_bind fst snd] in H |- *.
    destruct (skip_ws r3) as [|c' r4] eqn:Ew; [done|].
    case_decide; [subst; rewrite (IHv _ _ _ E) by delim_stop; cbn; rewrite Ew, decide_True by done;
                  by injection H as _ <-|].
    case_decide; [|done]. subst. rewrite (IHv _ _ _ E) by delim_stop. cbn. rewrite Ew.
    rewrite decide_False, decide_True by done.
    destruct (parse_members f r4) as [[ys r']|] eqn:E2; [|done]. injection H as _ <-. by apply (IHm _ ys).
Qed.

(** ** The fuel of [json_valid] is enough *)

Lemma skip_ws_length s : (length (skip_ws s) <= length s)%nat.
Proof. induction s as [|c s IH]; cbn; [lia|]. destruct (is_ws c); cbn; lia. Qed.

Lemma skip_digits_length s : (length (skip_digits s) <= length s)%nat.
Proof. induction s as [|c s IH]; cbn; [lia|]. destruct (is_digit c); cbn; lia. Qed.

Lemma expect_length w s r : expect w s = Some r -> length s = (length w + length r)%nat.
Proof.
  revert s. induction w as [|c w IH]; intros [|c' s] H; cbn in H |- *.
  - by injection H as <-.
  - by injection H as <-.
  - done.
  - case_decide; [|done]. rewrite (IH s H). lia.
Qed.

Lemma valid_string_length s r : valid_string s = Some r -> (length r < length s)%nat.
Proof.
  induction s as [s IH] using (induction_ltof1 _ (@length ascii)); unfold ltof in IH.
  destruct s as [|c r0]; [done|]. cbn [valid_string]. intros H.
  case_decide; [injection H as <-; cbn; lia|]. case_decide.
  - destruct r0 as [|e r1]; [done|]. case_decide.
    + destruct r1 as [|h1 [|h2 [|h3 [|h4 r2]]]]; try done.
      destruct (_ && _); [|done]. pose proof (IH r2 ltac:(cbn; lia) H). cbn. lia.
    + case_bool_decide; [|done]. pose proof (IH r1 ltac:(cbn; lia) H). cbn. lia.
  - destruct (N_of_ascii c <? 32); [done|]. pose proof (IH r0 ltac:(cbn; lia) H). cbn. lia.
Qed.

Lemma digits1_length s r : digits1 s = Some r -> (length r < length s)%nat.
Proof.
  destruct s as [|c s]; [done|]. cbn. destruct (is_digit c); [|done]. intros H; injection H as <-.
  pose proof (skip_digits_length s). lia.
Qed.

Lemma valid_int_length s r : valid_int s = Some r -> (length r < length s)%nat.
Proof.
  destruct s as [|c s]; cbn [valid_int]; [done|]. pose proof (skip_digits_length s).
  destruct (is_digit c); [|done]. destruct (digit_value c =? 0); intros [= <-]; cbn; lia.
Qed.

Lemma valid_frac_length r r' : valid_frac r = Some r' -> (length r' <= length r)%nat.
Proof.
  destruct r as [|c r]; cbn [valid_frac]; [by intros [= <-]|].
  case_decide; [intros ?%digits1_length; cbn; lia|by intros [= <-]].
Qed.

Lemma valid_exp_length r r' : valid_exp r = Some r' -> (length r' <= length r)%nat.
Proof.
  destruct r as [|c [|d r]]; cbn [valid_exp]; [by intros [= <-]|..].
  - destruct (_ || _); [done|by intros [= <-]].
  - destruct (_ || _); [|by intros [= <-]]. destruct (_ || _); intros ?%digits1_length; cbn in *; lia.
Qed.

Lemma valid_number_length s r : valid_number s = Some r -> (length r < length s)%nat.
Proof.
  unfold valid_number. intros H.
  destruct (valid_int _) as [r1|] eqn:E1; [|done]. apply valid_int_length in E1. cbn in H.
  destruct (valid_frac r1) as [r2|] eqn:E2; [|done]. apply valid_frac_length in E2. cbn in H.
  apply valid_exp_length in H. destruct s as [|c s]; [cbn in E1; lia|]. case_decide; cbn in *; lia.
Qed.

(** What the recogniser accepts is consumed: the rest is shorter. *)
Lemma valid_length_all fuel :
  (forall s r, valid_value fuel s = Some r -> (length r < length s)%nat) /\
  (forall s r, valid_elems fuel s = Some r -> (length r < length s)%nat) /\
  (forall s r, valid_members fuel s = Some r -> (length r < length s)%nat).
Proof.
  induction fuel as [|f (IHv & IHe & IHm)]; [done|]. split_and!.
  - intros s r H. cbn [valid_value] in H. pose proof (skip_ws_length s) as Hs.
    destruct (skip_ws s) as [|c r0]; [done|]. cbn [length] in Hs.
    repeat (case_match || case_decide); try done;
      repeat match goal with
        | H : valid_number _ = Some _ |- _ => apply valid_number_length in H
        | H : expect _ _ = Some _ |- _ => apply expect_length in H
        | H : valid_string _ = Some _ |- _ => apply valid_string_length in H
        | H : valid_elems _ _ = Some _ |- _ => apply IHe in H
        | H : valid_members _ _ = Some _ |- _ => apply IHm in H
        | H : Some _ = Some _ |- _ => injection H as <-
        | H : skip_ws ?x = _ |- _ => let L := fresh in pose proof (skip_ws_length x) as L; rewrite H in L; clear H
        end; cbn in *; lia.
  - intros s r H. cbn [valid_elems] in H.
    destruct (valid_value f s) as [r1|] eqn:E; [|done]. apply IHv in E. cbn in H.
    pose proof (skip_ws_length r1) as Hs. destruct (skip_ws r1) as [|c r2]; [done|]. cbn in Hs.
    case_decide; [injection H as <-; lia|]. case_decide; [|done]. apply IHe in H. lia.
  - intros s r H. cbn [valid_members] in H.
    pose proof (skip_ws_length s) as Hs. destruct (skip_ws s) as [|c r0]; [done|]. cbn in Hs.
    case_decide; [|done]. destruct (valid_string r0) as [r1|] eqn:E1; [|done]. apply valid_string_length in E1.
    cbn in H. pose proof (skip_ws_length r1) as Hs1. destruct (skip_ws r1) as [|col r2]; [done|]. cbn in Hs1.
    case_decide; [|done]. destruct (valid_value f r2) as [r3|] eqn:E3; [|done]. apply IHv in E3. cbn in H.
    pose proof (skip_ws_length r3) as Hs3. destruct (skip_ws r3) as [|c' r4]; [done|]. cbn in Hs3.
    case_decide; [injection H as <-; lia|]. case_decide; [|done]. apply IHm in H. lia.
Qed.

(** A derivation that consumes [n] characters needs no more than [n]
    units of fuel: any fuel above the consumed length gives the same
    result. *)
Lemma valid_fuel_all fuel :
  (forall s r g, valid_value fuel s = Some r -> (length s < g + length r)%nat -> valid_value g s = Some r) /\
  (forall s r g, valid_elems fuel s = Some r -> (length s < g + length r)%nat -> valid_elems g s = Some r) /\
  (forall s r g, valid_members fuel s = Some r -> (length s < g + length r)%nat -> valid_members g s = Some r).
Proof.
  induction fuel as [|f (IHv & IHe & IHm)]; [done|].
  destruct (valid_length_all f) as (Lv & Le & Lm). split_and!.
  - intros s r [|g] H Hg; [pose proof (valid_length_all (S f)) as [L _]; specialize (L _ _ H); lia|].
    cbn [valid_value] in H |- *. pose proof (skip_ws_length s) as Hs.
    destruct (skip_ws s) as [|c r0]; [done|]. cbn [length] in Hs.
    destruct (is_digit c); [done|]. case_decide; [done|].
    do 4 (case_decide; [done|]). case_decide.
    + pose proof (skip_ws_length r0) as Hs0. destruct (skip_ws r0) as [|c' r1]; [done|].
      case_decide; [done|]. pose proof (Le _ _ H). apply (IHe _ _ _ H). cbn in *; lia.
    + case_decide; [|done].
      pose proof (skip_ws_length r0) as Hs0. destruct (skip_ws r0) as [|c' r1]; [done|].
      case_decide; [done|]. pose proof (Lm _ _ H). apply (IHm _ _ _ H). cbn in *; lia.
  - intros s r [|g] H Hg; [pose proof (valid_length_all (S f)) as (_ & L & _); specialize (L _ _ H); lia|].
    cbn [valid_elems] in H |- *.
    destruct (valid_value f s) as [r1|] eqn:E; [|done]. cbn in H.
    pose proof (skip_ws_length r1) as Hs. destruct (skip_ws r1) as [|c r2] eqn:Ew; [done|]. cbn in Hs.
    assert (length r <= length r2)%nat as Hr.
    { case_decide; [injection H as <-; lia|]. case_decide; [|done]. apply Le in H. lia. }
    rewrite (IHv _ _ g E) by lia. cbn. rewrite Ew.
    case_decide; [done|]. case_decide; [|done]. apply (IHe _ _ _ H). pose proof (Lv _ _ E). lia.
  - intros s r [|g] H Hg; [pose proof (valid_length_all (S f)) as (_ & _ & L); specialize (L _ _ H); lia|].
    cbn [valid_members] in H |- *.
    pose proof (skip_ws_length s) as Hs. destruct (skip_ws s) as [|c r0]; [done|]. cbn in Hs.
    case_decide; [|done]. destruct (valid_string r0) as [r1|] eqn:E1; [|done].
    pose proof (valid_string_length _ _ E1). cbn in H |- *.
    pose proof (skip_ws_length r1) as Hs1. destruct (skip_ws r1) as [|col r2]; [done|]. cbn in Hs1.
    case_decide; [|done]. destruct (valid_value f r2) as [r3|] eqn:E3; [|done]. cbn in H.
    pose proof (skip_ws_length r3) as Hs3. destruct (skip_ws r3) as [|c' r4] eqn:Ew; [done|]. cbn in Hs3.
    assert (length r <= length r4)%nat as Hr.
    { case_decide; [injection H as <-; lia|]. case_decide; [|done]. apply Lm in H. lia. }
    rewrite (IHv _ _ g E3) by lia. cbn. rewrite Ew.
    case_decide; [done|]. case_decide; [|done]. apply (IHm _ _ _ H). pose proof (Lv _ _ E3). lia.
Qed.

(** ** The recogniser decides the JSON grammar *)

(** [json_valid s] holds exactly when some derivation of the grammar, with
    any fuel, reads [s] up to trailing white space: the fuel [S (length s)]
    never cuts a derivation off. *)
Theorem json_valid_iff s : json_valid s = true <-> exists fuel r, valid_value fuel s = Some r /\ skip_ws r = [].
Proof.
  unfold json_valid. split.
  - destruct (valid_value _ s) as [r|] eqn:E; [|done]. intros ?%bool_decide_eq_true. eauto.
  - intros (fuel & r & H & Hr). destruct (valid_fuel_all fuel) as [Hf _].
    rewrite (Hf _ _ (S (length s)) H) by lia. by apply bool_decide_eq_true_2.
Qed.

(** Every text [json_parse] reads is a JSON text. *)
Theorem json_parse_valid s v : json_parse s = Some v -> json_valid s = true.
Proof.
  unfold json_parse. destruct (parse_value _ s) as [[v' r]|] eqn:E; [|done].
  case_decide as Hr; [|done]. intros _. apply json_valid_iff. exists (S (length s)), r.
  split; [|done]. destruct (valid_parse_all (S (length s))) as [Hv _].
  exact (Hv _ _ _ E (num_stop_end r Hr)).
Qed.
