(* ===== verification/Loader.v ===== *)
(** * Loading the ledgers file: [require] and the loop's view of its value

    Line 22, [const ledgers = require(path.join(process.cwd(), argv.ledgers))],
    hands the path to Node's CommonJS loader (lib/internal/modules/cjs/loader.js,
    not code of this repository, so modelled from its documented behaviour):
    - [Module._findPath] resolves the absolute path: the file itself,
      then the path with [.js], [.json] and [.node] appended, in that order.
      A path that ends in [/] names a directory, and directories hold no
      file here, so it resolves to nothing;
    - [findLongestRegisteredExtension] picks the loader from the file's
      base name: the first dot (not at the start of the name) whose suffix
      is [.js], [.json] or [.node], and [.js] when there is none;
    - the [.json] loader reads the file and calls [JSON.parse] on it: a
      text that is not JSON throws a [SyntaxError] naming the file;
    - any other loader runs the file as code, whose exports the model
      takes from the environment.
    The script then reads [ledgers.length] (lines 47, 79, 99 and the loop
    test of line 113) and [ledgers[i]] (lines 90, 91, 100) on whatever value
    came back.  [ledgers_of] gives the list of entries these reads see, so
    that the components, modelled on a list, run on every value the loader
    can return. *)

From S2P Require Import Prelude JsValue Json JsonParse JsonValid.

Local Open Scope Z_scope.

(** ** Node's module loader *)

(** The file system: the text of the regular file at a path. *)
Definition files := jstring -> option jstring.

(** The result of running a module as code: its exports or what it throws.
    Running JavaScript is not modelled. *)
Definition js_modules := jstring -> exn + jsval.

Inductive loader := LoadJs | LoadJson | LoadNode.

#[export] Instance loader_eq_dec : EqDecision loader.
Proof. solve_decision. Defined.

(** [Module._extensions]: the registered extensions. *)
Definition registered (ext : jstring) : option loader :=
  if decide (ext = lit ".js") then Some LoadJs
  else if decide (ext = lit ".json") then Some LoadJson
  else if decide (ext = lit ".node") then Some LoadNode
  else None.

(** [path.basename]: the text after the last [/]. *)
Fixpoint basename_go (acc s : jstring) : jstring :=
  match s with
  | [] => acc
  | c :: r => if decide (c = "/"%char) then basename_go [] r else basename_go (acc ++ [c]) r
  end.

Definition basename (p : jstring) : jstring := basename_go [] p.

(** The loop of [findLongestRegisteredExtension] over the dots of the
    name: [s] is the name from the current index on, [first] says whether
    that index is 0 (a dot there starts a dot file and is skipped). *)
Fixpoint extension_go (first : bool) (s : jstring) : loader :=
  match s with
  | [] => LoadJs
  | c :: r =>
      if bool_decide (c = "."%char) && negb first then
        match registered s with Some l => l | None => extension_go false r end
      else extension_go false r
  end.

Definition module_loader (filename : jstring) : loader := extension_go true (basename filename).

(** [tryExtensions]: the first of [p ++ ext] that is a file. *)
Fixpoint try_extensions (fs : files) (p : jstring) (exts : list jstring) : option (jstring * jstring) :=
  match exts with
  | [] => None
  | e :: es => match fs (p ++ e) with Some t => Some (p ++ e, t) | None => try_extensions fs p es end
  end.

(** [Module._findPath] on an absolute path: the file and its text. *)
Definition resolve (fs : files) (p : jstring) : option (jstring * jstring) :=
  if bool_decide (last p = Some "/"%char) then None
  else match fs p with
       | Some t => Some (p, t)
       | None => try_extensions fs p [lit ".js"; lit ".json"; lit ".node"]
       end.

(** [require(p)]: the exports, or the exception it throws.  [None] is a
    JSON text outside the model (a fraction, an exponent or a [\u] escape
    past 255). *)
Definition node_require (fs : files) (mods : js_modules) (p : jstring) : option (exn + jsval) :=
  match resolve fs p with
  | None => Some (inl (ModuleNotFound p))
  | Some (f, t) =>
      match module_loader f with
      | LoadJson =>
          if json_valid t then match json_parse t with Some v => Some (inr v) | None => None end
          else Some (inl (SyntaxErrorJSON f))
      | LoadJs | LoadNode => Some (mods f)
      end
  end.

(** ** The entries the script reads *)

(** What the script does with the value [require] returned: the list of
    entries [ledgers[0]], ..., [ledgers[N-1]] with [N] the number of times
    the loop test [i < ledgers.length] holds; or the [TypeError] of
    reading [length] on [null] or [undefined]; or [ViewUnmodelled] when
    [length] is a string, an array or an object, which the loop compares
    and [peerToSide] adds to as a string. *)
Inductive ledgers_view := ViewList (xs : list jsval) | ViewThrow (x : exn) | ViewUnmodelled.

(** How many times [i < len] holds for [i = 0, 1, ...]: [undefined] is
    [NaN] and [null] is [0], so neither lets the loop run; [true] is [1]. *)
Definition length_count (len : jsval) : option nat :=
  match len with
  | JUndefined | JNull => Some 0%nat
  | JBool b => Some (if b then 1%nat else 0%nat)
  | JNumber z => Some (Z.to_nat z)
  | _ => None
  end.

(** An array's entries are its elements (an array is shorter than
    [2^32 - 1], so every [i] below its length is an index).  Any other
    value is read property by property. *)
Definition ledgers_of (v : jsval) : ledgers_view :=
  match v with
  | JUndefined | JNull => ViewThrow (TypeErrorRead (lit "length"))
  | JArray xs => ViewList xs
  | _ =>
      match length_count (read v (lit "length")) with
      | Some n => ViewList (map (fun k => read v (show_Z (Z.of_nat k))) (seq 0 n))
      | None => ViewUnmodelled
      end
  end.

(** ** Sample environments *)

(** A file system with one file. *)
Definition one_file (path : string) (text : jstring) : files :=
  fun p => if decide (p = lit path) then Some text else None.

Definition no_code : js_modules := fun _ => inl (ModuleNotFound []).

(** ** Lemmas on the loader *)

Lemma basename_go_app acc p q : basename_go acc (p ++ q) = basename_go (basename_go acc p) q.
Proof. revert acc. induction p as [|c p IH]; intros acc; cbn; [done|]. case_decide; apply IH. Qed.

Lemma basename_go_plain acc q : "/"%char ∉ q -> basename_go acc q = acc ++ q.
Proof.
  revert acc. induction q as [|c q IH]; intros acc Hq; cbn; [by rewrite app_nil_r|].
  rewrite decide_False by set_solver. rewrite IH by set_solver. by rewrite <- app_assoc.
Qed.

(** A path that does not end in [/] has a non-empty base name. *)
Lemma basename_nonempty p c : last p = Some c -> c <> "/"%char -> basename p <> [].
Proof.
  intros Hl Hc. destruct (exists_last (l := p)) as (p' & c' & ->); [by intros ->|].
  rewrite last_snoc in Hl. injection Hl as ->. unfold basename. rewrite basename_go_app.
  cbn. rewrite decide_False by done. by destruct (basename_go [] p').
Qed.

(** A name [b.json] with [b] not empty loads as JSON: a suffix from an
    earlier dot is longer than every registered extension. *)
Lemma extension_go_json first b : (first = false \/ b <> []) -> extension_go first (b ++ lit ".json") = LoadJson.
Proof.
  revert first. induction b as [|c b IH]; intros first Hb.
  - destruct Hb as [->|]; [reflexivity|done].
  - cbn [app extension_go]. rewrite (IH false (or_introl eq_refl)).
    destruct (bool_decide (c = "."%char) && negb first); [|done].
    assert (registered (c :: b ++ lit ".json") = None) as ->; [|done].
    unfold registered. assert (length (c :: b ++ lit ".json") >= 6)%nat by (cbn; rewrite length_app; unfold lit; cbn; lia).
    repeat (rewrite decide_False; [|intros Heq; apply (f_equal length) in Heq; unfold lit in *; cbn in *; lia]).
    done.
Qed.

Lemma module_loader_json p c : last p = Some c -> c <> "/"%char -> module_loader (p ++ lit ".json") = LoadJson.
Proof.
  intros Hl Hc. unfold module_loader, basename. rewrite basename_go_app, basename_go_plain by (cbn; set_solver).
  apply extension_go_json. right. by apply (basename_nonempty p c).
Qed.

(** [require] of a file that the JSON loader reads. *)
Lemma node_require_json_file fs mods p f t :
  resolve fs p = Some (f, t) -> module_loader f = LoadJson ->
  node_require fs mods p =
    if json_valid t then match json_parse t with Some v => Some (inr v) | None => None end
    else Some (inl (SyntaxErrorJSON f)).
Proof. intros Hr Hl. unfold node_require. by rewrite Hr, Hl. Qed.

Lemma resolve_file fs p t : last p <> Some "/"%char -> fs p = Some t -> resolve fs p = Some (p, t).
Proof. intros Hl Hp. unfold resolve. rewrite bool_decide_false by done. by rewrite Hp. Qed.

(** The JSON text [JSON.stringify] writes for a value with distinct keys
    is a JSON text, and reads back as the value. *)
Lemma stringify_parse_valid v t :
  keys_unique v = true -> stringify v = Some t -> json_parse t = Some (json_norm v) /\ json_valid t = true.
Proof.
  intros Hu Ht. assert (json_parse t = Some (json_norm v)) as Hp.
  { unfold json_parse. rewrite <- (app_nil_r t) at 2.
    by rewrite (roundtrip_all v Hu t [] (S (length t)) Ht eq_refl ltac:(lia)). }
  split; [done|]. by apply (json_parse_valid _ (json_norm v)).
Qed.


Lemma node_require_code fs mods p f t :
  resolve fs p = Some (f, t) -> module_loader f <> LoadJson -> node_require fs mods p = Some (mods f).
Proof. intros Hr Hl. unfold node_require. rewrite Hr. by destruct (module_loader f). Qed.

Lemma node_require_syntax_error fs mods p t :
  last p <> Some "/"%char -> module_loader p = LoadJson -> fs p = Some t -> json_valid t = false ->
  node_require fs mods p = Some (inl (SyntaxErrorJSON p)).
Proof.
  intros Hl Hj Hp Hv. rewrite (node_require_json_file fs mods p p t) by (done || by apply resolve_file).
  by rewrite Hv.
Qed.

(** ** Properties of the loader *)


(** ** Witnesses *)

