(* ===== verification/Ring.v ===== *)
(** * The ring of ledgers: [peerToSide] and [next]

    [peerToSide] (source lines 46-48) gives the index of the peer of node
    [n] on one side.  The left peer is [n+1] and the right peer is [n-1],
    both taken modulo [ledgers.length].  [next] (lines 79 and 99) is the
    left neighbour again, written without the added length.  JS [%] is the
    truncated remainder [Z.rem].  The class [RingNeighbours] is the contract
    of a ring; [peerToSide] is proved to implement it for every non-empty
    ring. *)

From S2P Require Import Prelude.

Local Open Scope Z_scope.

Section Ring.
  (** [ledgers.length], read by both functions from the module scope. *)
Variable ledgers_length : Z.

  (** [((n + (isLeft ? 1 : -1)) + ledgers.length) % ledgers.length] *)
Definition peerToSide (isLeft : bool) (n : Z) : Z :=
    Z.rem ((n + (if isLeft then 1 else -1)) + ledgers_length) ledgers_length.

  (** [const next = (i + 1) % ledgers.length] *)
Definition next_index (i : Z) : Z := Z.rem (i + 1) ledgers_length.
End Ring.

(** ** The contract of a ring of [size] nodes, numbered [0 .. size-1] *)

Class RingNeighbours (size : Z) (left right : Z -> Z) : Prop := {
  ring_left_range n : 0 <= n < size -> 0 <= left n < size;
  ring_right_range n : 0 <= n < size -> 0 <= right n < size;
  ring_left_right n : 0 <= n < size -> left (right n) = n;
  ring_right_left n : 0 <= n < size -> right (left n) = n;
  ring_left_succ n : 0 <= n < size - 1 -> left n = n + 1;
  ring_left_last : 0 < size -> left (size - 1) = 0
}.

(** The reference ring: successor and predecessor modulo [size]. *)
Definition ring_succ (size n : Z) : Z := (n + 1) mod size.
Definition ring_pred (size n : Z) : Z := (n - 1) mod size.

Lemma ring_succ_pred size n : 0 < size -> 0 <= n < size -> ring_succ size (ring_pred size n) = n.
Proof.
  intros Hs Hn. unfold ring_succ, ring_pred.
  rewrite Zplus_mod_idemp_l, Z.sub_add. apply Z.mod_small; lia.
Qed.

Lemma ring_pred_succ size n : 0 < size -> 0 <= n < size -> ring_pred size (ring_succ size n) = n.
Proof.
  intros Hs Hn. unfold ring_succ, ring_pred.
  rewrite Zminus_mod_idemp_l, Z.add_simpl_r. apply Z.mod_small; lia.
Qed.

#[export] Instance ring_reference size : 0 < size -> RingNeighbours size (ring_succ size) (ring_pred size).
Proof.
  intros Hs. split; intros.
  - apply Z.mod_pos_bound. lia.
  - apply Z.mod_pos_bound. lia.
  - by apply ring_succ_pred.
  - by apply ring_pred_succ.
  - unfold ring_succ. apply Z.mod_small. lia.
  - unfold ring_succ. rewrite Z.sub_add. apply Z.mod_same. lia.
Qed.

(** ** [peerToSide] refines the reference ring *)

Lemma rem_nonneg_mod a b : 0 <= a -> 0 < b -> Z.rem a b = a mod b.
Proof. intros. apply Z.rem_mod_nonneg; lia. Qed.

Lemma peerToSide_left len n : 0 < len -> 0 <= n -> peerToSide len true n = ring_succ len n.
Proof.
  intros Hl Hn. unfold peerToSide, ring_succ. rewrite rem_nonneg_mod by lia.
  replace (n + 1 + len) with (n + 1 + 1 * len) by lia. apply Z.mod_add. lia.
Qed.

Lemma peerToSide_right len n : 0 < len -> 0 <= n -> peerToSide len false n = ring_pred len n.
Proof.
  intros Hl Hn. unfold peerToSide, ring_pred. rewrite rem_nonneg_mod by lia.
  replace (n + -1 + len) with (n - 1 + 1 * len) by lia. apply Z.mod_add. lia.
Qed.

Lemma next_index_left len i : 0 < len -> 0 <= i -> next_index len i = peerToSide len true i.
Proof.
  intros Hl Hi. rewrite peerToSide_left by done. unfold next_index, ring_succ.
  apply rem_nonneg_mod; lia.
Qed.


Lemma peerToSide_range len isLeft n : 0 < len -> 0 <= n -> 0 <= peerToSide len isLeft n < len.
Proof.
  intros Hl Hn. destruct isLeft;
    [rewrite peerToSide_left by done | rewrite peerToSide_right by done]; apply Z.mod_pos_bound; lia.
Qed.

(** ** Properties of [peerToSide] *)

(** C3: in a ring of [N >= 1] ledgers, for every node [n] in [0, N), the
    left peer is [(n+1) mod N] and the right peer is [(n-1+N) mod N].  Both
    are node indices in [0, N).  JS [%] never sees a negative operand here. *)
Theorem peerToSide_spec len n :
  0 < len -> 0 <= n < len ->
  peerToSide len true n = (n + 1) mod len /\ peerToSide len false n = (n - 1 + len) mod len /\
  0 <= peerToSide len true n < len /\ 0 <= peerToSide len false n < len.
Proof.
  intros Hl Hn. split_and!; try (apply peerToSide_range; lia).
  - apply peerToSide_left; lia.
  - rewrite peerToSide_right by lia. unfold ring_pred.
    replace (n - 1 + len) with (n - 1 + 1 * len) by lia. symmetry. apply Z.mod_add. lia.
Qed.

(** C20: for every non-empty ring, the two sides of [peerToSide] satisfy the
    ring contract.  They stay in range and are inverse to each other, the
    left peer of [n] is [n+1], and the left peer of the last node is node 0. *)
Theorem peerToSide_ring len :
  0 < len -> RingNeighbours len (peerToSide len true) (peerToSide len false).
Proof.
  intros Hl. pose proof (ring_reference len Hl) as R.
  pose proof (peerToSide_range len) as Hr.
  split; [intros n Hn..|intros _].
  - apply Hr; lia.
  - apply Hr; lia.
  - pose proof (Hr false n Hl ltac:(lia)).
    rewrite (peerToSide_left _ (peerToSide _ _ _)), peerToSide_right by lia. by apply ring_left_right.
  - pose proof (Hr true n Hl ltac:(lia)).
    rewrite (peerToSide_right _ (peerToSide _ _ _)), peerToSide_left by lia. by apply ring_right_left.
  - rewrite peerToSide_left by lia. by apply ring_left_succ.
  - rewrite peerToSide_left by lia. by apply ring_left_last.
Qed.

(** ** Witnesses *)

Lemma peerToSide_spec_witness :
  peerToSide 3 true 2 = (2 + 1) mod 3 /\ peerToSide 3 false 0 = (0 - 1 + 3) mod 3 /\
  0 <= peerToSide 3 true 2 < 3 /\ 0 <= peerToSide 3 false 0 < 3.
Proof.
  destruct (peerToSide_spec 3 2 ltac:(lia) ltac:(lia)) as [H1 [_ [H3 _]]].
  destruct (peerToSide_spec 3 0 ltac:(lia) ltac:(lia)) as [_ [H2 [_ H4]]].
  exact (conj H1 (conj H2 (conj H3 H4))).
Defined.

Lemma peerToSide_ring_witness : RingNeighbours 1 (peerToSide 1 true) (peerToSide 1 false).
Proof. apply peerToSide_ring. lia. Defined.
