(* ===== verification/Config.v ===== *)
(** * [createConfig]: the configuration of one ledger seen from one node

    Source lines 50-76.  The config object has the keys [currency],
    [plugin], [store] and [options], in that order.  [options] is
    [Object.assign({}, ledger.optionsCommon, side)], where [side] is
    [optionsLeft] or [optionsRight].  Then, when [ledger.rpcUri] is truthy,
    [options.rpcUri] is set to the RPC address of the peer on that side.
    Otherwise, when [ledger.rpcUris] is truthy, [options.rpcUris] is set to
    a one-key object that maps the other side's account to that address.
    Each branch writes one [console.error] line.  Property reads of a
    [null] ledger throw before anything is logged. *)

From S2P Require Import Prelude JsValue Ring.

Local Open Scope Z_scope.

(** [`http://ilp-kit${pn}:${pn + 2}010/api/peers/rpc`] *)
Definition rpc_address (pn : Z) : jstring :=
  lit "http://ilp-kit" ++ show_Z pn ++ lit ":" ++ show_Z (pn + 2) ++ lit "010/api/peers/rpc".

Definition config_object (currency plugin store : jsval) (options : props) : jsval :=
  JObject [(lit "currency", currency); (lit "plugin", plugin); (lit "store", store);
           (lit "options", JObject options)].

Section Config.
  (** The module-level [ledgers] array. *)
Variable ledgers : list jsval.

Definition ledgers_length : Z := Z.of_nat (length ledgers).

Definition createConfig (n : Z) (ledger : jsval) (isLeft : bool) : js jsval :=
    currency ← get ledger (lit "currency");
    plugin ← get ledger (lit "plugin");
    store ← get ledger (lit "store");
    common ← get ledger (lit "optionsCommon");
    side ← get ledger (if isLeft then lit "optionsLeft" else lit "optionsRight");
    let options := object_assign [] [common; side] in
    let pn := peerToSide ledgers_length isLeft n in
    otherAccount ← get ledger (if isLeft then lit "right_account" else lit "left_account");
    rpcUri ← get ledger (lit "rpcUri");
    if truthy rpcUri then
      let options := put (lit "rpcUri") (JString (rpc_address pn)) options in
      tell (ConsoleError n (default JUndefined (lookup_prop (lit "rpcUri") options)));;
      mret (config_object currency plugin store options)
    else
      rpcUris ← get ledger (lit "rpcUris");
      if truthy rpcUris then
        let account := otherAccount in
        let options := put (lit "rpcUris")
                         (JObject [(to_js_string account, JString (rpc_address pn))]) options in
        tell (ConsoleError n (default JUndefined (lookup_prop (lit "rpcUris") options)));;
        mret (config_object currency plugin store options)
      else mret (config_object currency plugin store options).
End Config.

(** A field of a ledger object, [undefined] when absent. *)
Definition field (ps : props) (k : jstring) : jsval := default JUndefined (lookup_prop k ps).

Definition side_options (isLeft : bool) : jstring :=
  if isLeft then lit "optionsLeft" else lit "optionsRight".

(** The options that [Object.assign] builds from a ledger object. *)
Definition merged_options (ps : props) (isLeft : bool) : props :=
  object_assign [] [field ps (lit "optionsCommon");
                    field ps (side_options isLeft)].

Definition ledger_config (ps : props) (opts : props) : jsval :=
  config_object (field ps (lit "currency")) (field ps (lit "plugin")) (field ps (lit "store")) opts.

(** Sample ledgers, the inputs of the witnesses. *)
Definition sample_ledger (name : string) (flags : props) : props :=
  [(lit "name", JString (lit name)); (lit "currency", JString (lit "USD"));
   (lit "plugin", JString (lit "ilp-plugin-bells")); (lit "store", JString (lit "sqlite"));
   (lit "optionsCommon", JObject [(lit "a", JNumber 1); (lit "b", JNumber 2)]);
   (lit "optionsLeft", JObject [(lit "b", JNumber 3); (lit "c", JNumber 4)]);
   (lit "optionsRight", JObject [(lit "d", JNumber 5)]);
   (lit "left_account", JString (lit (name +:+ ".left")));
   (lit "right_account", JString (lit (name +:+ ".right")))] ++ flags.

Definition sample_ring : list jsval :=
  [JObject (sample_ledger "L0" []); JObject (sample_ledger "L1" []); JObject (sample_ledger "L2" [])].

(** The shape of a ServiceConfig (spec section 3): an object with the keys
    [currency], [plugin], [store] and [options], in that order, whose
    [options] is an object. *)
Definition service_config_typed (v : jsval) : bool :=
  match v with
  | JObject ps =>
      bool_decide (map fst ps = [lit "currency"; lit "plugin"; lit "store"; lit "options"]) &&
      match lookup_prop (lit "options") ps with Some (JObject _) => true | _ => false end
  | _ => false
  end.

(** ** Lemmas *)

Lemma get_object ps k : get (JObject ps) k = mret (field ps k).
Proof. done. Qed.

Lemma get_nullish v k : nullish v = true -> get v k = throw (TypeErrorRead k).
Proof. by destruct v. Qed.

Lemma put_rpc_lookup k key v opts :
  key ∈ [lit "rpcUri"; lit "rpcUris"] -> k ∉ [lit "rpcUri"; lit "rpcUris"; lit "__proto__"] ->
  lookup_prop k (put key v opts) = lookup_prop k opts.
Proof.
  intros Hkey Hk. rewrite lookup_put by set_solver. rewrite decide_False; [done|]. set_solver.
Qed.

Lemma lookup_merged_options ps isLeft k :
  k <> lit "__proto__" ->
  lookup_prop k (merged_options ps isLeft) =
  own_lookup k (field ps (side_options isLeft)) ∪ own_lookup k (field ps (lit "optionsCommon")).
Proof. intros Hk. unfold merged_options. rewrite lookup_object_assign by done. cbn. by rewrite union_None_r. Qed.

(** [createConfig] on a ledger object, with its three branches. *)
Lemma createConfig_object ledgers n ps isLeft :
  let pn := peerToSide (ledgers_length ledgers) isLeft n in
  let opts := merged_options ps isLeft in
  let mk o := config_object (field ps (lit "currency")) (field ps (lit "plugin")) (field ps (lit "store")) o in
  createConfig ledgers n (JObject ps) isLeft =
  if truthy (field ps (lit "rpcUri")) then
    (inr (mk (put (lit "rpcUri") (JString (rpc_address pn)) opts)),
     [ConsoleError n (default JUndefined (lookup_prop (lit "rpcUri")
                        (put (lit "rpcUri") (JString (rpc_address pn)) opts)))])
  else if truthy (field ps (lit "rpcUris")) then
    let o := JObject [(to_js_string (field ps (if isLeft then lit "right_account" else lit "left_account")),
                       JString (rpc_address pn))] in
    (inr (mk (put (lit "rpcUris") o opts)),
     [ConsoleError n (default JUndefined (lookup_prop (lit "rpcUris") (put (lit "rpcUris") o opts)))])
  else (inr (mk opts), []).
Proof.
  cbn zeta. unfold createConfig. rewrite !get_object. we_simp.
  destruct (truthy _); [done|]. we_simp. by destruct (truthy _).
Qed.

(** ** Properties of [createConfig] *)

(** C4: the config copies [currency], [plugin] and [store] from the ledger.
    Its [options] merge [optionsCommon] with the side's options, and the
    side's options win on a shared key.  The keys [rpcUri] and [rpcUris]
    are set by the RPC branches, and [__proto__] is swallowed by [[Set]]. *)
Theorem createConfig_merge ledgers n ps isLeft :
  exists opts log,
    createConfig ledgers n (JObject ps) isLeft = (inr (ledger_config ps opts), log) /\
    forall k, k ∉ [lit "rpcUri"; lit "rpcUris"; lit "__proto__"] ->
      lookup_prop k opts = own_lookup k (field ps (side_options isLeft))
                           ∪ own_lookup k (field ps (lit "optionsCommon")).
Proof.
  rewrite createConfig_object. cbn zeta.
  destruct (truthy _); [|destruct (truthy _)]; eexists _, _; (split; [done|]); intros k Hk;
    rewrite ?put_rpc_lookup by set_solver; apply lookup_merged_options; set_solver.
Qed.

(** C6: when [ledger.rpcUri] is truthy, [options.rpcUri] is the RPC
    address of the peer on that side, and that address is the one line
    logged. *)
Theorem createConfig_rpcUri ledgers n ps isLeft :
  truthy (field ps (lit "rpcUri")) = true ->
  let addr := rpc_address (peerToSide (ledgers_length ledgers) isLeft n) in
  exists opts,
    createConfig ledgers n (JObject ps) isLeft = (inr (ledger_config ps opts), [ConsoleError n (JString addr)]) /\
    lookup_prop (lit "rpcUri") opts = Some (JString addr).
Proof.
  intros Hr. rewrite createConfig_object, Hr. cbn zeta.
  rewrite put_not_proto by lit_neq. rewrite lookup_set_prop, decide_True by done.
  eexists; split; [done|]. by rewrite lookup_set_prop, decide_True.
Qed.

(** C19: when [ledger.rpcUri] is falsy and [ledger.rpcUris] is truthy,
    [options.rpcUris] maps the other side's account to the peer's RPC
    address: [right_account] on the left side and [left_account] on the
    right side. *)
Theorem createConfig_rpcUris ledgers n ps isLeft :
  truthy (field ps (lit "rpcUri")) = false ->
  truthy (field ps (lit "rpcUris")) = true ->
  let addr := rpc_address (peerToSide (ledgers_length ledgers) isLeft n) in
  let account := field ps (if isLeft then lit "right_account" else lit "left_account") in
  let uris := JObject [(to_js_string account, JString addr)] in
  exists opts,
    createConfig ledgers n (JObject ps) isLeft = (inr (ledger_config ps opts), [ConsoleError n uris]) /\
    lookup_prop (lit "rpcUris") opts = Some uris.
Proof.
  intros Hr Hrs. rewrite createConfig_object, Hr, Hrs. cbn zeta.
  rewrite put_not_proto by lit_neq. rewrite lookup_set_prop, decide_True by done.
  eexists; split; [done|]. by rewrite lookup_set_prop, decide_True.
Qed.

(** C29: a ledger with neither flag gets exactly the merged options and
    logs nothing. *)
Theorem createConfig_plain ledgers n ps isLeft :
  truthy (field ps (lit "rpcUri")) = false ->
  truthy (field ps (lit "rpcUris")) = false ->
  createConfig ledgers n (JObject ps) isLeft ⇓ (ledger_config ps (merged_options ps isLeft)) logging [].
Proof. intros Hr Hrs. by rewrite createConfig_object, Hr, Hrs. Qed.

(** C27: a [null] (or [undefined]) ledger throws a [TypeError] on its first
    property read, [currency], before logging anything. *)
Theorem createConfig_nullish ledgers n ledger isLeft :
  nullish ledger = true ->
  createConfig ledgers n ledger isLeft ↯ (TypeErrorRead (lit "currency")) logging [].
Proof. intros Hn. unfold createConfig. by rewrite (get_nullish ledger (lit "currency")). Qed.

(** A ledger that is not [null] or [undefined] never makes [createConfig] throw. *)
Lemma createConfig_ok ledgers n ledger isLeft :
  nullish ledger = false -> exists c log, createConfig ledgers n ledger isLeft ⇓ c logging log.
Proof.
  intros Hn. unfold createConfig. rewrite !(get_read ledger) by done. we_simp.
  destruct (truthy _); [eauto|]. we_simp. destruct (truthy _); eauto.
Qed.

(** A ledger object never makes [createConfig] throw. *)
Lemma createConfig_object_ok ledgers n ps isLeft :
  exists c log, createConfig ledgers n (JObject ps) isLeft ⇓ c logging log.
Proof. rewrite createConfig_object. cbn zeta. destruct (truthy _); [|destruct (truthy _)]; eauto. Qed.

(** C16: [createConfig] returns a ServiceConfig for every ledger that is not
    [null] or [undefined], object or not: an object with the keys
    [currency], [plugin], [store] and [options] in that order, whose
    [options] is an object. *)
Theorem createConfig_typed ledgers n ledger isLeft :
  nullish ledger = false ->
  exists c log, createConfig ledgers n ledger isLeft ⇓ c logging log /\ service_config_typed c = true.
Proof.
  intros Hn. unfold createConfig. rewrite !(get_read ledger) by done. we_simp.
  assert (forall o, service_config_typed (config_object (read ledger (lit "currency"))
            (read ledger (lit "plugin")) (read ledger (lit "store")) o) = true) as Ht.
  { intros o. cbn. rewrite bool_decide_eq_true_2 by done. by rewrite !decide_False by lit_neq. }
  destruct (truthy _); [|we_simp; destruct (truthy _)]; we_simp; eauto.
Qed.

(** ** Witnesses *)

Lemma createConfig_rpcUri_witness :
  exists opts,
    createConfig sample_ring 0 (JObject (sample_ledger "L0" [(lit "rpcUri", JBool true)])) false =
      (inr (ledger_config (sample_ledger "L0" [(lit "rpcUri", JBool true)]) opts),
       [ConsoleError 0 (JString (lit "http://ilp-kit2:4010/api/peers/rpc"))]) /\
    lookup_prop (lit "rpcUri") opts = Some (JString (lit "http://ilp-kit2:4010/api/peers/rpc")).
Proof. exact (createConfig_rpcUri sample_ring 0 (sample_ledger "L0" [(lit "rpcUri", JBool true)]) false eq_refl). Defined.

Lemma createConfig_rpcUris_witness :
  let uris := JObject [(lit "L1.right", JString (lit "http://ilp-kit2:4010/api/peers/rpc"))] in
  exists opts,
    createConfig sample_ring 1 (JObject (sample_ledger "L1" [(lit "rpcUris", JBool true)])) true =
      (inr (ledger_config (sample_ledger "L1" [(lit "rpcUris", JBool true)]) opts),
       [ConsoleError 1 uris]) /\
    lookup_prop (lit "rpcUris") opts = Some uris.
Proof. exact (createConfig_rpcUris sample_ring 1 (sample_ledger "L1" [(lit "rpcUris", JBool true)]) true eq_refl eq_refl). Defined.

Lemma createConfig_plain_witness :
  createConfig sample_ring 0 (JObject (sample_ledger "L0" [])) true =
    (inr (ledger_config (sample_ledger "L0" [])
            [(lit "a", JNumber 1); (lit "b", JNumber 3); (lit "c", JNumber 4)]), []).
Proof. exact (createConfig_plain sample_ring 0 (sample_ledger "L0" []) true eq_refl eq_refl). Defined.

Lemma createConfig_nullish_witness :
  createConfig sample_ring 2 JNull false = (inl (TypeErrorRead (lit "currency")), []).
Proof. exact (createConfig_nullish sample_ring 2 JNull false eq_refl). Defined.

Lemma createConfig_typed_witness :
  nullish (JString (lit "L0")) = false /\
  exists c log, createConfig sample_ring 0 (JString (lit "L0")) true ⇓ c logging log /\
    service_config_typed c = true.
Proof. split; [reflexivity|]. apply createConfig_typed. reflexivity. Defined.
