(* ===== verification/Topology.v ===== *)
(** * The connector topology of one node

    [generateConnectorLedgers] (source lines 78-96) builds the
    [CONNECTOR_LEDGERS] object of node [i].  It has three computed keys, in
    order: the node's own ledger prefix [test.dev.kit<i>.] (the connector
    account on the node's own ledger), [ledgers[i].name] (the ledger on the
    node's right, configured with [createConfig(i, ledgers[i], false)]), and
    [ledgers[next].name] (the ledger on its left, configured with
    [createConfig(i, ledgers[next], true)]).  It logs [Object.keys] of the
    object and returns its [JSON.stringify].  [generateConnectorRoutes]
    (lines 98-109) builds the one default route through [ledgers[next]].
    An object literal with computed keys defines its properties in order.
    A repeated key keeps its first position and takes the later value
    ([JsValue.set_prop]). *)

From S2P Require Import Prelude JsValue Json Ring Config.

Local Open Scope Z_scope.

(** [test.dev.kit${i}.] *)
Definition kit_prefix (i : Z) : jstring := lit "test.dev.kit" ++ show_Z i ++ lit ".".

(** The value of the [test.dev.kit${i}.] key (source lines 81-89). *)
Definition connector_account_config (i : Z) : jsval :=
  JObject [(lit "currency", JString (lit "USD"));
           (lit "plugin", JString (lit "ilp-plugin-bells"));
           (lit "options", JObject
              [(lit "account", JString (lit "http://ilp-kit" ++ show_Z i ++ lit ":" ++ show_Z (i + 2)
                                        ++ lit "010/ledger/accounts/connector"));
               (lit "password", JString (lit "password"));
               (lit "username", JString (lit "connector"))])].

(** [JSON.stringify] of an object, which is always a string. *)
Definition stringify_object (ps : props) : jstring := default [] (stringify (JObject ps)).

(** The one route of [generateConnectorRoutes]. *)
Definition route_object (name account : jsval) : jsval :=
  JObject [(lit "targetPrefix", JString []); (lit "connectorLedger", name);
           (lit "connectorAccount", account)].

Section Topology.
  (** The module-level [ledgers] array. *)
Variable ledgers : list jsval.

  (** [ledgers[i]]; an index past the end reads [undefined]. *)
Definition ledger_at (i : Z) : jsval := default JUndefined (ledgers !! Z.to_nat i).

  (** The object literal of lines 80-92, evaluated left to right. *)
Definition connectorLedgers (i : Z) : js props :=
    let next := next_index (ledgers_length ledgers) i in
    let o := set_prop (kit_prefix i) (connector_account_config i) [] in
    name_i ← get (ledger_at i) (lit "name");
    config_i ← createConfig ledgers i (ledger_at i) false;
    let o := set_prop (to_js_string name_i) config_i o in
    name_next ← get (ledger_at next) (lit "name");
    config_next ← createConfig ledgers i (ledger_at next) true;
    mret (set_prop (to_js_string name_next) config_next o).

Definition generateConnectorLedgers (i : Z) : js jstring :=
    o ← connectorLedgers i;
    tell (ConsoleError i (JArray (map JString (object_keys o))));;
    mret (stringify_object o).

Definition generateConnectorRoutes (i : Z) : js jstring :=
    let next := next_index (ledgers_length ledgers) i in
    let ledger := ledger_at next in
    name ← get ledger (lit "name");
    account ← get ledger (lit "right_account");
    let connectorRoutes := JArray [route_object name account] in
    tell (ConsoleError i connectorRoutes);;
    mret (default [] (stringify connectorRoutes)).
End Topology.

(** The config [createConfig] returns for a ledger object. *)
Definition config_of (ledgers : list jsval) (i : Z) (ps : props) (isLeft : bool) : jsval :=
  match fst (createConfig ledgers i (JObject ps) isLeft) with inr c => c | inl _ => JUndefined end.

Definition config_log (ledgers : list jsval) (i : Z) (ps : props) (isLeft : bool) : list event :=
  snd (createConfig ledgers i (JObject ps) isLeft).

(** A two-ledger ring whose second name, [7], is an array index. *)
Definition index_named_ring : list jsval :=
  [JObject (sample_ledger "L0" []); JObject (sample_ledger "7" [])].

(** ** Lemmas *)

Lemma createConfig_config_of ledgers i ps isLeft :
  createConfig ledgers i (JObject ps) isLeft ⇓ (config_of ledgers i ps isLeft) logging config_log ledgers i ps isLeft.
Proof.
  unfold config_of, config_log. destruct (createConfig_object_ok ledgers i ps isLeft) as (c & l & ->). done.
Qed.

(** [connectorLedgers] on two ledger objects. *)
Lemma connectorLedgers_objects ledgers i ps_i ps_n :
  ledger_at ledgers i = JObject ps_i ->
  ledger_at ledgers (next_index (ledgers_length ledgers) i) = JObject ps_n ->
  connectorLedgers ledgers i =
    (inr (set_prop (to_js_string (field ps_n (lit "name"))) (config_of ledgers i ps_n true)
           (set_prop (to_js_string (field ps_i (lit "name"))) (config_of ledgers i ps_i false)
              [(kit_prefix i, connector_account_config i)])),
     config_log ledgers i ps_i false ++ config_log ledgers i ps_n true).
Proof.
  intros Hi Hn. unfold connectorLedgers. rewrite Hi, Hn, !get_object, !createConfig_config_of.
  we_simp. cbn. by rewrite app_nil_r.
Qed.

Lemma keys_set_prop3 k0 v0 k1 v1 k2 v2 :
  map fst (set_prop k2 v2 (set_prop k1 v1 [(k0, v0)])) =
  [k0] ++ (if decide (k1 = k0) then [] else [k1]) ++ (if decide (k2 ∈ [k0; k1]) then [] else [k2]).
Proof.
  rewrite !keys_set_prop. cbn [map fst]. repeat case_decide; cbn; try done; set_solver.
Qed.

Lemma generateConnectorLedgers_objects ledgers i ps_i ps_n :
  ledger_at ledgers i = JObject ps_i ->
  ledger_at ledgers (next_index (ledgers_length ledgers) i) = JObject ps_n ->
  let o := set_prop (to_js_string (field ps_n (lit "name"))) (config_of ledgers i ps_n true)
             (set_prop (to_js_string (field ps_i (lit "name"))) (config_of ledgers i ps_i false)
                [(kit_prefix i, connector_account_config i)]) in
  generateConnectorLedgers ledgers i =
    (inr (stringify_object o),
     config_log ledgers i ps_i false ++ config_log ledgers i ps_n true
       ++ [ConsoleError i (JArray (map JString (object_keys o)))]).
Proof.
  intros Hi Hn. cbn zeta. unfold generateConnectorLedgers.
  rewrite (connectorLedgers_objects _ _ ps_i ps_n) by done.
  rewrite bind_pair_inr, tell_bind, mret_pair. cbn [fst snd]. by rewrite app_assoc.
Qed.

(** ** Properties of the topology *)

(** C5: for two ledger objects at [i] and [next], [CONNECTOR_LEDGERS] has
    the key [test.dev.kit<i>.], then [ledgers[i].name], then
    [ledgers[next].name], each written once in its first position.  The
    next ledger's key holds its left-side config.  The node's own ledger key
    holds its right-side config when the names differ.  The connector
    account survives when no name equals the prefix.  The keys are logged
    after the diagnostics of both [createConfig] calls. *)
Theorem generateConnectorLedgers_keys ledgers i ps_i ps_n :
  ledger_at ledgers i = JObject ps_i ->
  ledger_at ledgers (next_index (ledgers_length ledgers) i) = JObject ps_n ->
  let k_i := to_js_string (field ps_i (lit "name")) in
  let k_n := to_js_string (field ps_n (lit "name")) in
  exists o,
    generateConnectorLedgers ledgers i =
      (inr (stringify_object o),
       config_log ledgers i ps_i false ++ config_log ledgers i ps_n true
         ++ [ConsoleError i (JArray (map JString (object_keys o)))]) /\
    map fst o = [kit_prefix i] ++ (if decide (k_i = kit_prefix i) then [] else [k_i])
                ++ (if decide (k_n ∈ [kit_prefix i; k_i]) then [] else [k_n]) /\
    lookup_prop k_n o = Some (config_of ledgers i ps_n true) /\
    (k_i <> k_n -> lookup_prop k_i o = Some (config_of ledgers i ps_i false)) /\
    (kit_prefix i <> k_i -> kit_prefix i <> k_n ->
       lookup_prop (kit_prefix i) o = Some (connector_account_config i)).
Proof.
  intros Hi Hn k_i k_n. rewrite (generateConnectorLedgers_objects _ _ ps_i ps_n) by done.
  eexists; split_and!; [done|apply keys_set_prop3|..]; rewrite ?lookup_set_prop.
  - by rewrite decide_True.
  - intros Hne. rewrite decide_False, decide_True by done. done.
  - intros H1 H2. cbn. rewrite decide_False, decide_False, decide_True by done. done.
Qed.

(** C30: in a ring of one ledger, [ledgers[i]] and [ledgers[next]] are the
    same ledger.  Its key is defined twice, so [CONNECTOR_LEDGERS] has two
    entries, not three.  The ledger's right-side config is overwritten by
    its left-side config. *)
Theorem generateConnectorLedgers_single ps :
  to_js_string (field ps (lit "name")) <> kit_prefix 0 ->
  exists log,
    generateConnectorLedgers [JObject ps] 0 =
      (inr (stringify_object [(kit_prefix 0, connector_account_config 0);
                              (to_js_string (field ps (lit "name")), config_of [JObject ps] 0 ps true)]),
       log).
Proof.
  intros Hne. rewrite (generateConnectorLedgers_objects _ _ ps ps) by done. cbn zeta.
  rewrite (set_prop_fresh _ _ [_]), (set_prop_last _ _ _ [_]) by set_solver. by eexists.
Qed.

Lemma join3 (sep a b c : jstring) : join sep [a; b; c] = a ++ sep ++ b ++ sep ++ c.
Proof. cbn. by rewrite !app_nil_r, <- !app_assoc. Qed.

(** C18: when [ledgers[next]] is an object whose [name] and
    [right_account] are strings, [CONNECTOR_ROUTES] is the JSON text
    [[{"targetPrefix":"","connectorLedger":<name>,"connectorAccount":<account>}]],
    and the route array is the one line logged. *)
Theorem generateConnectorRoutes_json ledgers i ps name account :
  ledger_at ledgers (next_index (ledgers_length ledgers) i) = JObject ps ->
  field ps (lit "name") = JString name ->
  field ps (lit "right_account") = JString account ->
  let member k v := quote (lit k) ++ [":"%char] ++ quote v in
  generateConnectorRoutes ledgers i =
    (inr (["["%char; "{"%char] ++ member "targetPrefix" [] ++ [","%char]
          ++ member "connectorLedger" name ++ [","%char]
          ++ member "connectorAccount" account ++ ["}"%char; "]"%char]),
     [ConsoleError i (JArray [route_object (JString name) (JString account)])]).
Proof.
  intros Hn Hname Hacc. unfold generateConnectorRoutes. cbn zeta.
  rewrite Hn, !get_object, Hname, Hacc, !bind_ret_l, tell_bind, mret_pair. cbn [fst snd].
  do 2 f_equal. unfold stringify. rewrite serialize_array. cbn [map default].
  unfold route_object. rewrite serialize_object. cbn [map fst snd serialize].
  rewrite own_keys_order_no_index by (repeat constructor; vm_compute; reflexivity).
  cbn [omap list_omap member fst snd default from_option id]. rewrite join1, join3.
  list_norm. reflexivity.
Qed.

(** C28: a [null] ledger at position [next] makes [generateConnectorRoutes]
    throw a [TypeError] on reading [name], and nothing is logged. *)
Theorem generateConnectorRoutes_nullish ledgers i :
  nullish (ledger_at ledgers (next_index (ledgers_length ledgers) i)) = true ->
  generateConnectorRoutes ledgers i ↯ (TypeErrorRead (lit "name")) logging [].
Proof. intros Hn. unfold generateConnectorRoutes. cbn zeta. rewrite (get_nullish _ (lit "name")) by done. reflexivity. Qed.


(** ** Witnesses *)

Lemma generateConnectorLedgers_keys_witness :
  exists o log,
    generateConnectorLedgers sample_ring 0 = (inr (stringify_object o), log) /\
    map fst o = [kit_prefix 0; lit "L0"; lit "L1"].
Proof.
  destruct (generateConnectorLedgers_keys sample_ring 0 (sample_ledger "L0" []) (sample_ledger "L1" [])
              eq_refl eq_refl) as (o & Hg & Hk & _).
  eexists o, _. split; [exact Hg|]. rewrite Hk. vm_compute. reflexivity.
Defined.

Lemma generateConnectorLedgers_single_witness :
  exists log,
    generateConnectorLedgers [JObject (sample_ledger "L0" [])] 0 =
      (inr (stringify_object [(kit_prefix 0, connector_account_config 0);
         (lit "L0", config_of [JObject (sample_ledger "L0" [])] 0 (sample_ledger "L0" []) true)]), log).
Proof.
  exact (generateConnectorLedgers_single (sample_ledger "L0" []) ltac:(vm_compute; congruence)).
Defined.

Lemma generateConnectorRoutes_json_witness :
  let member k v := quote (lit k) ++ [":"%char] ++ quote v in
  generateConnectorRoutes sample_ring 2 =
    (inr (["["%char; "{"%char] ++ member "targetPrefix" [] ++ [","%char]
          ++ member "connectorLedger" (lit "L0") ++ [","%char]
          ++ member "connectorAccount" (lit "L0.right") ++ ["}"%char; "]"%char]),
     [ConsoleError 2 (JArray [route_object (JString (lit "L0")) (JString (lit "L0.right"))])]).
Proof. exact (generateConnectorRoutes_json sample_ring 2 (sample_ledger "L0" []) _ _ eq_refl eq_refl eq_refl). Defined.

Lemma generateConnectorRoutes_nullish_witness :
  generateConnectorRoutes [JObject (sample_ledger "L0" []); JNull] 0 = (inl (TypeErrorRead (lit "name")), []).
Proof. exact (generateConnectorRoutes_nullish [JObject (sample_ledger "L0" []); JNull] 0 eq_refl). Defined.
