(* ===== verification/Console.v ===== *)
(** * The text of the diagnostics: [console.error] and [util.inspect]

    The script writes four kinds of diagnostics: [console.error(n, rpcUri)]
    (line 66), [console.error(n, rpcUris)] (line 72),
    [console.error(i, Object.keys(connectorLedgers))] (line 94) and
    [console.error(i, connectorRoutes)] (line 107).  [console.error] formats
    its arguments with [util.format]: a number argument is printed by
    [util.inspect], a string argument as it is, and any other value by
    [util.inspect]; the arguments are joined by a space and the line ends
    with a newline.  [util.inspect] is Node's (lib/internal/util/inspect.js),
    not code of this repository, so it is modelled from its behaviour
    with the options [console] uses when stderr is not a terminal: no
    colours, [depth] 2, [breakLength] 128, [compact] 3,
    [maxStringLength] 10000.
    - [str_escape] is [strEscape]: single quotes, or double quotes when the
      string has a single quote and no double quote, or backticks when it
      has both but no backtick and no [${]; the characters below 32, the
      chosen quote if it is a single quote, the backslash and 127-159 are
      escaped.
    - [format_string] is [formatPrimitive] on a string: a string longer
      than 16 characters and than the line left is split after each
      newline into pieces joined by [ +]; a string longer than 10000
      characters is cut, with a trailer.
    - [inspect_go] is [formatValue]/[formatRaw]: nesting past [depth] prints
      [[Array]] or [[Object]], an empty container prints [[]] or [{}], and
      [reduce_to_single] is [reduceToSingleString], which puts the entries
      on one line when they fit in [breakLength] and no nested container
      three levels down was the last one formatted.  The context's
      [currentDepth] is the state of the printer: [inspect_go] returns the
      depth it leaves behind.
    An array of more than 6 entries, which Node groups into columns, is
    outside the model ([None]); the script logs arrays of at most 3.

    The lemmas show, with the [logs] hints of the prelude, that every
    event of node [i] is a [console.error(i, ...)]; the properties give
    the lines of node [i] their prefix and the [Object.keys] line its
    exact text on either side of [breakLength]. *)

From S2P Require Import Prelude JsValue Json Ring Config Topology Document.

Local Open Scope N_scope.

(** ** Strings *)

(** An upper-case hexadecimal digit. *)
Definition hex_digit (d : N) : ascii := if d <? 10 then digit d else ascii_of_N (55 + d).

(** The [meta] table: how [strEscape] writes an escaped character. *)
Definition escape_meta (c : ascii) : jstring :=
  let n := N_of_ascii c in
  if n =? 8 then [bslash; "b"%char]
  else if n =? 9 then [bslash; "t"%char]
  else if n =? 10 then [bslash; "n"%char]
  else if n =? 12 then [bslash; "f"%char]
  else if n =? 13 then [bslash; "r"%char]
  else if n =? 39 then [bslash; sq]
  else if n =? 92 then [bslash; bslash]
  else [bslash; "x"%char; hex_digit (n / 16); hex_digit (n mod 16)].

(** The characters [strEscape] escapes; [quote] is the code of the quote
    character when it is the single quote. *)
Definition needs_escape (quote : option N) (c : ascii) : bool :=
  let n := N_of_ascii c in
  bool_decide (Some n = quote) || (n =? 92) || (n <? 32) || ((126 <? n) && (n <? 160)).

Fixpoint has_dollar_brace (s : jstring) : bool :=
  match s with
  | c :: r => (bool_decide (c = "$"%char) && match r with d :: _ => bool_decide (d = "{"%char) | [] => false end)
              || has_dollar_brace r
  | [] => false
  end.

Definition backtick : ascii := "096"%char.

(** [strEscape]: the quote character, then the escaped text. *)
Definition str_escape (s : jstring) : jstring :=
  let q := if bool_decide (sq ∈ s) then
             if bool_decide (dq ∉ s) then dq
             else if bool_decide (backtick ∉ s) && negb (has_dollar_brace s) then backtick
             else sq
           else sq in
  let code := if bool_decide (q = sq) then Some 39 else None in
  [q] ++ concat (map (fun c => if needs_escape code c then escape_meta c else [c]) s) ++ [q].

(** [value.split(/(?<=\n)/)]: the pieces after each newline. *)
Fixpoint split_nl_go (acc s : jstring) : list jstring :=
  match s with
  | [] => [acc]
  | c :: r =>
      if decide (c = newline) then
        match r with [] => [acc ++ [c]] | _ => (acc ++ [c]) :: split_nl_go [] r end
      else split_nl_go (acc ++ [c]) r
  end.

Definition break_length : nat := 128.
Definition max_string_length : nat := 10000.

(** [formatPrimitive] on a string at indentation [lvl]. *)
Definition format_string (lvl : nat) (s : jstring) : jstring :=
  let len := length s in
  let cut := bool_decide (max_string_length < len)%nat in
  let s1 := if cut then take max_string_length s else s in
  let remaining := (len - max_string_length)%nat in
  let trailer := if cut then lit "... " ++ show_N (N.of_nat remaining) ++ lit " more character"
                             ++ (if bool_decide (1 < remaining)%nat then lit "s" else [])
                 else [] in
  (if bool_decide (16 < length s1)%nat && bool_decide (break_length - lvl - 4 < length s1)%nat
   then join (lit " +" ++ [newline] ++ replicate (lvl + 2) " "%char) (map str_escape (split_nl_go [] s1))
   else str_escape s1) ++ trailer.

(** ** Objects and arrays *)

Definition ident_start (c : ascii) : bool :=
  let n := N_of_ascii c in ((65 <=? n) && (n <=? 90)) || ((97 <=? n) && (n <=? 122)) || (n =? 95).

Definition ident_char (c : ascii) : bool := ident_start c || is_digit c.

(** [keyStrRegExp = /^[a-zA-Z_][a-zA-Z_0-9]*$/] *)
Definition is_ident (k : jstring) : bool :=
  match k with c :: r => ident_start c && forallb ident_char r | [] => false end.

(** The name [formatProperty] prints for a key. *)
Definition key_name (k : jstring) : jstring :=
  if decide (k = lit "__proto__") then lit "['__proto__']"
  else if is_ident k then k else str_escape k.

(** [isBelowBreakLength] *)
Definition below_break (output : list jstring) (start : nat) : bool :=
  let total := (length output + start)%nat in
  bool_decide (total + length output <= break_length)%nat &&
  bool_decide (total + sum_list (map length output) <= break_length)%nat.

(** [reduceToSingleString] with [compact] 3; [combine] says whether the
    entries may go on one line ([currentDepth - recurseTimes < compact]). *)
Definition reduce_to_single (lvl : nat) (opn cls : jstring) (output : list jstring) (combine : bool) : jstring :=
  let start := (length output + lvl + length opn + 10)%nat in
  let joined := join (lit ", ") output in
  if combine && below_break output start && negb (bool_decide (newline ∈ joined))
  then opn ++ [" "%char] ++ joined ++ [" "%char] ++ cls
  else let ind := [newline] ++ replicate lvl " "%char in
       opn ++ ind ++ lit "  " ++ join (lit "," ++ ind ++ lit "  ") output ++ ind ++ cls.

(** The [currentDepth] a sequence of entries leaves: the one of the last
    entry that set it. *)
Definition last_depth (d : nat) (ds : list (option nat)) : nat := foldl (fun acc o => default acc o) d ds.

(** [formatValue] of [v] at nesting [rt] and indentation [lvl]: the text
    and the [currentDepth] it sets, if it sets one. *)
Fixpoint inspect_go (rt lvl : nat) (v : jsval) {struct v} : option (jstring * option nat) :=
  match v with
  | JUndefined => Some (lit "undefined", None)
  | JNull => Some (lit "null", None)
  | JBool b => Some (if b then lit "true" else lit "false", None)
  | JNumber z => Some (show_Z z, None)
  | JString s => Some (format_string lvl s, None)
  | JArray xs =>
      match xs with
      | [] => Some (lit "[]", None)
      | _ =>
          if bool_decide (2 < rt)%nat then Some (lit "[Array]", None)
          else if bool_decide (6 < length xs)%nat then None
          else
            rs ← mapM (inspect_go (S rt) (lvl + 2)) xs;
            let cur := last_depth (S rt) (map snd rs) in
            Some (reduce_to_single lvl (lit "[") (lit "]") (map fst rs) (bool_decide (cur - S rt < 3)%nat),
                  Some cur)
      end
  | JObject ps =>
      match ps with
      | [] => Some (lit "{}", None)
      | _ =>
          if bool_decide (2 < rt)%nat then Some (lit "[Object]", None)
          else
            rs ← mapM (fun kx => r ← inspect_go (S rt) (lvl + 2) kx.2; Some (kx.1, r)) ps;
            let rs := own_keys_order rs in
            let cur := last_depth (S rt) (map (fun kr => kr.2.2) rs) in
            Some (reduce_to_single lvl (lit "{") (lit "}") (map (fun kr => key_name kr.1 ++ lit ": " ++ kr.2.1) rs)
                    (bool_decide (cur - S rt < 3)%nat),
                  Some cur)
      end
  end.

(** [util.inspect(v)] *)
Definition inspect (v : jsval) : option jstring := r ← inspect_go 0 0 v; Some r.1.

(** ** The line [console.error(n, v)] writes *)

Definition event_index (e : event) : Z := match e with ConsoleError n _ => n end.

Definition diagnostic_line (e : event) : option jstring :=
  match e with
  | ConsoleError n v =>
      t ← match v with JString s => Some s | _ => inspect v end;
      Some (show_Z n ++ [" "%char] ++ t ++ [newline])
  end.

(** The stderr text of a list of diagnostics. *)
Definition diagnostics_text (logs : list event) : option jstring :=
  @concat ascii <$> mapM diagnostic_line logs.

(** A string [strEscape] writes between single quotes as it is: no
    character it escapes, and no longer than [maxStringLength]. *)
Definition plain_string (k : jstring) : bool :=
  bool_decide (length k <= max_string_length)%nat && forallb (fun c => negb (needs_escape (Some 39) c)) k.

(** ** Lemmas: which node a diagnostic belongs to *)

Lemma Forall_get (P : event -> Prop) v k : Forall P (snd (get v k)).
Proof. destruct v; constructor. Qed.

#[local] Hint Resolve Forall_get : logs.

(** One step of the proof that a computation logs only events of a kind. *)
Ltac logs_step :=
  first [ progress cbn zeta
        | solve [eauto with logs]
        | apply Forall_bind; [| intros ?]
        | case_match ].

Lemma createConfig_log_index ledgers n ledger isLeft :
  Forall (fun e => event_index e = n) (snd (createConfig ledgers n ledger isLeft)).
Proof. unfold createConfig. repeat logs_step. Qed.

#[local] Hint Resolve createConfig_log_index : logs.

(** Every event of node [i] is a [console.error(i, ...)]. *)
Lemma node_log_index ledgers i : Forall (fun e => event_index e = i) (node_log ledgers i).
Proof.
  unfold node_log, render_node, generateConnectorLedgers, generateConnectorRoutes, connectorLedgers.
  repeat logs_step.
Qed.

(** ** Lemmas: the text of plain strings *)

Lemma needs_escape_sq : needs_escape (Some 39) sq = true.
Proof. reflexivity. Qed.

Lemma needs_escape_newline q : needs_escape q newline = true.
Proof. unfold needs_escape. cbn. by rewrite orb_true_r. Qed.

Lemma plain_string_forallb k : plain_string k = true -> forallb (fun c => negb (needs_escape (Some 39) c)) k = true.
Proof. unfold plain_string. rewrite andb_true_iff. tauto. Qed.

Lemma plain_string_not_elem k c : plain_string k = true -> needs_escape (Some 39) c = true -> c ∉ k.
Proof.
  intros Hk Hc Hin. apply plain_string_forallb in Hk.
  pose proof (forallb_elem _ _ _ Hk Hin) as Hf. cbn beta in Hf. by rewrite Hc in Hf.
Qed.

Lemma concat_map_unescaped (f : ascii -> bool) (g : ascii -> jstring) k :
  forallb (fun c => negb (f c)) k = true -> concat (map (fun c => if f c then g c else [c]) k) = k.
Proof.
  induction k as [|c k IH]; [done|]. cbn. rewrite andb_true_iff, negb_true_iff. intros [-> Hk].
  cbn. by rewrite IH.
Qed.

Lemma str_escape_plain k : plain_string k = true -> str_escape k = sq :: k ++ [sq].
Proof.
  intros Hk. unfold str_escape.
  rewrite bool_decide_false by (apply (plain_string_not_elem k sq Hk), needs_escape_sq).
  rewrite bool_decide_true by done. cbn. f_equal. f_equal.
  by apply concat_map_unescaped, plain_string_forallb.
Qed.

Lemma split_nl_go_plain acc s : newline ∉ s -> split_nl_go acc s = [acc ++ s].
Proof.
  revert acc. induction s as [|c s IH]; intros acc Hs; cbn; [by rewrite app_nil_r|].
  rewrite decide_False by set_solver. rewrite IH by set_solver. by rewrite <- app_assoc.
Qed.

(** A plain string prints between single quotes at any indentation. *)
Lemma format_string_plain lvl k : plain_string k = true -> format_string lvl k = sq :: k ++ [sq].
Proof.
  intros Hk. assert (length k <= max_string_length)%nat as Hl
    by (unfold plain_string in Hk; apply andb_true_iff in Hk as [Hk _]; by apply bool_decide_eq_true in Hk).
  unfold format_string. rewrite (bool_decide_false (max_string_length < length k)%nat) by lia. rewrite app_nil_r.
  rewrite split_nl_go_plain by (apply (plain_string_not_elem k newline Hk), needs_escape_newline).
  cbn [map app]. destruct (_ && _); [rewrite join1|]; by apply str_escape_plain.
Qed.

Lemma mapM_plain_strings rt lvl ks :
  Forall (fun k => plain_string k = true) ks ->
  mapM (inspect_go rt lvl) (map JString ks) = Some (map (fun k => (sq :: k ++ [sq], None)) ks).
Proof.
  induction 1 as [|k ks Hk _ IH]; [done|]. cbn. rewrite format_string_plain by done. by rewrite IH.
Qed.

Lemma last_depth_none {A} d (g : A -> option nat) xs : (forall x, g x = None) -> last_depth d (map g xs) = d.
Proof. intros Hg. unfold last_depth. induction xs as [|x xs IH]; cbn; [done|]. by rewrite Hg. Qed.

(** [util.inspect] of a non-empty array of at most 6 plain strings. *)
Lemma inspect_plain_array ks :
  ks <> [] -> (length ks <= 6)%nat -> Forall (fun k => plain_string k = true) ks ->
  inspect (JArray (map JString ks)) =
    Some (reduce_to_single 0 (lit "[") (lit "]") (map (fun k => sq :: k ++ [sq]) ks) true).
Proof.
  intros Hne Hlen Hks. unfold inspect. destruct ks as [|k ks']; [done|].
  pose proof (mapM_plain_strings 1 2 _ Hks) as Hm. cbn [map] in Hm.
  cbn [map inspect_go Nat.add]. rewrite Hm.
  rewrite !bool_decide_false by (cbn [length] in *; rewrite ?length_map; lia). cbn [mbind option_bind fst].
  rewrite <- !(map_cons (fun k => (sq :: k ++ [sq], None))), !map_map, (last_depth_none 1) by done.
  by rewrite bool_decide_true by lia.
Qed.

Lemma sum_quoted_lengths ks :
  sum_list (map length (map (fun k => sq :: k ++ [sq]) ks)) = sum_list (map (fun k => length k + 2)%nat ks).
Proof. rewrite map_map. f_equal. apply map_ext. intros k. cbn. rewrite length_app. cbn. lia. Qed.

Lemma quoted_no_newline ks :
  Forall (fun k => plain_string k = true) ks -> newline ∉ join (lit ", ") (map (fun k => sq :: k ++ [sq]) ks).
Proof.
  intros Hks. apply join_avoid; [decide_closed|]. intros x (k & -> & Hk)%elem_of_map.
  rewrite Forall_forall in Hks. pose proof (plain_string_not_elem k newline (Hks k Hk) (needs_escape_newline _)).
  set_solver.
Qed.

Lemma diagnostic_line_shape e t :
  diagnostic_line e = Some t -> exists body, t = show_Z (event_index e) ++ " "%char :: body ++ [newline].
Proof. destruct e as [n v]. cbn. intros (s & _ & [= <-])%bind_Some. by exists s. Qed.

(** ** Properties of the diagnostics *)


(** C40: the stderr text the diagnostics of node [i] write is a sequence
    of lines, each of which starts with the index [i] and a space and ends
    with a newline: every [console.error] of one iteration of the loop
    names the node it belongs to. *)
Theorem node_diagnostics_lines ledgers i t :
  diagnostics_text (node_log ledgers i) = Some t ->
  exists lines, t = concat lines /\
    Forall (fun l => exists body, l = show_Z i ++ " "%char :: body ++ [newline]) lines.
Proof.
  unfold diagnostics_text. destruct (mapM diagnostic_line _) as [lines|] eqn:E; cbn; [|done].
  intros [= <-]. exists lines. split; [done|].
  apply mapM_Some_1 in E. pose proof (node_log_index ledgers i) as Hi.
  induction E as [|e l e' l' He _ IH]; [done|]. inversion_clear Hi as [|? ? Hei Hl].
  constructor; [|by apply IH]. rewrite <- Hei. by apply diagnostic_line_shape.
Qed.

(** ** Witnesses *)


Lemma node_diagnostics_lines_witness :
  exists t, diagnostics_text (node_log sample_ring 0) = Some t /\
    exists lines, t = concat lines /\
      Forall (fun l => exists body, l = show_Z 0 ++ " "%char :: body ++ [newline]) lines.
Proof.
  eexists. split; [vm_compute; reflexivity|]. apply (node_diagnostics_lines sample_ring 0). vm_compute. reflexivity.
Defined.
