(* ===== verification/Loop.v ===== *)
(** * The [for] loop as a transition system

    Source lines 111-163:
    [let file = ''; file += header; for (let i = 0; i < ledgers.length; ++i) { file += `...` }].
    [Document.generate] models the loop as a fold over the list of node
    indices.  This file models it the way the code runs it.  A
    configuration holds the loop variable [i], the text [file] built so far
    and the [console.error] lines written so far.  One step evaluates the
    test [i < ledgers.length]: when it fails, the loop exits; when it holds,
    the step runs one iteration of the body, whose template literal calls
    [generateConnectorLedgers(i)] and [generateConnectorRoutes(i)]
    ([Document.render_node]), and then [++i].  An iteration that throws
    ends the run with its exception.

    The theorems: the step relation is deterministic and computed by
    [step_fn]; every reachable configuration satisfies the loop invariant;
    every run terminates; every run reaches a final configuration; and the
    final configuration holds what [generate] computes, so the fold and the
    loop are equivalent. *)

From Stdlib Require Import Wf_nat.
From stdpp Require Import relations.
From S2P Require Import Prelude JsValue Ring Config Topology Document.

Local Open Scope Z_scope.

(** A configuration of the loop: running with [i], [file] and the log, or
    exited with [file], or stopped by an exception. *)
Inductive config :=
| Running (i : Z) (file : jstring) (log : list event)
| Done (file : jstring) (log : list event)
| Crashed (e : exn) (log : list event).

Section Loop.
Variable ledgers : list jsval.

(** [let file = '']; [file += header]; [let i = 0]. *)
Definition loop_init (header : jstring) : config := Running 0 ([] ++ header) [].

(** One evaluation of the loop test, and of the body when the test holds. *)
Inductive step : config -> config -> Prop :=
| step_exit i file log :
    ~ (i < ledgers_length ledgers) -> step (Running i file log) (Done file log)
| step_body i file log block log' :
    i < ledgers_length ledgers -> render_node ledgers i = (inr block, log') ->
    step (Running i file log) (Running (i + 1) (file ++ block) (log ++ log'))
| step_throw i file log e log' :
    i < ledgers_length ledgers -> render_node ledgers i = (inl e, log') ->
    step (Running i file log) (Crashed e (log ++ log')).

(** The same step, computed. *)
Definition step_fn (c : config) : option config :=
  match c with
  | Running i file log =>
      if decide (i < ledgers_length ledgers) then
        match render_node ledgers i with
        | (inr block, log') => Some (Running (i + 1) (file ++ block) (log ++ log'))
        | (inl e, log') => Some (Crashed e (log ++ log'))
        end
      else Some (Done file log)
  | _ => None
  end.

(** [n] steps, computed. *)
Fixpoint run_steps (n : nat) (c : config) : config :=
  match n with
  | O => c
  | S n' => match step_fn c with Some c' => run_steps n' c' | None => c end
  end.

(** What a final configuration gives the rest of the script. *)
Definition outcome_of (c : config) : js jstring :=
  match c with
  | Done file log => (inr file, log)
  | Crashed e log => (inl e, log)
  | Running _ file log => (inr file, log)
  end.

(** The indices [0 .. i-1] the loop has run, and [i .. N-1] it has left. *)
Definition done_indices (i : Z) : list Z := map Z.of_nat (seq 0 (Z.to_nat i)).
Definition todo_indices (i : Z) : list Z :=
  map Z.of_nat (seq (Z.to_nat i) (length ledgers - Z.to_nat i)).

(** The result of running the loop to its end from a configuration. *)
Definition run_from (c : config) : js jstring :=
  match c with
  | Running i file log =>
      let r := render_loop ledgers file (todo_indices i) in (fst r, log ++ snd r)
  | _ => outcome_of c
  end.

(** The loop invariant: after [i] iterations, [file] is the header and the
    blocks of nodes [0 .. i-1], and the log is their diagnostics.  An exit
    comes after all [N] iterations; an exception comes from node [i]. *)
Definition loop_inv (header : jstring) (c : config) : Prop :=
  match c with
  | Running i file log =>
      0 <= i <= ledgers_length ledgers /\
      file = header ++ concat (map (node_text ledgers) (done_indices i)) /\
      log = concat (map (node_log ledgers) (done_indices i))
  | Done file log =>
      file = header ++ concat (map (node_text ledgers) (node_indices ledgers)) /\
      log = concat (map (node_log ledgers) (node_indices ledgers))
  | Crashed e log =>
      exists i, 0 <= i < ledgers_length ledgers /\ fst (render_node ledgers i) = inl e /\
        log = concat (map (node_log ledgers) (done_indices i)) ++ node_log ledgers i
  end.

(** A measure every step decreases. *)
Definition measure (c : config) : nat :=
  match c with Running i _ _ => S (Z.to_nat (ledgers_length ledgers - i)) | _ => O end.
End Loop.

Arguments step_exit {ledgers}.
Arguments step_body {ledgers}.
Arguments step_throw {ledgers}.

(** ** The step relation *)

Section Steps.
Variable ledgers : list jsval.
Implicit Types (c : config).

Lemma step_fn_spec c c' : step ledgers c c' <-> step_fn ledgers c = Some c'.
Proof.
  split.
  - intros []; cbn; [rewrite decide_False by done; done|rewrite decide_True by done..].
    + by match goal with H : render_node _ _ = _ |- _ => rewrite H end.
    + by match goal with H : render_node _ _ = _ |- _ => rewrite H end.
  - destruct c as [i file log| |]; cbn; [|done|done]. case_decide; [|intros [= <-]; by constructor].
    destruct (render_node ledgers i) as [[e|b] l] eqn:E; intros [= <-]; by econstructor.
Qed.

Lemma step_det c c1 c2 : step ledgers c c1 -> step ledgers c c2 -> c1 = c2.
Proof. rewrite !step_fn_spec. congruence. Qed.

(** A running configuration always steps; the others never do. *)
Lemma nf_step c : nf (step ledgers) c <-> match c with Running _ _ _ => False | _ => True end.
Proof.
  unfold nf, red. setoid_rewrite step_fn_spec. destruct c as [i file log| |]; cbn.
  - split; [|done]. intros H. apply H. case_decide; [|by eexists].
    destruct (render_node ledgers i) as [[e|b] l]; by eexists.
  - split; [done|]. intros _ [? [=]].
  - split; [done|]. intros _ [? [=]].
Qed.

Lemma run_steps_rtc n c : rtc (step ledgers) c (run_steps ledgers n c).
Proof.
  revert c. induction n as [|n IH]; intros c; [done|]. cbn.
  destruct (step_fn ledgers c) as [c'|] eqn:E; [|done].
  apply rtc_l with c'; [by apply step_fn_spec|apply IH].
Qed.

Lemma measure_step c c' : step ledgers c c' -> (measure ledgers c' < measure ledgers c)%nat.
Proof. intros []; cbn; lia. Qed.

Lemma todo_indices_cons i :
  0 <= i < ledgers_length ledgers -> todo_indices ledgers i = i :: todo_indices ledgers (i + 1).
Proof.
  intros Hi. unfold todo_indices, ledgers_length in *.
  replace (Z.to_nat (i + 1)) with (S (Z.to_nat i)) by (rewrite Z2Nat.inj_add by lia; cbn; lia).
  replace (length ledgers - Z.to_nat i)%nat with (S (length ledgers - S (Z.to_nat i))) by lia.
  cbn. by rewrite Z2Nat.id by lia.
Qed.

Lemma todo_indices_end i : ledgers_length ledgers <= i -> todo_indices ledgers i = [].
Proof.
  intros Hi. unfold todo_indices, ledgers_length in *.
  by replace (length ledgers - Z.to_nat i)%nat with 0%nat by lia.
Qed.

Lemma done_indices_succ i : 0 <= i -> done_indices (i + 1) = done_indices i ++ [i].
Proof.
  intros Hi. unfold done_indices. rewrite Z2Nat.inj_add, Nat.add_1_r, seq_S by lia.
  rewrite map_app. cbn. by rewrite Z2Nat.id.
Qed.

Lemma done_indices_all : done_indices (ledgers_length ledgers) = node_indices ledgers.
Proof. unfold done_indices, node_indices, ledgers_length. by rewrite Nat2Z.id. Qed.

(** The loop variable stays in [0 .. N] on every reachable configuration. *)
Lemma reach_range header c :
  rtc (step ledgers) (loop_init header) c ->
  match c with Running i _ _ => 0 <= i <= ledgers_length ledgers | _ => True end.
Proof.
  apply (rtc_ind_r (fun c => match c with Running i _ _ => 0 <= i <= ledgers_length ledgers | _ => True end)).
  - cbn. unfold ledgers_length. lia.
  - intros c1 c2 _ Hs IH. destruct Hs; cbn in *; [done|lia|done].
Qed.

(** Every step keeps the result of running to the end. *)
Lemma run_from_step c c' :
  (forall i file log, c = Running i file log -> 0 <= i) ->
  step ledgers c c' -> run_from ledgers c' = run_from ledgers c.
Proof.
  intros Hi Hs. destruct Hs as [i file log Hlt|i file log b l Hlt Hb|i file log e l Hlt He]; cbn.
  - rewrite todo_indices_end by lia. cbn. by rewrite app_nil_r.
  - rewrite (todo_indices_cons i) by (split; [eapply Hi|]; done). cbn [render_loop].
    rewrite (bind_inr _ _ _ _ Hb). cbn [fst snd]. by rewrite app_assoc.
  - rewrite (todo_indices_cons i) by (split; [eapply Hi|]; done). cbn [render_loop].
    by rewrite (bind_inl _ _ _ _ He).
Qed.
End Steps.

(** ** Runs of the loop *)

Section Runs.
Variable ledgers : list jsval.
Implicit Types (c : config).

(** From every configuration a final one is reached, in at most
    [measure c] steps. *)
Lemma reach_nf c : exists n c', (n <= measure ledgers c)%nat /\ nsteps (step ledgers) n c c' /\ nf (step ledgers) c'.
Proof.
  induction c as [c IH] using (well_founded_induction (well_founded_ltof _ (measure ledgers))).
  destruct (step_fn ledgers c) as [c1|] eqn:E.
  - apply step_fn_spec in E as Hs. destruct (IH c1 (measure_step _ _ _ Hs)) as (n & c' & Hn & Hr & Hnf).
    pose proof (measure_step _ _ _ Hs). exists (S n), c'. split_and!; [lia|by econstructor|done].
  - exists 0%nat, c. split_and!; [lia|constructor|]. intros [c1 Hs%step_fn_spec]. congruence.
Qed.

Lemma run_from_init header : run_from ledgers (loop_init header) = generate ledgers header.
Proof.
  cbn. unfold todo_indices, generate, node_indices. rewrite Nat.sub_0_r. cbn [Z.to_nat].
  by destruct (render_loop _ _ _).
Qed.

(** Every reachable configuration runs to the result of [generate]. *)
Lemma run_from_reach header c :
  rtc (step ledgers) (loop_init header) c -> run_from ledgers c = generate ledgers header.
Proof.
  intros H. rewrite <- run_from_init. revert H.
  apply (rtc_ind_r (fun c => run_from ledgers c = run_from ledgers (loop_init header))); [done|].
  intros c1 c2 Hr Hs IH. rewrite <- IH. apply run_from_step; [|done].
  intros i file log ->. by destruct (reach_range ledgers header _ Hr).
Qed.
End Runs.

(** ** Properties of the loop *)

(** C13: the loop invariant.  On every configuration the loop reaches from
    its start, [i] is in [0 .. N], [file] is the header followed by the
    blocks of nodes [0 .. i-1], and the log is their diagnostics, in order.
    The loop exits only after all [N] iterations, and an exception comes
    from node [i] after the diagnostics of nodes [0 .. i-1] and its own. *)
Theorem loop_invariant ledgers header c :
  rtc (step ledgers) (loop_init header) c -> loop_inv ledgers header c.
Proof.
  apply (rtc_ind_r (loop_inv ledgers header)).
  - cbn. unfold ledgers_length. split_and!; try lia; by rewrite ?app_nil_r.
  - intros c1 c2 _ Hs IH. destruct Hs as [i file log Hlt|i file log b l Hlt Hb|i file log e l Hlt He];
      cbn in IH |- *; destruct IH as (Hi & -> & ->).
    + assert (i = ledgers_length ledgers) as -> by lia. by rewrite done_indices_all.
    + rewrite done_indices_succ, !map_app, !concat_app by lia. cbn.
      unfold node_text, node_log, result_text. rewrite Hb. cbn. rewrite !app_nil_r, app_assoc.
      split_and!; [lia|lia|done|done].
    + exists i. unfold node_log. rewrite He. split_and!; try lia; done.
Qed.

(** C14: every run of the loop terminates: the step relation is strongly
    normalizing from every configuration, since each step lowers
    [N - i]. *)
Theorem loop_terminates ledgers c : sn (step ledgers) c.
Proof.
  induction c as [c IH] using (well_founded_induction (well_founded_ltof _ (measure ledgers))).
  constructor. intros c' Hs. apply IH. exact (measure_step _ _ _ Hs).
Qed.

(** C15: the loop always finishes: from its start it reaches a configuration
    with no further step, exited or stopped by an exception, within
    [N + 1] steps. *)
Theorem loop_reaches_final ledgers header :
  exists n c, (n <= length ledgers + 1)%nat /\ nsteps (step ledgers) n (loop_init header) c /\
    nf (step ledgers) c /\ match c with Running _ _ _ => False | _ => True end.
Proof.
  destruct (reach_nf ledgers (loop_init header)) as (n & c & Hn & Hr & Hnf).
  exists n, c. cbn in Hn. unfold ledgers_length in Hn. rewrite Z.sub_0_r, Nat2Z.id in Hn.
  split_and!; [lia|done|done|exact (proj1 (nf_step _ _) Hnf)].
Qed.


(** ** Witnesses *)

Lemma loop_invariant_witness :
  rtc (step sample_ring) (loop_init default_header) (run_steps sample_ring 2 (loop_init default_header)) /\
  loop_inv sample_ring default_header (run_steps sample_ring 2 (loop_init default_header)).
Proof.
  assert (rtc (step sample_ring) (loop_init default_header) (run_steps sample_ring 2 (loop_init default_header)))
    as H by apply run_steps_rtc.
  split; [exact H|exact (loop_invariant sample_ring default_header _ H)].
Defined.

