(* ===== verification/Embedding.v ===== *)
(** * The JSON texts survive their YAML embedding

    Source lines 152-153 embed [generateConnectorLedgers(i)] and
    [generateConnectorRoutes(i)] in single-quoted YAML scalars, with no
    escaping.  This file proves that the embedding is sound for every
    ledgers file whose entries are objects with no single quote in any
    string or key.  Under that condition, each CONNECTOR line of every
    service block reads back, through the YAML reader
    [Document.yaml_sq_scalar], as exactly the JSON text the program
    computed.  The proof follows the values: fields of the ledger, the
    [Object.assign] merge, the RPC addresses, the computed keys and
    [JSON.stringify] all keep the quote out. *)

From S2P Require Import Prelude JsValue Json Ring Config Topology Document.

Local Open Scope Z_scope.

(** Every property of a list avoids [c] in its key and its value:
    [strings_avoid c (JObject ps)]. *)
Definition props_avoid (c : ascii) (ps : props) : bool :=
  props_all (fun k => bool_decide (c ∉ k)) (strings_avoid c) ps.

(** An entry of the ledgers file that the embedding keeps intact: an
    object with no single quote in any string or key. *)
Definition safe_ledger (v : jsval) : bool :=
  match v with JObject ps => props_avoid sq ps | _ => false end.

(** ** Lists of properties that avoid a character *)

Lemma field_avoid c ps k : props_avoid c ps = true -> strings_avoid c (field ps k) = true.
Proof.
  intros Hps. unfold field. destruct (lookup_prop k ps) as [v|] eqn:E; [|done].
  by eapply props_all_lookup.
Qed.

(** ** The single quote in the program's own texts *)

Lemma strings_avoid_object c ps : strings_avoid c (JObject ps) = props_avoid c ps.
Proof. done. Qed.

Lemma show_N_no_sq n : sq ∉ show_N n.
Proof. apply show_N_not_digit. decide_closed. Qed.

#[export] Hint Resolve show_N_no_sq show_Z_no_sq : js.
#[export] Hint Extern 2 (sq ∉ lit _) => decide_closed : js.

(** A text built by concatenation avoids the quote when every piece does. *)
Ltac no_sq := rewrite ?not_elem_of_app_iff; split_and?; auto with js.

(** [ToString] of an array, with its inner loop as a [map]. *)
Lemma to_js_string_array xs :
  to_js_string (JArray xs) = join (lit ",") (map (fun x => if nullish x then [] else to_js_string x) xs).
Proof. reflexivity. Qed.

(** A computed key made from a value whose strings avoid the quote avoids it. *)
Lemma to_js_string_no_sq v : strings_avoid sq v = true -> sq ∉ to_js_string v.
Proof.
  induction v as [| |b|z|s|xs IH|ps _]; intros Hv; cbn [strings_avoid] in Hv.
  - decide_closed.
  - decide_closed.
  - destruct b; decide_closed.
  - apply show_Z_no_sq.
  - by apply bool_decide_eq_true in Hv.
  - rewrite to_js_string_array. apply join_avoid; [decide_closed|].
    intros part (x & -> & Hx)%elem_of_map. rewrite Forall_forall in IH.
    destruct (nullish x); [set_solver|]. apply IH; [done|]. exact (forallb_elem _ _ _ Hv Hx).
  - decide_closed.
Qed.

(** The enumerable own properties of a value that avoids the quote avoid it. *)
Lemma own_enum_props_avoid v : strings_avoid sq v = true -> props_avoid sq (own_enum_props v) = true.
Proof.
  intros Hv. destruct v as [| | | |s|xs|ps]; cbn [own_enum_props]; try done.
  - apply props_all_imap. intros i x Hx. cbn [fst snd strings_avoid].
    apply andb_true_intro. split; apply bool_decide_eq_true_2; [apply show_N_no_sq|].
    cbn in Hv. apply bool_decide_eq_true in Hv. set_solver.
  - apply props_all_imap. intros i x Hx. cbn [fst snd].
    rewrite bool_decide_eq_true_2 by apply show_N_no_sq. exact (forallb_elem _ _ _ Hv Hx).
  - unfold ordered_props. unfold props_avoid. rewrite (props_all_perm _ _ _ ps) by apply own_keys_order_perm. done.
Qed.

Lemma rpc_address_no_sq pn : sq ∉ rpc_address pn.
Proof. unfold rpc_address. no_sq. Qed.

#[export] Hint Resolve rpc_address_no_sq : js.

Lemma config_object_avoid cur plug store opts :
  strings_avoid sq cur = true -> strings_avoid sq plug = true -> strings_avoid sq store = true ->
  props_avoid sq opts = true -> strings_avoid sq (config_object cur plug store opts) = true.
Proof.
  intros H1 H2 H3 H4. unfold config_object. rewrite strings_avoid_object.
  unfold props_avoid, props_all. cbn [forallb fst snd]. rewrite H1, H2, H3, strings_avoid_object, H4.
  rewrite !bool_decide_eq_true_2 by decide_closed. done.
Qed.

Lemma merged_options_avoid ps isLeft :
  props_avoid sq ps = true -> props_avoid sq (merged_options ps isLeft) = true.
Proof.
  intros Hps. apply props_all_object_assign; [done|].
  repeat constructor; apply own_enum_props_avoid, field_avoid, Hps.
Qed.

(** The config [createConfig] builds from a ledger object that avoids the
    quote avoids it, on all three branches. *)
Lemma config_of_avoid ledgers i ps isLeft :
  props_avoid sq ps = true -> strings_avoid sq (config_of ledgers i ps isLeft) = true.
Proof.
  intros Hps. unfold config_of. rewrite createConfig_object. cbn zeta.
  pose proof (merged_options_avoid ps isLeft Hps) as Hm.
  assert (forall o, props_avoid sq o = true ->
            strings_avoid sq (config_object (field ps (lit "currency")) (field ps (lit "plugin"))
                                (field ps (lit "store")) o) = true) as Hc
    by (intros; apply config_object_avoid; auto using field_avoid).
  destruct (truthy _); [|destruct (truthy _)]; cbn [fst]; apply Hc; try done;
    apply props_all_put; try done; try decide_closed.
  - cbn. apply bool_decide_eq_true_2, rpc_address_no_sq.
  - cbn. unfold props_avoid, props_all. cbn [forallb fst snd strings_avoid].
    rewrite !bool_decide_eq_true_2; [done|apply rpc_address_no_sq|].
    apply to_js_string_no_sq, field_avoid, Hps.
Qed.

Lemma kit_prefix_no_sq i : sq ∉ kit_prefix i.
Proof. unfold kit_prefix. no_sq. Qed.

Lemma connector_account_config_avoid i : strings_avoid sq (connector_account_config i) = true.
Proof.
  assert (sq ∉ lit "http://ilp-kit" ++ show_Z i ++ lit ":" ++ show_Z (i + 2)
                ++ lit "010/ledger/accounts/connector") as Hacc.
  { no_sq. }
  unfold connector_account_config. cbn [strings_avoid forallb fst snd].
  rewrite !bool_decide_eq_true_2 by first [exact Hacc | decide_closed]. done.
Qed.

(** A [JSON.stringify] of an object that avoids the quote has none. *)
Lemma stringify_object_no_sq ps : props_avoid sq ps = true -> sq ∉ stringify_object ps.
Proof.
  intros Hps. unfold stringify_object, stringify.
  destruct (serialize_object_Some ps) as [t Ht]. rewrite Ht. exact (serialize_no_sq (JObject ps) _ Hps Ht).
Qed.

(** [generateConnectorRoutes] on a ledger object at [next]. *)
Lemma generateConnectorRoutes_object ledgers i ps :
  ledger_at ledgers (next_index (ledgers_length ledgers) i) = JObject ps ->
  let r := JArray [route_object (field ps (lit "name")) (field ps (lit "right_account"))] in
  generateConnectorRoutes ledgers i ⇓ default [] (stringify r) logging [ConsoleError i r].
Proof.
  intros Hn. unfold generateConnectorRoutes. cbn zeta.
  by rewrite Hn, !get_object, !bind_ret_l, tell_bind, mret_pair.
Qed.

Lemma route_object_avoid name account :
  strings_avoid sq name = true -> strings_avoid sq account = true ->
  strings_avoid sq (route_object name account) = true.
Proof.
  intros Hn Ha. unfold route_object. rewrite strings_avoid_object.
  unfold props_avoid, props_all. cbn [forallb fst snd strings_avoid]. rewrite Hn, Ha.
  rewrite !bool_decide_eq_true_2; try done; decide_closed.
Qed.

Lemma safe_ledger_inv v : safe_ledger v = true -> exists ps, v = JObject ps /\ props_avoid sq ps = true.
Proof. destruct v; try done. eauto. Qed.

(** The [CONNECTOR_LEDGERS] text of node [i] has no quote. *)
Lemma connector_ledgers_no_sq ledgers i ps_i ps_n :
  ledger_at ledgers i = JObject ps_i -> props_avoid sq ps_i = true ->
  ledger_at ledgers (next_index (ledgers_length ledgers) i) = JObject ps_n -> props_avoid sq ps_n = true ->
  sq ∉ result_text (generateConnectorLedgers ledgers i).
Proof.
  intros Hi Hai Hn Han. rewrite (generateConnectorLedgers_objects _ _ ps_i ps_n Hi Hn).
  unfold result_text. cbn [fst]. apply stringify_object_no_sq.
  apply props_all_set_prop; [by apply bool_decide_eq_true_2, to_js_string_no_sq, field_avoid|by apply config_of_avoid|].
  apply props_all_set_prop; [by apply bool_decide_eq_true_2, to_js_string_no_sq, field_avoid|by apply config_of_avoid|].
  unfold props_all. cbn [forallb fst snd].
  by rewrite bool_decide_eq_true_2, connector_account_config_avoid by apply kit_prefix_no_sq.
Qed.

(** The [CONNECTOR_ROUTES] text of node [i] has no quote. *)
Lemma connector_routes_no_sq ledgers i ps_n :
  ledger_at ledgers (next_index (ledgers_length ledgers) i) = JObject ps_n -> props_avoid sq ps_n = true ->
  sq ∉ result_text (generateConnectorRoutes ledgers i).
Proof.
  intros Hn Han. rewrite (generateConnectorRoutes_object _ _ ps_n Hn). unfold result_text, stringify.
  cbn [fst]. rewrite serialize_array. cbn [default].
  apply (serialize_no_sq (JArray [route_object (field ps_n (lit "name")) (field ps_n (lit "right_account"))])).
  - cbn [strings_avoid forallb]. by rewrite route_object_avoid by by apply field_avoid.
  - by rewrite serialize_array.
Qed.

(** ** The embedding is sound *)

(** C9: when every entry of the ledgers file is an object with no single
    quote in any of its strings or keys, both CONNECTOR lines of every
    service block survive YAML.  The block of node [i] holds the
    [CONNECTOR_LEDGERS] and [CONNECTOR_ROUTES] lines with the texts of
    [generateConnectorLedgers(i)] and [generateConnectorRoutes(i)] in single
    quotes.  A YAML reader that starts after each opening quote returns
    exactly that text and stops at the end of its line. *)
Theorem connector_env_roundtrip ledgers i :
  forallb safe_ledger ledgers = true -> i ∈ node_indices ledgers ->
  let cl := result_text (generateConnectorLedgers ledgers i) in
  let cr := result_text (generateConnectorRoutes ledgers i) in
  let routes_line := lit "      CONNECTOR_ROUTES: " ++ [sq] ++ cr ++ [sq; newline] in
  exists pre post,
    node_text ledgers i = pre ++ lit "      CONNECTOR_LEDGERS: " ++ [sq] ++ cl ++ [sq; newline]
                              ++ routes_line ++ post /\
    yaml_sq_scalar (cl ++ [sq; newline] ++ routes_line ++ post) = Some (cl, [newline] ++ routes_line ++ post) /\
    yaml_sq_scalar (cr ++ [sq; newline] ++ post) = Some (cr, [newline] ++ post).
Proof.
  intros Hsafe Hidx cl cr routes_line.
  destruct (node_ledgers_elem _ _ Hidx) as [Hi Hn].
  destruct (safe_ledger_inv _ (forallb_elem _ _ _ Hsafe Hi)) as (ps_i & Ei & Hai).
  destruct (safe_ledger_inv _ (forallb_elem _ _ _ Hsafe Hn)) as (ps_n & En & Han).
  destruct (render_node_ok ledgers i) as (cl' & lcl & cr' & lcr & Ecl & Ecr & E); [by rewrite Ei|by rewrite En|].
  assert (cl' = cl) as -> by (subst cl; by rewrite Ecl).
  assert (cr' = cr) as -> by (subst cr; by rewrite Ecr).
  destruct (service_block_connector i cl cr) as (pre & post & Eb).
  exists pre, post. split_and!.
  - unfold node_text, result_text. rewrite E. cbn [fst]. rewrite Eb. subst routes_line. by list_norm.
  - apply yaml_sq_scalar_plain; [exact (connector_ledgers_no_sq _ _ _ _ Ei Hai En Han)|done].
  - apply yaml_sq_scalar_plain; [exact (connector_routes_no_sq _ _ _ En Han)|done].
Qed.

(** ** Witness *)

Lemma connector_env_roundtrip_witness :
  forallb safe_ledger sample_ring = true /\ 1 ∈ node_indices sample_ring /\
  let cl := result_text (generateConnectorLedgers sample_ring 1) in
  let cr := result_text (generateConnectorRoutes sample_ring 1) in
  let routes_line := lit "      CONNECTOR_ROUTES: " ++ [sq] ++ cr ++ [sq; newline] in
  exists pre post,
    node_text sample_ring 1 = pre ++ lit "      CONNECTOR_LEDGERS: " ++ [sq] ++ cl ++ [sq; newline]
                              ++ routes_line ++ post /\
    yaml_sq_scalar (cl ++ [sq; newline] ++ routes_line ++ post) = Some (cl, [newline] ++ routes_line ++ post) /\
    yaml_sq_scalar (cr ++ [sq; newline] ++ post) = Some (cr, [newline] ++ post).
Proof.
  assert (forallb safe_ledger sample_ring = true) as H1 by (vm_compute; reflexivity).
  assert (1 ∈ node_indices sample_ring) as H2 by decide_closed.
  split; [exact H1|split; [exact H2|]]. exact (connector_env_roundtrip sample_ring 1 H1 H2).
Defined.
