(* ===== verification/Process.v ===== *)
(** * The process

    The script as a whole: the [--help] and [--ledgers] checks (lines
    5-16), [require] of the ledgers file (line 22, modelled in [Loader]),
    the header (line 23, [loadHeaderFile] of lines 18-20), the loop over
    whatever value [require] returned (lines 111-163, [Document.generate]
    on the entries [Loader.ledgers_of] gives), and [console.log(file)]
    (line 165).  [main] gives the process's stdout, stderr and exit
    status, or [None] on an input outside the model.  The order of the
    effects is the code's: [require] runs before the header is read, and
    [ledgers.length] is read only after [file += header]. *)

From S2P Require Import Prelude JsValue Json JsonParse JsonValid Loader Ring Config Topology Document.

Local Open Scope Z_scope.

(** The parsed command line: [argv.help], [argv.ledgers] and
    [argv.header].  An absent option is [undefined].  yargs' own parsing is
    not modelled. *)
Record argv := { argv_help : jsval; argv_ledgers : jsval; argv_header : jsval }.

(** The environment of the process: [process.cwd()], [path.join] on two
    strings, the file system that [require] and [fs.readFileSync] read,
    and the exports of the modules that [require] runs as code. *)
Record env := {
  env_cwd : jstring;
  env_join : jstring -> jstring -> jstring;
  env_files : files;
  env_modules : js_modules
}.

(** What the process writes to stderr: a [console.error(n, v)] line, a
    [console.error(msg)] line, or the report of an uncaught exception. *)
Inductive stderr_item :=
| Diagnostic (e : event)
| ErrorLine (s : jstring)
| Uncaught (e : exn).

Record outcome := { out_stdout : jstring; out_stderr : list stderr_item; out_exit : Z }.

(** [console.log] of the four usage strings: joined by spaces, then a newline. *)
Definition usage_text : jstring :=
  join [" "%char]
    [lit "usage: generate-docker-compose.js --ledgers <json file>" ++ [newline; newline];
     lit " --ledgers <json file> : (required) load json file containing ledgers." ++ [newline];
     lit " --header  <file>      : (optional) start docker compose with contents" ++ [newline];
     lit "                         of <file> instead of default docker-compose." ++ [newline]]
  ++ [newline].

(** [path.join(process.cwd(), x)]: a non-string [x] is a [TypeError]. *)
Definition join_cwd (e : env) (x : jsval) : exn + jstring :=
  match x with
  | JString s => inr (env_join e (env_cwd e) s)
  | _ => inl TypeErrorArg
  end.

(** An uncaught exception: its report on stderr and exit status 1. *)
Definition crash (logs : list event) (x : exn) : outcome :=
  {| out_stdout := []; out_stderr := map Diagnostic logs ++ [Uncaught x]; out_exit := 1 |}.

(** [argv.header ? loadHeaderFile(argv.header) : <default header>], with
    [loadHeaderFile] of lines 18-20: [fs.readFileSync] of a missing file
    throws [ENOENT]. *)
Definition load_header (a : argv) (e : env) : exn + jstring :=
  if truthy (argv_header a) then
    match join_cwd e (argv_header a) with
    | inl x => inl x
    | inr p => match env_files e p with Some t => inr t | None => inl (FileNotFound p) end
    end
  else inr default_header.

(** The loop's result and line 165: [console.log(file)] prints the text
    and a newline. *)
Definition finish (r : js jstring) : outcome :=
  match r with
  | (inl x, logs) => crash logs x
  | (inr file, logs) => {| out_stdout := file ++ [newline]; out_stderr := map Diagnostic logs; out_exit := 0 |}
  end.

(** Lines 111-165 on the value [v] that [require] returned. *)
Definition run (v : jsval) (header : jstring) : option outcome :=
  match ledgers_of v with
  | ViewUnmodelled => None
  | ViewThrow x => Some (crash [] x)
  | ViewList ledgers => Some (finish (generate ledgers header))
  end.

(** The whole script: lines 5-16, 22-23, the loop, and line 165. *)
Definition main (a : argv) (e : env) : option outcome :=
  if truthy (argv_help a) then
    Some {| out_stdout := usage_text; out_stderr := []; out_exit := 0 |}
  else if negb (truthy (argv_ledgers a)) then
    Some {| out_stdout := []; out_stderr := [ErrorLine (lit "must specify --ledgers <json file>")];
            out_exit := 1 |}
  else
    match join_cwd e (argv_ledgers a) with
    | inl x => Some (crash [] x)
    | inr p =>
        match node_require (env_files e) (env_modules e) p with
        | None => None
        | Some (inl x) => Some (crash [] x)
        | Some (inr v) =>
            match load_header a e with
            | inl x => Some (crash [] x)
            | inr header => run v header
            end
        end
    end.

(** A run with [--ledgers <path>] only, and an environment whose one file
    is [/work/ledgers.json]; the inputs of the witnesses. *)
Definition ledgers_only (path : string) : argv :=
  {| argv_help := JUndefined; argv_ledgers := JString (lit path); argv_header := JUndefined |}.

Definition file_env (text : jstring) : env :=
  {| env_cwd := lit "/work";
     env_join := fun d f => d ++ ["/"%char] ++ f;
     env_files := one_file "/work/ledgers.json" text;
     env_modules := no_code |}.

(** The ledgers file as [JSON.stringify] writes the array. *)
Definition sample_env (ledgers : list jsval) : env := file_env (default [] (stringify (JArray ledgers))).

(** ** Lemmas *)

Lemma load_header_default a e : truthy (argv_header a) = false -> load_header a e = inr default_header.
Proof. unfold load_header. by intros ->. Qed.

(** [main] past the checks of lines 5-16 and [require]. *)
Lemma main_loaded a e path v :
  truthy (argv_help a) = false -> argv_ledgers a = JString path -> path <> [] ->
  node_require (env_files e) (env_modules e) (env_join e (env_cwd e) path) = Some (inr v) ->
  main a e = match load_header a e with inl x => Some (crash [] x) | inr header => run v header end.
Proof.
  intros Hh Hl Hp Hr. unfold main. rewrite Hh, Hl. cbn [truthy negb].
  rewrite bool_decide_false by done. cbn [negb join_cwd]. by rewrite Hr.
Qed.

(** [main] with the default header, on a value whose entries are a list. *)
Lemma main_list a e path v ledgers :
  truthy (argv_help a) = false -> argv_ledgers a = JString path -> truthy (argv_header a) = false ->
  path <> [] ->
  node_require (env_files e) (env_modules e) (env_join e (env_cwd e) path) = Some (inr v) ->
  ledgers_of v = ViewList ledgers ->
  main a e = Some (finish (generate ledgers default_header)).
Proof.
  intros Hh Hl Hhd Hp Hr Hv. rewrite (main_loaded a e path v) by done.
  rewrite load_header_default by done. unfold run. by rewrite Hv.
Qed.

(** ** Properties of the process *)

(** C34: the checks of lines 5-16.  With [--help], the process prints
    the usage text and exits 0 without reading any file.  Without
    [--help] and without a (truthy) [--ledgers], it prints one error line
    to stderr, nothing to stdout, and exits 1. *)
Theorem main_argument_checks a e :
  (truthy (argv_help a) = true ->
   main a e = Some {| out_stdout := usage_text; out_stderr := []; out_exit := 0 |}) /\
  (truthy (argv_help a) = false -> truthy (argv_ledgers a) = false ->
   main a e = Some {| out_stdout := []; out_stderr := [ErrorLine (lit "must specify --ledgers <json file>")];
                      out_exit := 1 |}).
Proof. unfold main. split; [intros H|intros H1 H2]; by rewrite ?H, ?H1, ?H2. Qed.

(** C22: every run the model covers exits with 0 or 1.  When it exits
    with 1, stdout is empty, so no partial manifest is ever printed.  When
    it exits with 0, stdout ends with a newline. *)
Theorem main_exit_codes a e o :
  main a e = Some o ->
  (out_exit o = 0 \/ out_exit o = 1) /\
  (out_exit o = 1 -> out_stdout o = []) /\
  (out_exit o = 0 -> exists s, out_stdout o = s ++ [newline]).
Proof.
  assert (forall r, let o := finish r in (out_exit o = 0 \/ out_exit o = 1) /\
            (out_exit o = 1 -> out_stdout o = []) /\ (out_exit o = 0 -> exists s, out_stdout o = s ++ [newline]))
    as Hfin by (intros [[x|file] logs]; cbn; split_and!; eauto; discriminate).
  unfold main, run. destruct (truthy (argv_help a)).
  { intros [= <-]. split_and!; cbn; [auto|discriminate|]. unfold usage_text. by eexists. }
  destruct (negb _); [intros [= <-]; cbn; split_and!; auto; discriminate|].
  repeat case_match; intros [= <-]; try apply Hfin; cbn; split_and!; eauto; discriminate.
Qed.

(** C8: for a ledgers file whose entries, as the loop reads them, are a
    list with no [null] or [undefined] entry, and no [--header], the
    process prints the default header, the service blocks and a final
    newline, and it exits 0.  Its stderr holds exactly the diagnostics of
    the nodes, in node order. *)
Theorem main_success a e path v ledgers :
  truthy (argv_help a) = false -> argv_ledgers a = JString path -> truthy (argv_header a) = false ->
  path <> [] ->
  node_require (env_files e) (env_modules e) (env_join e (env_cwd e) path) = Some (inr v) ->
  ledgers_of v = ViewList ledgers ->
  Forall (fun v => nullish v = false) ledgers ->
  main a e =
    Some {| out_stdout := default_header ++ concat (map (node_text ledgers) (node_indices ledgers)) ++ [newline];
            out_stderr := map Diagnostic (concat (map (node_log ledgers) (node_indices ledgers)));
            out_exit := 0 |}.
Proof.
  intros Hh Hl Hhd Hp Hr Hv Hall. rewrite (main_list a e path v ledgers) by done.
  unfold finish, generate. rewrite render_loop_all by (by apply nodes_ok_iff). by rewrite <- app_assoc.
Qed.

(** C33: neither an empty ledgers array nor a value that is not [null]
    and has no [length] (a number, a boolean, an object without that key)
    is a fault: the loop test [i < ledgers.length] is false at once, no
    modulo by zero is computed, and the process prints the header alone
    and exits 0.  Spec sections 7 and 9 say the empty array faults. *)
Theorem main_header_only a e path v :
  truthy (argv_help a) = false -> argv_ledgers a = JString path -> truthy (argv_header a) = false ->
  path <> [] ->
  node_require (env_files e) (env_modules e) (env_join e (env_cwd e) path) = Some (inr v) ->
  v = JArray [] \/ (nullish v = false /\ read v (lit "length") = JUndefined) ->
  main a e = Some {| out_stdout := default_header ++ [newline]; out_stderr := []; out_exit := 0 |}.
Proof.
  intros Hh Hl Hhd Hp Hr Hv. rewrite (main_list a e path v []); try done.
  destruct Hv as [->|[Hn Hlen]]; [done|]. destruct v; try done; unfold ledgers_of; by rewrite Hlen.
Qed.

(** C26: a [null] entry in the ledgers array makes the process crash with
    a [TypeError].  Stdout stays empty and the exit status is 1. *)
Theorem main_null_ledger a e path ledgers :
  truthy (argv_help a) = false -> argv_ledgers a = JString path -> truthy (argv_header a) = false ->
  path <> [] ->
  node_require (env_files e) (env_modules e) (env_join e (env_cwd e) path) = Some (inr (JArray ledgers)) ->
  JNull ∈ ledgers ->
  exists logs x, main a e = Some {| out_stdout := []; out_stderr := map Diagnostic logs ++ [Uncaught x];
                                    out_exit := 1 |}.
Proof.
  intros Hh Hl Hhd Hp Hr Hnull. rewrite (main_list a e path (JArray ledgers) ledgers) by done.
  unfold finish. destruct (generate ledgers default_header) as [[x|file] logs] eqn:E; [eauto|].
  exfalso. assert (Forall (fun v => nullish v = false) ledgers) as Hall.
  { apply nodes_ok_iff, (render_loop_inr ledgers ([] ++ default_header)). eauto. }
  rewrite Forall_forall in Hall. specialize (Hall _ Hnull). discriminate.
Qed.

(** C35: a [--ledgers] path that names a [.json] file whose text is not
    JSON makes [require] throw a [SyntaxError] naming the file.  The
    process prints nothing on stdout, reports the exception and exits 1,
    before it reads the header file. *)
Theorem main_syntax_error a e path t :
  truthy (argv_help a) = false -> argv_ledgers a = JString path -> path <> [] ->
  let p := env_join e (env_cwd e) path in
  last p <> Some "/"%char -> module_loader p = LoadJson -> env_files e p = Some t -> json_valid t = false ->
  main a e = Some {| out_stdout := []; out_stderr := [Uncaught (SyntaxErrorJSON p)]; out_exit := 1 |}.
Proof.
  intros Hh Hl Hp p Hs Hj Hf Hv. unfold main. rewrite Hh, Hl. cbn [truthy negb].
  rewrite bool_decide_false by done. cbn [negb join_cwd].
  by rewrite (node_require_syntax_error _ _ p t).
Qed.

(** C37: [--ledgers ledgers], with no file [ledgers] and no [ledgers.js]
    but a file [ledgers.json], loads [ledgers.json] with the JSON loader:
    when its text is JSON in the model, the run goes on with the value it
    holds. *)
Theorem main_ledgers_json_extension a e path c t v :
  truthy (argv_help a) = false -> argv_ledgers a = JString path -> truthy (argv_header a) = false ->
  path <> [] ->
  let p := env_join e (env_cwd e) path in
  last p = Some c -> c <> "/"%char ->
  env_files e p = None -> env_files e (p ++ lit ".js") = None -> env_files e (p ++ lit ".json") = Some t ->
  json_valid t = true -> json_parse t = Some v ->
  main a e = run v default_header.
Proof.
  intros Hh Hl Hhd Hpe p Hlast Hc Hp Hjs Hjson Hv Hparse. subst p. rewrite (main_loaded a e path v); try done.
  - by rewrite load_header_default.
  - unfold node_require, resolve. rewrite bool_decide_false by (rewrite Hlast; congruence).
    rewrite Hp. cbn. rewrite Hjs, Hjson. rewrite (module_loader_json _ c) by done.
    by rewrite Hv, Hparse.
Qed.

(** C38: a ledgers file that holds [null] makes the loop test read
    [length] of [null]: the process crashes with a [TypeError] after the
    header was read, with nothing on stdout and exit status 1. *)
Theorem main_null_file a e path :
  truthy (argv_help a) = false -> argv_ledgers a = JString path -> truthy (argv_header a) = false ->
  path <> [] ->
  node_require (env_files e) (env_modules e) (env_join e (env_cwd e) path) = Some (inr JNull) ->
  main a e = Some {| out_stdout := []; out_stderr := [Uncaught (TypeErrorRead (lit "length"))]; out_exit := 1 |}.
Proof.
  intros Hh Hl Hhd Hp Hr. rewrite (main_loaded a e path JNull) by done.
  by rewrite load_header_default by done.
Qed.

(** ** Witnesses *)

Lemma main_argument_checks_witness :
  main {| argv_help := JBool true; argv_ledgers := JUndefined; argv_header := JUndefined |} (sample_env [])
    = Some {| out_stdout := usage_text; out_stderr := []; out_exit := 0 |} /\
  main {| argv_help := JUndefined; argv_ledgers := JString []; argv_header := JUndefined |} (sample_env [])
    = Some {| out_stdout := []; out_stderr := [ErrorLine (lit "must specify --ledgers <json file>")]; out_exit := 1 |}.
Proof.
  split; [apply (main_argument_checks _ (sample_env []))|apply (main_argument_checks _ (sample_env []))];
    reflexivity.
Defined.

Lemma main_exit_codes_witness :
  let o := default {| out_stdout := []; out_stderr := []; out_exit := 2 |}
                   (main (ledgers_only "ledgers.json") (sample_env sample_ring)) in
  main (ledgers_only "ledgers.json") (sample_env sample_ring) = Some o /\
  (out_exit o = 0 \/ out_exit o = 1) /\
  (out_exit o = 1 -> out_stdout o = []) /\
  (out_exit o = 0 -> exists s, out_stdout o = s ++ [newline]).
Proof.
  intros o. assert (main (ledgers_only "ledgers.json") (sample_env sample_ring) = Some o) as H
    by (vm_compute; reflexivity).
  split; [exact H|exact (main_exit_codes _ _ o H)].
Defined.

Lemma main_success_witness :
  main (ledgers_only "ledgers.json") (sample_env sample_ring) =
    Some {| out_stdout := default_header ++ concat (map (node_text sample_ring) (node_indices sample_ring)) ++ [newline];
            out_stderr := map Diagnostic (concat (map (node_log sample_ring) (node_indices sample_ring)));
            out_exit := 0 |}.
Proof.
  apply (main_success _ _ (lit "ledgers.json") (JArray sample_ring)); try (vm_compute; reflexivity);
    [decide_closed|repeat constructor].
Defined.

Lemma main_header_only_witness :
  main (ledgers_only "ledgers.json") (sample_env []) =
    Some {| out_stdout := default_header ++ [newline]; out_stderr := []; out_exit := 0 |} /\
  main (ledgers_only "ledgers.json") (file_env (lit "{ }")) =
    Some {| out_stdout := default_header ++ [newline]; out_stderr := []; out_exit := 0 |}.
Proof.
  split.
  - apply (main_header_only _ _ (lit "ledgers.json") (JArray [])); try (vm_compute; reflexivity); [decide_closed|by left].
  - apply (main_header_only _ _ (lit "ledgers.json") (JObject [])); try (vm_compute; reflexivity);
      [decide_closed|by right].
Defined.

Lemma main_null_ledger_witness :
  exists logs x, main (ledgers_only "ledgers.json") (sample_env [JObject (sample_ledger "L0" []); JNull]) =
    Some {| out_stdout := []; out_stderr := map Diagnostic logs ++ [Uncaught x]; out_exit := 1 |}.
Proof.
  apply (main_null_ledger _ _ (lit "ledgers.json") [JObject (sample_ledger "L0" []); JNull]);
    try (vm_compute; reflexivity); [decide_closed|set_solver].
Defined.

Lemma main_syntax_error_witness :
  main (ledgers_only "ledgers.json") (file_env (lit "[1,]")) =
    Some {| out_stdout := []; out_stderr := [Uncaught (SyntaxErrorJSON (lit "/work/ledgers.json"))]; out_exit := 1 |}.
Proof.
  apply (main_syntax_error (ledgers_only "ledgers.json") (file_env (lit "[1,]")) (lit "ledgers.json") (lit "[1,]"));
    try reflexivity; decide_closed.
Defined.

Lemma main_ledgers_json_extension_witness :
  main (ledgers_only "ledgers") (file_env (lit " [ ] ")) = run (JArray []) default_header.
Proof.
  apply (main_ledgers_json_extension _ _ (lit "ledgers") "s"%char (lit " [ ] ") (JArray []));
    (reflexivity || discriminate || decide_closed).
Defined.

Lemma main_null_file_witness :
  main (ledgers_only "ledgers.json") (file_env (lit " null")) =
    Some {| out_stdout := []; out_stderr := [Uncaught (TypeErrorRead (lit "length"))]; out_exit := 1 |}.
Proof. apply (main_null_file _ _ (lit "ledgers.json")); try (vm_compute; reflexivity). decide_closed. Defined.

(** ** A ledgers file that holds a string *)

(** The entries of a file holding the JSON string ["ab"]: its characters. *)
Example string_file_entries :
  node_require (env_files (file_env [dq; "a"%char; "b"%char; dq])) no_code (lit "/work/ledgers.json")
    = Some (inr (JString (lit "ab"))) /\
  ledgers_of (JString (lit "ab")) = ViewList [JString (lit "a"); JString (lit "b")].
Proof. split; vm_compute; reflexivity. Qed.

(** Each character is a ledger without fields: the process runs, and the
    key of the ledger in [CONNECTOR_LEDGERS] is [undefined]. *)
Example string_file_runs :
  let L := [JString (lit "a"); JString (lit "b")] in
  main (ledgers_only "ledgers.json") (file_env [dq; "a"%char; "b"%char; dq]) =
    Some {| out_stdout := default_header ++ concat (map (node_text L) (node_indices L)) ++ [newline];
            out_stderr := map Diagnostic (concat (map (node_log L) (node_indices L)));
            out_exit := 0 |} /\
  exists o l, connectorLedgers L 0 ⇓ o logging l /\ map fst o = [kit_prefix 0; lit "undefined"].
Proof. split; [vm_compute; reflexivity|]. do 2 eexists. split; [reflexivity|]. vm_compute. reflexivity. Qed.
